(** * Sports_degens: odds ingestion and odds analytics

    A shallow embedding of the odds services of the repository
    (utils/odds.ts, utils/oddsIds.ts, OddsApiService, OddsIngestionService,
    ArbitrageService, CheatSheetService, sportsToolsController) together
    with the properties their specification states about them.

    Modelling conventions.
    - A JavaScript [number] that carries a price, a line or a probability is
      a value of [number]: an exact rational or one of NaN, +Infinity,
      -Infinity.  Arithmetic on finite values is exact (no rounding).
    - A JavaScript number that is used as a count, an index, an identifier
      or an epoch time in milliseconds is an integer of [Z].
    - A string is a sequence of ASCII code units; case mapping acts on the
      letters A-Z and a-z, white space is the ASCII white space.
    - [undefined] and [null] fields of the feed payload are [None].
    - Effects (environment, HTTP calls, clock, logger, document store) are
      threaded through a state-and-exception monad over [World]. *)

From Stdlib Require Import ZArith QArith Qabs Qround Lia String Ascii List.
From Stdlib Require Import DecimalString Sorting.Sorted Permutation Lqa.
From stdpp Require Import gmap strings list fin_maps.

Set Warnings "-register-all".

Local Open Scope string_scope.
Local Open Scope list_scope.
Local Open Scope Z_scope.

(* ===================================================================== *)
(** * JavaScript numbers                                                   *)
(* ===================================================================== *)

Inductive number : Type :=
| Fin (q : Q)
| NaN
| PosInf
| NegInf.

(** [Number.isFinite]. *)
Definition Number_isFinite (x : number) : bool :=
  match x with Fin _ => true | _ => false end.

Definition Qlt_bool (a b : Q) : bool := negb (Qle_bool b a).

(** Equality of numbers as values ([1/2] and [2/4] are the same number;
    NaN is related to itself here, this is not the [===] of the language). *)
Definition num_eq (x y : number) : Prop :=
  match x, y with
  | Fin a, Fin b => (a == b)%Q
  | NaN, NaN | PosInf, PosInf | NegInf, NegInf => True
  | _, _ => False
  end.

(** The comparison [x < y] of the language. *)
Definition num_ltb (x y : number) : bool :=
  match x, y with
  | NaN, _ | _, NaN => false
  | Fin a, Fin b => Qlt_bool a b
  | PosInf, _ => false
  | _, NegInf => false
  | NegInf, _ => true
  | Fin _, PosInf => true
  end.

(** The comparison [x !== y] of the language. *)
Definition num_strict_ne (x y : number) : bool :=
  match x, y with
  | Fin a, Fin b => negb (Qeq_bool a b)
  | PosInf, PosInf | NegInf, NegInf => false
  | _, _ => true
  end.

(** [x - y]. *)
Definition num_sub (x y : number) : number :=
  match x, y with
  | NaN, _ | _, NaN => NaN
  | Fin a, Fin b => Fin (a - b)
  | PosInf, PosInf | NegInf, NegInf => NaN
  | PosInf, _ => PosInf
  | NegInf, _ => NegInf
  | Fin _, PosInf => NegInf
  | Fin _, NegInf => PosInf
  end.

(** [Number.isFinite(x) ? x : null]. *)
Definition finite_or_null (x : number) : option Q :=
  match x with Fin q => Some q | _ => None end.

(* ===================================================================== *)
(** * utils/odds.ts                                                        *)
(* ===================================================================== *)

Module Odds.

(** [americanToImpliedProb]: +150 => 100 / (150 + 100), -150 => 150 / (150 + 100). *)
Definition americanToImpliedProb (american : number) : number :=
  match american with
  | Fin a =>
      if Qeq_bool a 0 then Fin 0
      else if Qlt_bool 0 a then Fin (100 / (a + 100))
      else Fin (Qabs a / (Qabs a + 100))
  | _ => Fin 0
  end.

(** [americanToDecimal]: +150 => 2.5, -150 => 1.666... *)
Definition americanToDecimal (american : number) : number :=
  match american with
  | Fin a =>
      if Qeq_bool a 0 then Fin 0
      else if Qlt_bool 0 a then Fin (1 + a / 100)
      else Fin (1 + 100 / Qabs a)
  | _ => Fin 0
  end.

(** [decimalToImpliedProb]: [!decimal] holds of 0 and of NaN; for
    +Infinity the quotient [1 / decimal] is 0. *)
Definition decimalToImpliedProb (decimal : number) : number :=
  match decimal with
  | Fin d => if Qle_bool d 0 then Fin 0 else Fin (1 / d)
  | NaN => Fin 0
  | NegInf => Fin 0
  | PosInf => Fin 0
  end.

End Odds.

(* ===================================================================== *)
(** * Strings                                                              *)
(* ===================================================================== *)

Module Str.

Definition code (c : ascii) : Z := Z.of_nat (nat_of_ascii c).

Definition is_space (c : ascii) : bool :=
  let n := code c in ((9 <=? n) && (n <=? 13)) || (n =? 32).

Definition is_upper (c : ascii) : bool :=
  let n := code c in (65 <=? n) && (n <=? 90).

Definition is_lower (c : ascii) : bool :=
  let n := code c in (97 <=? n) && (n <=? 122).

Definition is_digit (c : ascii) : bool :=
  let n := code c in (48 <=? n) && (n <=? 57).

Definition lower_char (c : ascii) : ascii :=
  if is_upper c then ascii_of_nat (nat_of_ascii c + 32) else c.

Definition upper_char (c : ascii) : ascii :=
  if is_lower c then ascii_of_nat (nat_of_ascii c - 32) else c.

Definition on_chars (f : list ascii -> list ascii) (s : string) : string :=
  string_of_list_ascii (f (list_ascii_of_string s)).

Definition toLowerCase : string -> string := on_chars (map lower_char).
Definition toUpperCase : string -> string := on_chars (map upper_char).

Fixpoint drop_spaces (l : list ascii) : list ascii :=
  match l with
  | c :: r => if is_space c then drop_spaces r else l
  | [] => []
  end.

Definition trim : string -> string :=
  on_chars (fun l => rev (drop_spaces (rev (drop_spaces l)))).

(** [s.slice(0, n)] for a non-negative [n]. *)
Definition slice0 (n : nat) : string -> string := on_chars (firstn n).

(** [s.startsWith(p)]. *)
Definition startsWith (p s : string) : bool := String.prefix p s.

(** [xs.join(sep)]. *)
Fixpoint join (sep : string) (xs : list string) : string :=
  match xs with
  | [] => ""
  | [x] => x
  | x :: r => x +:+ sep +:+ join sep r
  end.

(** [s.split(",")]: the pieces between the commas, at least one piece. *)
Fixpoint split_on (sep : ascii) (cur : list ascii) (l : list ascii) : list string :=
  match l with
  | [] => [string_of_list_ascii (rev cur)]
  | c :: r =>
      if Ascii.eqb c sep
      then string_of_list_ascii (rev cur) :: split_on sep [] r
      else split_on sep (c :: cur) r
  end.

Definition split_comma (s : string) : list string :=
  split_on "," [] (list_ascii_of_string s).

Definition nonempty (s : string) : bool :=
  match s with EmptyString => false | _ => true end.

(** [a || b] on a possibly missing string: the empty string is falsy. *)
Definition or_else (a : option string) (b : string) : string :=
  match a with
  | Some s => if nonempty s then s else b
  | None => b
  end.

(** [a || b] where [b] may be missing as well. *)
Definition or_opt (a b : option string) : option string :=
  match a with
  | Some s => if nonempty s then a else b
  | None => b
  end.

(** Decimal rendering of an integer, as in a template literal. *)
Definition ofZ (z : Z) : string := NilZero.string_of_int (Z.to_int z).

End Str.

(* ===================================================================== *)
(** * utils/oddsIds.ts                                                     *)
(* ===================================================================== *)

(** Built-ins of the language that are used on numbers read from the feed:
    the rendering of a number in a template literal and [Date.parse]. *)
Class JsBuiltins : Type := {
  Number_toString : number -> string;
  Date_parse : string -> number
}.

Module Ids.

(** [x | 0]: wrap to a signed 32-bit integer. *)
Definition to_int32 (z : Z) : Z := (z + 2 ^ 31) mod 2 ^ 32 - 2 ^ 31.

Definition makeSportIdFromKey (sportKey : string) : Z :=
  Z.abs (fold_left (fun h c => to_int32 (h * 31 + Str.code c))
                   (list_ascii_of_string sportKey) 0).

(** [replace(/\s+/g, "-")]: every maximal run of white space becomes one
    hyphen; [in_run] tells that the previous character was white space. *)
Fixpoint hyphenate_from (in_run : bool) (l : list ascii) : list ascii :=
  match l with
  | [] => []
  | c :: r =>
      if Str.is_space c
      then (if in_run then hyphenate_from true r
            else "-"%char :: hyphenate_from true r)
      else c :: hyphenate_from false r
  end.

Definition hyphenate : list ascii -> list ascii := hyphenate_from false.

(** The class [[a-z0-9\-:_]]. *)
Definition slug_char (c : ascii) : bool :=
  Str.is_lower c || Str.is_digit c
  || Ascii.eqb c "-" || Ascii.eqb c ":" || Ascii.eqb c "_".

Definition slug (v : string) : string :=
  Str.on_chars (List.filter slug_char)
    (Str.on_chars hyphenate (Str.trim (Str.toLowerCase v))).

Definition makeTeamId (sportId : Z) (teamName : string) : string :=
  "team:" +:+ Str.ofZ sportId +:+ ":" +:+ slug teamName.

Definition makeSportsbookId (bookKey : string) : string :=
  "book:" +:+ slug bookKey.

Definition makeEventId (externalEventId : string) : string :=
  "evt:" +:+ slug externalEventId.

Definition makeMarketId (eventId bookId marketKey : string) : string :=
  "mkt:" +:+ eventId +:+ ":" +:+ bookId +:+ ":" +:+ slug marketKey.

Definition makeSelectionId `{JsBuiltins}
    (marketId outcomeName : string) (point : option number) : string :=
  let pt := match point with
            | Some p => ":" +:+ Number_toString p
            | None => ""
            end in
  "sel:" +:+ marketId +:+ ":" +:+ slug outcomeName +:+ pt.

Definition makeOddsSnapshotId (batchEpochMs index : Z) : Z :=
  batchEpochMs * 1000 + index.

End Ids.

(* ===================================================================== *)
(** * The odds feed: payload, errors, responses                            *)
(* ===================================================================== *)

(** The payload of the feed, typed after the fields the services read.
    A field that is absent (or [null]) is [None]; [number]-typed fields
    hold the numeric value the services obtain from them. *)
Record OddsOutcome : Type := {
  o_name : option string;
  o_description : option string;
  o_participant : option string;
  o_player : option string;
  o_point : option number;
  o_price : option number;
  o_odds : option number
}.

Record FeedMarket : Type := {
  m_key : option string;
  m_outcomes : option (list OddsOutcome)
}.

Record Bookmaker : Type := {
  b_key : option string;
  b_title : option string;
  b_last_update : option string;
  b_markets : option (list FeedMarket)
}.

Record OddsEvent : Type := {
  e_id : option string;
  e_commence_time : option string;
  e_home_team : option string;
  e_away_team : option string;
  e_bookmakers : option (list Bookmaker)
}.

Record SportInfo : Type := {
  s_key : option string;
  s_title : option string;
  s_group : option string
}.

(** The body of an upstream response. *)
Inductive Payload : Type :=
| PEvents (l : list OddsEvent)
| PEvent (e : OddsEvent)
| PSports (l : list SportInfo)
| PNull.

Definition no_event : OddsEvent :=
  {| e_id := None; e_commence_time := None; e_home_team := None;
     e_away_team := None; e_bookmakers := None |}.

(** [Array.isArray(data) ? data : []], the elements read as events: an
    element that is not an event has none of the fields of one. *)
Definition Payload_events (d : Payload) : list OddsEvent :=
  match d with
  | PEvents l => l
  | PSports l => map (fun _ => no_event) l
  | PEvent _ | PNull => []
  end.

(** [Array.isArray(x) ? x : []] on an optional array field. *)
Definition array_or_empty {A : Type} (x : option (list A)) : list A :=
  match x with Some l => l | None => [] end.

(** A thrown [Error], with the [code] and [status] the services attach. *)
Record JsError : Type := {
  err_message : string;
  err_code : option string;
  err_status : option Z
}.

Record HttpRequest : Type := {
  req_url : string;
  req_params : list (string * string)
}.

(** What [axios.get] settles with: a rejection, or a body together with
    the value of [parseInt(headers["x-requests-remaining"] || "0")]. *)
Inductive HttpReply : Type :=
| Rejected (e : JsError)
| Resolved (data : Payload) (requests_remaining : number).

(** What the methods of the feed client return. *)
Record FeedResult : Type := {
  data : Payload;
  remaining : number;
  warning : option string
}.

Record GetOddsParams : Type := {
  sport : string;
  regions : option (list string);
  markets : option (list string);
  oddsFormat : option string
}.

Record GetEventOddsParams : Type := {
  eo_sport : string;
  eo_eventId : string;
  eo_regions : option (list string);
  eo_markets : option (list string);
  eo_oddsFormat : option string
}.

(** Calls received by the feed client. *)
Inductive FeedCall : Type :=
| CallGetOdds (p : GetOddsParams)
| CallGetSports
| CallGetEvents (sport : string)
| CallGetEventOdds (p : GetEventOddsParams).

(** Plain JSON values, for the bodies the controllers send and for the
    objects the services return. *)
Inductive JsVal : Type :=
| JUndefined
| JNull
| JBool (b : bool)
| JNum (n : number)
| JInt (z : Z)
| JStr (s : string)
| JArr (l : list JsVal)
| JObj (fields : list (string * JsVal)).

(** Property read [o.k]. *)
Fixpoint assoc_get (k : string) (fields : list (string * JsVal)) : JsVal :=
  match fields with
  | [] => JUndefined
  | (k', v) :: r => if String.eqb k k' then v else assoc_get k r
  end.

Definition js_get (k : string) (v : JsVal) : JsVal :=
  match v with JObj fields => assoc_get k fields | _ => JUndefined end.

(* ===================================================================== *)
(** * The document store                                                   *)
(* ===================================================================== *)

(** A document is stored under its [id], the key of the collection; the
    records below hold the other fields of the documents. *)
Record SportRow : Type := {
  sport_name : string;
  sport_key : string
}.

Record TeamRow : Type := {
  team_sport_id : Z;
  team_name : string;
  team_abbreviation : string;
  team_external_ref : string
}.

(** [new Date(x)]: from a date string or from epoch milliseconds. *)
Inductive JsDate : Type :=
| DateOfString (s : string)
| DateOfMillis (ms : Z).

Record SportEventRow : Type := {
  ev_sport_id : Z;
  ev_league_code : string;
  ev_home_team_id : string;
  ev_away_team_id : string;
  ev_starts_at : JsDate;
  ev_status : string;
  ev_external_ref : string
}.

Record SportsbookRow : Type := {
  book_name : string;
  book_code : string;
  book_base_url : string
}.

Record MarketRow : Type := {
  mkt_sport_event_id : string;
  mkt_key : string;
  mkt_label : string;
  mkt_metadata_bookmaker_key : string;
  mkt_metadata_last_update : option string
}.

Record MarketSelectionRow : Type := {
  sel_market_id : string;
  sel_label : string;
  sel_player_id : string;
  sel_line_value : number;
  sel_side : string
}.

Inductive OddsFormat : Type := AMERICAN | DECIMAL.

Record OddsSnapshotRow : Type := {
  snap_sportsbook_id : string;
  snap_selection_id : string;
  snap_odds_format : OddsFormat;
  snap_odds_value : number;
  snap_implied_prob : number;
  snap_fetched_at : Z
}.

(** The archive keeps the fields of the snapshot and adds [archived_at]. *)
Record OddsSnapshotArchiveRow : Type := {
  arch_snapshot : OddsSnapshotRow;
  arch_archived_at : Z
}.

(** One collection per model, keyed by the unique [id] of its documents. *)
Record Store : Type := {
  sports : gmap Z SportRow;
  teams : gmap string TeamRow;
  sportEvents : gmap string SportEventRow;
  sportsbooks : gmap string SportsbookRow;
  marketsTbl : gmap string MarketRow;
  selections : gmap string MarketSelectionRow;
  snapshots : gmap Z OddsSnapshotRow;
  archived : gmap Z OddsSnapshotArchiveRow
}.

Definition empty_store : Store :=
  {| sports := ∅; teams := ∅; sportEvents := ∅; sportsbooks := ∅;
     marketsTbl := ∅; selections := ∅; snapshots := ∅; archived := ∅ |}.

(** The writes the services issue. *)
Inductive StoreOp : Type :=
| SportSetOnInsert (id : Z) (r : SportRow)
| TeamSetOnInsert (id : string) (r : TeamRow)
| SportEventSet (id : string) (r : SportEventRow)
| SportsbookSet (id : string) (r : SportsbookRow)
| MarketSet (id : string) (r : MarketRow)
| MarketSelectionSet (id : string) (r : MarketSelectionRow)
| OddsSnapshotSet (id : Z) (r : OddsSnapshotRow)
| ArchiveInsertMany (docs : list (Z * OddsSnapshotArchiveRow))
| OddsSnapshotDeleteMany (ids : list Z).

(** [updateOne({id}, {$setOnInsert: row}, {upsert: true})]. *)
Definition setOnInsert `{Countable K} {V : Type}
    (k : K) (v : V) (m : gmap K V) : gmap K V :=
  match m !! k with Some _ => m | None => <[k := v]> m end.

(** [insertMany(docs, {ordered: false})] with its rejection swallowed: a
    document is stored unless its id is taken already or the write of it
    is refused; the other documents are not affected. *)
Definition insertMany_unordered (refuses : Z -> bool)
    (docs : list (Z * OddsSnapshotArchiveRow))
    (m : gmap Z OddsSnapshotArchiveRow) : gmap Z OddsSnapshotArchiveRow :=
  fold_left
    (fun acc d =>
       if refuses (fst d) then acc else setOnInsert (fst d) (snd d) acc)
    docs m.

(** [deleteMany({id: {$in: ids}})]. *)
Definition deleteMany (ids : list Z) (m : gmap Z OddsSnapshotRow)
    : gmap Z OddsSnapshotRow :=
  fold_left (fun acc k => delete k acc) ids m.

Definition apply_op (refuses : Z -> bool) (op : StoreOp) (s : Store) : Store :=
  match op with
  | SportSetOnInsert k r =>
      {| sports := setOnInsert k r (sports s); teams := teams s;
         sportEvents := sportEvents s; sportsbooks := sportsbooks s;
         marketsTbl := marketsTbl s; selections := selections s;
         snapshots := snapshots s; archived := archived s |}
  | TeamSetOnInsert k r =>
      {| sports := sports s; teams := setOnInsert k r (teams s);
         sportEvents := sportEvents s; sportsbooks := sportsbooks s;
         marketsTbl := marketsTbl s; selections := selections s;
         snapshots := snapshots s; archived := archived s |}
  | SportEventSet k r =>
      {| sports := sports s; teams := teams s;
         sportEvents := <[k := r]> (sportEvents s); sportsbooks := sportsbooks s;
         marketsTbl := marketsTbl s; selections := selections s;
         snapshots := snapshots s; archived := archived s |}
  | SportsbookSet k r =>
      {| sports := sports s; teams := teams s;
         sportEvents := sportEvents s; sportsbooks := <[k := r]> (sportsbooks s);
         marketsTbl := marketsTbl s; selections := selections s;
         snapshots := snapshots s; archived := archived s |}
  | MarketSet k r =>
      {| sports := sports s; teams := teams s;
         sportEvents := sportEvents s; sportsbooks := sportsbooks s;
         marketsTbl := <[k := r]> (marketsTbl s); selections := selections s;
         snapshots := snapshots s; archived := archived s |}
  | MarketSelectionSet k r =>
      {| sports := sports s; teams := teams s;
         sportEvents := sportEvents s; sportsbooks := sportsbooks s;
         marketsTbl := marketsTbl s; selections := <[k := r]> (selections s);
         snapshots := snapshots s; archived := archived s |}
  | OddsSnapshotSet k r =>
      {| sports := sports s; teams := teams s;
         sportEvents := sportEvents s; sportsbooks := sportsbooks s;
         marketsTbl := marketsTbl s; selections := selections s;
         snapshots := <[k := r]> (snapshots s); archived := archived s |}
  | ArchiveInsertMany docs =>
      {| sports := sports s; teams := teams s;
         sportEvents := sportEvents s; sportsbooks := sportsbooks s;
         marketsTbl := marketsTbl s; selections := selections s;
         snapshots := snapshots s;
         archived := insertMany_unordered refuses docs (archived s) |}
  | OddsSnapshotDeleteMany ids =>
      {| sports := sports s; teams := teams s;
         sportEvents := sportEvents s; sportsbooks := sportsbooks s;
         marketsTbl := marketsTbl s; selections := selections s;
         snapshots := deleteMany ids (snapshots s); archived := archived s |}
  end.

Definition apply_ops (refuses : Z -> bool) (ops : list StoreOp) (s : Store) : Store :=
  fold_left (fun acc op => apply_op refuses op acc) ops s.

(* ===================================================================== *)
(** * The world and the monad of the services                              *)
(* ===================================================================== *)

Inductive LogLevel : Type := LogWarn | LogError.

(** What a run cannot change: the process environment, the upstream
    provider, the readings of the clock, the writes the archive refuses. *)
Record Env : Type := {
  ODDS_API_KEY : option string;
  ODDS_API_BASE_URL : option string;
  upstream : HttpRequest -> HttpReply;
  clock : nat -> Z;
  archive_refuses : Z -> bool
}.

Record World : Type := {
  env : Env;
  clock_reads : nat;
  feed_calls : list FeedCall;
  http_calls : list HttpRequest;
  logs : list (LogLevel * string);
  store : Store;
  store_ops : list StoreOp
}.

Inductive Outcome (A : Type) : Type :=
| Returned (a : A)
| Thrown (e : JsError).
Arguments Returned {A} a.
Arguments Thrown {A} e.

(** The value of a normal completion. *)
Definition returned {A : Type} (o : Outcome A) : option A :=
  match o with Returned a => Some a | Thrown _ => None end.

Definition M (A : Type) : Type := World -> Outcome A * World.

Definition ret {A : Type} (a : A) : M A := fun w => (Returned a, w).

Definition bind {A B : Type} (m : M A) (k : A -> M B) : M B :=
  fun w =>
    match m w with
    | (Returned a, w') => k a w'
    | (Thrown e, w') => (Thrown e, w')
    end.

Definition throw {A : Type} (e : JsError) : M A := fun w => (Thrown e, w).

Definition try_catch {A : Type} (m : M A) (handler : JsError -> M A) : M A :=
  fun w =>
    match m w with
    | (Returned a, w') => (Returned a, w')
    | (Thrown e, w') => handler e w'
    end.

Notation "'let*' x ':=' m 'in' k" := (bind m (fun x => k))
  (at level 10, x name, m at level 100, k at level 200).

(** A [for ... of] loop that threads a local variable. *)
Fixpoint for_of {A S : Type} (body : S -> A -> M S) (s : S) (l : list A) : M S :=
  match l with
  | [] => ret s
  | x :: r => let* s' := body s x in for_of body s' r
  end.

Definition ask : M Env := fun w => (Returned (env w), w).

(** The world after [n] further readings of the clock. *)
Definition tick (n : nat) (w : World) : World :=
  {| env := env w; clock_reads := (n + clock_reads w)%nat;
     feed_calls := feed_calls w; http_calls := http_calls w;
     logs := logs w; store := store w; store_ops := store_ops w |}.

(** [Date.now()]: the next reading of the clock. *)
Definition Date_now : M Z :=
  fun w => (Returned (clock (env w) (clock_reads w)), tick 1 w).

Definition logger (lvl : LogLevel) (msg : string) : M unit :=
  fun w =>
    (Returned tt,
     {| env := env w; clock_reads := clock_reads w;
        feed_calls := feed_calls w; http_calls := http_calls w;
        logs := logs w ++ [(lvl, msg)]; store := store w;
        store_ops := store_ops w |}).

Definition called (c : FeedCall) : M unit :=
  fun w =>
    (Returned tt,
     {| env := env w; clock_reads := clock_reads w;
        feed_calls := feed_calls w ++ [c]; http_calls := http_calls w;
        logs := logs w; store := store w; store_ops := store_ops w |}).

(** [axios.get(url, {params})]. *)
Definition axios_get (r : HttpRequest) : M (Payload * number) :=
  fun w =>
    let w' := {| env := env w; clock_reads := clock_reads w;
                 feed_calls := feed_calls w; http_calls := http_calls w ++ [r];
                 logs := logs w; store := store w; store_ops := store_ops w |} in
    match upstream (env w) r with
    | Rejected e => (Thrown e, w')
    | Resolved d n => (Returned (d, n), w')
    end.

(** A write to the store, recorded in the trace of writes. *)
Definition store_write (op : StoreOp) : M unit :=
  fun w =>
    (Returned tt,
     {| env := env w; clock_reads := clock_reads w;
        feed_calls := feed_calls w; http_calls := http_calls w;
        logs := logs w;
        store := apply_op (archive_refuses (env w)) op (store w);
        store_ops := store_ops w ++ [op] |}).

Definition read_store : M Store := fun w => (Returned (store w), w).

(* ===================================================================== *)
(** * OddsApiService: the feed client                                      *)
(* ===================================================================== *)

Module OddsApiService.

Definition baseUrl (e : Env) : string :=
  Str.or_else (ODDS_API_BASE_URL e) "https://api.the-odds-api.com/v4".

(** [(process.env.ODDS_API_KEY || "").trim()]. *)
Definition apiKeyOf (e : Env) : string :=
  Str.trim (Str.or_else (ODDS_API_KEY e) "").

Definition getApikey : M string :=
  let* e := ask in ret (apiKeyOf e).

(** The Odds API uses player_* naming for player prop markets. *)
Definition isPlayerPropMarket (market : string) : bool :=
  Str.startsWith "player_" (Str.toLowerCase market).

Definition NOT_CONFIGURED : string := "ODDS_API_KEY not configured".

(** [{ data: [], remaining: 0, warning: "ODDS_API_KEY not configured" }] *)
Definition not_configured (d : Payload) : FeedResult :=
  {| data := d; remaining := Fin 0; warning := Some NOT_CONFIGURED |}.

Definition INVALID_MARKET : JsError :=
  {| err_message :=
       "INVALID_MARKET: Player prop markets are not supported on /odds. Use /events/{eventId}/odds instead.";
     err_code := Some "INVALID_MARKET";
     err_status := Some 422 |}.

(** [catch (error) { logger.error(what, error); throw error; }] *)
Definition log_and_rethrow {A : Type} (what : string) (error : JsError) : M A :=
  let* _ := logger LogError (what +:+ " " +:+ err_message error) in
  throw error.

Definition getOdds (params : GetOddsParams) : M FeedResult :=
  let* _ := called (CallGetOdds params) in
  let* key := getApikey in
  if negb (Str.nonempty key) then ret (not_configured (PEvents []))
  else
    try_catch
      (let regions := default ["us"] (regions params) in
       let markets := default ["h2h"; "spreads"; "totals"] (markets params) in
       let oddsFormat := default "american" (oddsFormat params) in
       if existsb isPlayerPropMarket markets then throw INVALID_MARKET
       else
         let* e := ask in
         let* apiKey := getApikey in
         let* response :=
           axios_get
             {| req_url := baseUrl e +:+ "/sports/" +:+ sport params +:+ "/odds";
                req_params := [("apiKey", apiKey);
                               ("regions", Str.join "," regions);
                               ("markets", Str.join "," markets);
                               ("oddsFormat", oddsFormat)] |} in
         ret {| data := fst response; remaining := snd response;
                warning := None |})
      (log_and_rethrow "Error fetching odds:").

Definition getSports : M FeedResult :=
  let* _ := called CallGetSports in
  let* key := getApikey in
  if negb (Str.nonempty key) then ret (not_configured (PEvents []))
  else
    try_catch
      (let* e := ask in
       let* apiKey := getApikey in
       let* response :=
         axios_get {| req_url := baseUrl e +:+ "/sports";
                      req_params := [("apiKey", apiKey)] |} in
       ret {| data := fst response; remaining := snd response;
              warning := None |})
      (log_and_rethrow "Error fetching sports:").

Definition TypeError (msg : string) : JsError :=
  {| err_message := msg; err_code := None; err_status := None |}.

(** [(sports as any[]).find((s) => s.key === sportKey) || null] with its
    [catch] that logs and answers [null]. *)
Definition getSportByKey (sportKey : string) : M (option SportInfo) :=
  try_catch
    (let* res := getSports in
     match data res with
     | PSports l =>
         ret (List.find
                (fun s => match s_key s with
                          | Some k => String.eqb k sportKey
                          | None => false
                          end) l)
     | PEvents _ => ret None
     | PEvent _ | PNull => throw (TypeError "sports.find is not a function")
     end)
    (fun error =>
       let* _ := logger LogError
                   ("Error getting sport by key: " +:+ err_message error) in
       ret None).

Definition getEvents (sport : string) : M FeedResult :=
  let* _ := called (CallGetEvents sport) in
  let* key := getApikey in
  if negb (Str.nonempty key) then ret (not_configured (PEvents []))
  else
    try_catch
      (let* e := ask in
       let* apiKey := getApikey in
       let* response :=
         axios_get {| req_url := baseUrl e +:+ "/sports/" +:+ sport +:+ "/events";
                      req_params := [("apiKey", apiKey)] |} in
       ret {| data := fst response; remaining := snd response;
              warning := None |})
      (log_and_rethrow "Error fetching events:").

Definition getEventOdds (params : GetEventOddsParams) : M FeedResult :=
  let* _ := called (CallGetEventOdds params) in
  let* key := getApikey in
  if negb (Str.nonempty key) then ret (not_configured PNull)
  else
    try_catch
      (let regions := default ["us"] (eo_regions params) in
       let markets := default ["h2h"] (eo_markets params) in
       let oddsFormat := default "american" (eo_oddsFormat params) in
       let* e := ask in
       let* apiKey := getApikey in
       let* response :=
         axios_get
           {| req_url := baseUrl e +:+ "/sports/" +:+ eo_sport params
                         +:+ "/events/" +:+ eo_eventId params +:+ "/odds";
              req_params := [("apiKey", apiKey);
                             ("regions", Str.join "," regions);
                             ("markets", Str.join "," markets);
                             ("oddsFormat", oddsFormat)] |} in
       ret {| data := fst response; remaining := snd response;
              warning := None |})
      (log_and_rethrow "Error fetching event odds:").

End OddsApiService.

(** [if (warning)]: a warning that is present and not the empty string. *)
Definition truthy (s : option string) : option string :=
  match s with
  | Some x => if Str.nonempty x then Some x else None
  | None => None
  end.

(* ===================================================================== *)
(** * OddsIngestionService                                                 *)
(* ===================================================================== *)

Module OddsIngestionService.

Record RefreshParams : Type := {
  sportKey : string;
  rp_regions : option (list string);
  rp_markets : option (list string);
  rp_oddsFormat : option string
}.

Record RefreshResult : Type := {
  ingestedSnapshots : Z;
  rr_remaining : number
}.

(** The object literal [{ ingestedSnapshots, remaining }] that is returned. *)
Definition RefreshResult_object (r : RefreshResult) : JsVal :=
  JObj [("ingestedSnapshots", JInt (ingestedSnapshots r));
        ("remaining", JNum (rr_remaining r))].

Section Ingest.
Context `{JsBuiltins}.
Variables (sportKey_ : string) (sportId : Z) (oddsFormat_ : option string)
          (batchEpochMs : Z).

Definition teamRow (name : string) : TeamRow :=
  {| team_sport_id := sportId; team_name := name;
     team_abbreviation :=
       Str.or_else (Some (Str.toUpperCase (Str.slice0 3 name))) "UNK";
     team_external_ref := name |}.

(** The body of [for (const out of outcomes)]. *)
Definition ingestOutcome (bookId marketId : string)
    (snapshotIndex : Z) (out : OddsOutcome) : M Z :=
  let outcomeName :=
    Str.or_else (Str.or_opt (o_name out) (o_description out)) "outcome" in
  let point := o_point out in
  let price :=
    match o_price out with
    | Some p => p
    | None => default (Fin 0) (o_odds out)
    end in
  let selectionId := Ids.makeSelectionId marketId outcomeName point in
  let* _ := store_write
    (MarketSelectionSet selectionId
       {| sel_market_id := marketId;
          sel_label := outcomeName; sel_player_id := "";
          sel_line_value := default (Fin 0) point;
          sel_side := outcomeName |}) in
  let '(fmt, implied) :=
    if String.eqb (Str.or_else oddsFormat_ "american") "decimal"
    then (DECIMAL, Odds.decimalToImpliedProb price)
    else (AMERICAN, Odds.americanToImpliedProb price) in
  let snapshotId := Ids.makeOddsSnapshotId batchEpochMs snapshotIndex in
  let* _ := store_write
    (OddsSnapshotSet snapshotId
       {| snap_sportsbook_id := bookId;
          snap_selection_id := selectionId; snap_odds_format := fmt;
          snap_odds_value := price; snap_implied_prob := implied;
          snap_fetched_at := batchEpochMs |}) in
  ret (snapshotIndex + 1).

(** The body of [for (const mk of marketsArr)]. *)
Definition ingestMarket (eventId bookId bookKey : string)
    (last_update : option string)
    (snapshotIndex : Z) (mk : FeedMarket) : M Z :=
  let marketKey := Str.or_else (m_key mk) "" in
  let marketId := Ids.makeMarketId eventId bookId marketKey in
  let* _ := store_write
    (MarketSet marketId
       {| mkt_sport_event_id := eventId;
          mkt_key := marketKey; mkt_label := marketKey;
          mkt_metadata_bookmaker_key := bookKey;
          mkt_metadata_last_update := last_update |}) in
  for_of (ingestOutcome bookId marketId) snapshotIndex
         (array_or_empty (m_outcomes mk)).

(** The body of [for (const bm of bookmakers)]. *)
Definition ingestBookmaker (eventId : string)
    (snapshotIndex : Z) (bm : Bookmaker) : M Z :=
  let bookKey := Str.or_else (Str.or_opt (b_key bm) (b_title bm)) "unknown" in
  let bookId := Ids.makeSportsbookId bookKey in
  let* _ := store_write
    (SportsbookSet bookId
       {| book_name := Str.or_else (b_title bm) bookKey;
          book_code := bookKey; book_base_url := "" |}) in
  for_of (ingestMarket eventId bookId bookKey (b_last_update bm))
         snapshotIndex (array_or_empty (b_markets bm)).

(** The body of [for (const evt of events)]. *)
Definition ingestEvent (snapshotIndex : Z) (evt : OddsEvent) : M Z :=
  let externalEventId := Str.or_else (e_id evt) "" in
  let eventId := Ids.makeEventId externalEventId in
  let homeName := Str.or_else (e_home_team evt) "" in
  let awayName := Str.or_else (e_away_team evt) "" in
  let homeId := Ids.makeTeamId sportId homeName in
  let awayId := Ids.makeTeamId sportId awayName in
  let* _ := store_write (TeamSetOnInsert homeId (teamRow homeName)) in
  let* _ := store_write (TeamSetOnInsert awayId (teamRow awayName)) in
  let* starts_at :=
    match truthy (e_commence_time evt) with
    | Some t => ret (DateOfString t)
    | None => let* now := Date_now in ret (DateOfMillis now)
    end in
  let* _ := store_write
    (SportEventSet eventId
       {| ev_sport_id := sportId;
          ev_league_code := sportKey_; ev_home_team_id := homeId;
          ev_away_team_id := awayId; ev_starts_at := starts_at;
          ev_status := "scheduled"; ev_external_ref := externalEventId |}) in
  for_of (ingestBookmaker eventId) snapshotIndex
         (array_or_empty (e_bookmakers evt)).

End Ingest.

(** Ingest odds for a sport + set of markets. *)
Definition refreshOdds `{JsBuiltins} (params : RefreshParams) : M RefreshResult :=
  let* batchEpochMs := Date_now in
  let sportId := Ids.makeSportIdFromKey (sportKey params) in
  let* _ := store_write
    (SportSetOnInsert sportId
       {| sport_name := sportKey params;
          sport_key := sportKey params |}) in
  let* res := OddsApiService.getOdds
    {| sport := sportKey params; regions := rp_regions params;
       markets := rp_markets params; oddsFormat := rp_oddsFormat params |} in
  match truthy (warning res) with
  | Some warning =>
      let* _ := logger LogWarn ("Odds ingestion skipped: " +:+ warning) in
      ret {| ingestedSnapshots := 0; rr_remaining := remaining res |}
  | None =>
      let events := Payload_events (data res) in
      let* snapshotIndex :=
        for_of (ingestEvent (sportKey params) sportId (rp_oddsFormat params)
                            batchEpochMs)
               0 events in
      ret {| ingestedSnapshots := snapshotIndex;
             rr_remaining := remaining res |}
  end.

Definition DAY_MS : Z := 24 * 60 * 60 * 1000.

(** [OddsSnapshot.find({ fetched_at: { $lt: cutoff } })]. *)
Definition find_older (cutoff : Z) (s : Store) : list (Z * OddsSnapshotRow) :=
  map_to_list (filter (fun o => snap_fetched_at (snd o) < cutoff)
                      (snapshots s)).

(** Archive snapshots older than N days (copy to the archive, then delete
    from hot). *)
Definition archiveOldSnapshots (daysOld : Z) : M Z :=
  let* now := Date_now in
  let cutoff := now - daysOld * DAY_MS in
  let* s := read_store in
  let old := find_older cutoff s in
  match old with
  | [] => ret 0
  | _ :: _ =>
      let* docs :=
        for_of (fun acc o =>
                  let* at_ := Date_now in
                  ret (acc ++ [(fst o, {| arch_snapshot := snd o;
                                          arch_archived_at := at_ |})]))
               [] old in
      let* _ := store_write (ArchiveInsertMany docs) in
      let ids := map fst old in
      let* _ := store_write (OddsSnapshotDeleteMany ids) in
      ret (Z.of_nat (length old))
  end.

Record Status : Type := {
  st_snapshots : Z;
  st_lastFetchedAt : option Z;
  st_archived : Z
}.

Definition status : M Status :=
  let* s := read_store in
  let fetched := map (fun kv => snap_fetched_at (snd kv))
                     (map_to_list (snapshots s)) in
  ret {| st_snapshots := Z.of_nat (size (snapshots s));
         st_lastFetchedAt :=
           match fetched with
           | [] => None
           | t :: r => Some (fold_left Z.max r t)
           end;
         st_archived := Z.of_nat (size (archived s)) |}.

End OddsIngestionService.

(* ===================================================================== *)
(** * Sorting and plain objects                                            *)
(* ===================================================================== *)

(** [Array.prototype.sort] is stable; for a comparator that is a strict
    weak order the result is the one of any stable sort.  [before x y]
    says that the comparator is negative on [(x, y)]. *)
Section StableSort.
Context {A : Type} (before : A -> A -> bool).

Fixpoint insert_sorted (x : A) (l : list A) : list A :=
  match l with
  | [] => [x]
  | y :: r => if before y x then y :: insert_sorted x r else x :: y :: r
  end.

Definition stable_sort (l : list A) : list A :=
  fold_right insert_sorted [] l.
End StableSort.

(** A plain object used as a dictionary: the own string keys in the order
    of their creation.  [Object.keys] lists the keys that are array
    indices first, in ascending order, then the other keys in the order of
    creation; an assignment to [__proto__] creates no own key. *)
Module Obj.

Definition t (V : Type) : Type := list (string * V).

Fixpoint get {V : Type} (k : string) (o : t V) : option V :=
  match o with
  | [] => None
  | (k', v) :: r => if String.eqb k k' then Some v else get k r
  end.

Fixpoint set {V : Type} (k : string) (v : V) (o : t V) : t V :=
  match o with
  | [] => [(k, v)]
  | (k', v') :: r =>
      if String.eqb k k' then (k, v) :: r else (k', v') :: set k v r
  end.

Definition index_value (k : string) : Z :=
  fold_left (fun acc c => acc * 10 + (Str.code c - 48))
            (list_ascii_of_string k) 0.

(** A canonical numeric string below 2^32 - 1. *)
Definition is_index (k : string) : bool :=
  match list_ascii_of_string k with
  | [] => false
  | c :: r =>
      forallb Str.is_digit (c :: r)
      && (negb (Ascii.eqb c "0") || match r with [] => true | _ => false end)
      && (index_value k <? 2 ^ 32 - 1)
  end.

Definition keys {V : Type} (o : t V) : list string :=
  let own := List.filter (fun k => negb (String.eqb k "__proto__")) (map fst o) in
  stable_sort (fun a b => index_value a <? index_value b)
              (List.filter is_index own)
  ++ List.filter (fun k => negb (is_index k)) own.

End Obj.

(** [Math.max(lo, Math.min(hi, x))]. *)
Definition clamp (lo hi x : Z) : Z := Z.max lo (Z.min hi x).

(** [xs.slice(0, n)] for a non-negative [n]. *)
Definition slice0 {A : Type} (n : Z) (xs : list A) : list A :=
  firstn (Z.to_nat n) xs.

(* ===================================================================== *)
(** * ArbitrageService                                                     *)
(* ===================================================================== *)

Module ArbitrageService.

Record ArbitrageLeg : Type := {
  outcome : string;
  bestBookmaker : option string;
  bestPrice : option number;
  decimalOdds : option Q;
  impliedProbability : option Q
}.

Record ArbitrageOpportunity : Type := {
  eventId : option string;
  commenceTime : option string;
  homeTeam : option string;
  awayTeam : option string;
  sportKey : string;
  market : string;
  impliedSum : Q;
  edgePercent : Q;
  legs : list ArbitrageLeg
}.

Record ArbitrageResult : Type := {
  ar_data : list ArbitrageOpportunity;
  ar_remaining : number;
  ar_warning : option string
}.

Record ArbitrageParams : Type := {
  ap_sport : string;
  ap_market : string;
  ap_regions : option (list string);
  ap_oddsFormat : option string;
  ap_top : option Z
}.

Record BestEntry : Type := {
  bookmaker : option string;
  price : option number
}.

Definition UNSUPPORTED_MARKET (market : string) : JsError :=
  {| err_message :=
       "UNSUPPORTED_MARKET: arbitrage currently supports market=h2h only (received: "
       +:+ market +:+ ")";
     err_code := Some "UNSUPPORTED_MARKET";
     err_status := Some 422 |}.

(** [markets.find((m) => m?.key === market)]. *)
Definition find_market (market : string) (ms : list FeedMarket) : option FeedMarket :=
  List.find (fun m => match m_key m with
                      | Some k => String.eqb k market
                      | None => false
                      end) ms.

(** The body of [for (const o of outcomes)]. *)
Definition bestOutcome (bookmakerKey : option string)
    (best : Obj.t BestEntry) (o : OddsOutcome) : Obj.t BestEntry :=
  let outcomeName := Str.trim (Str.or_else (o_name o) "") in
  match o_price o with
  | Some (Fin p) =>
      if negb (Str.nonempty outcomeName) then best
      else
        match Obj.get outcomeName best with
        | Some existing =>
            if num_ltb (default NegInf (price existing)) (Fin p)
            then Obj.set outcomeName
                   {| bookmaker := bookmakerKey; price := Some (Fin p) |} best
            else best
        | None =>
            Obj.set outcomeName
              {| bookmaker := bookmakerKey; price := Some (Fin p) |} best
        end
  | _ => best
  end.

(** The body of [for (const bm of bookmakers)]. *)
Definition bestBookmakerStep (market : string)
    (best : Obj.t BestEntry) (bm : Bookmaker) : Obj.t BestEntry :=
  match find_market market (array_or_empty (b_markets bm)) with
  | None => best
  | Some marketObj =>
      fold_left (bestOutcome (b_key bm)) (array_or_empty (m_outcomes marketObj)) best
  end.

(** BEST per team. *)
Definition bestPrices (market : string) (ev : OddsEvent) : Obj.t BestEntry :=
  fold_left (bestBookmakerStep market) (array_or_empty (e_bookmakers ev)) [].

Definition makeLeg (best : Obj.t BestEntry) (name : string) : ArbitrageLeg :=
  let entry := Obj.get name best in
  let price := entry ≫= price in
  let dec := match price with
             | Some p => Odds.americanToDecimal p
             | None => NaN
             end in
  let implied := match dec with
                 | Fin d => if Qlt_bool 0 d then Fin (1 / d) else NaN
                 | _ => NaN
                 end in
  {| outcome := name;
     bestBookmaker := entry ≫= bookmaker;
     bestPrice := price;
     decimalOdds := finite_or_null dec;
     impliedProbability := finite_or_null implied |}.

Definition sumImplied (legs : list ArbitrageLeg) : Q :=
  fold_left (fun acc l => (acc + default 0 (impliedProbability l))%Q) legs 0%Q.

(** The body of [for (const ev of events)]: the opportunity the event
    contributes, if any.  Every sum of rationals is finite. *)
Definition opportunityOf (sport market : string) (ev : OddsEvent)
    : option ArbitrageOpportunity :=
  let best := bestPrices market ev in
  let outcomes := Obj.keys best in
  if negb (length outcomes =? 2)%nat then None
  else
    let legs := map (makeLeg best) outcomes in
    let impliedSum := sumImplied legs in
    if Qle_bool impliedSum 0 then None
    else if Qlt_bool impliedSum 1 then
      Some {| eventId := e_id ev; commenceTime := e_commence_time ev;
              homeTeam := e_home_team ev; awayTeam := e_away_team ev;
              sportKey := sport; market := market;
              impliedSum := impliedSum;
              edgePercent := (1 / impliedSum - 1) * 100;
              legs := legs |}
    else None.

(** [(a, b) => b.edgePercent - a.edgePercent] is negative. *)
Definition higher_edge (a b : ArbitrageOpportunity) : bool :=
  Qlt_bool (edgePercent b) (edgePercent a).

(** Detect simple 2-way arbitrage on market=h2h. *)
Definition getArbitrage (params : ArbitrageParams) : M ArbitrageResult :=
  let sport := ap_sport params in
  let market := ap_market params in
  let regions := default ["us"] (ap_regions params) in
  let oddsFormat := default "american" (ap_oddsFormat params) in
  let top := default 50 (ap_top params) in
  if negb (String.eqb market "h2h") then throw (UNSUPPORTED_MARKET market)
  else
    let* oddsRes := OddsApiService.getOdds
      {| sport := sport; regions := Some regions; markets := Some [market];
         oddsFormat := Some oddsFormat |} in
    match truthy (warning oddsRes) with
    | Some w =>
        ret {| ar_data := []; ar_remaining := remaining oddsRes;
               ar_warning := Some w |}
    | None =>
        let events := Payload_events (data oddsRes) in
        let out := omap (opportunityOf sport market) events in
        let sorted := stable_sort higher_edge out in
        let limit := clamp 1 200 top in
        ret {| ar_data := slice0 limit sorted;
               ar_remaining := remaining oddsRes;
               ar_warning := None |}
    end.

End ArbitrageService.

(* ===================================================================== *)
(** * CheatSheetService                                                    *)
(* ===================================================================== *)

Module CheatSheetService.

Record CheatSheetOutcome : Type := {
  eventId : option string;
  commenceTime : option string;
  homeTeam : option string;
  awayTeam : option string;
  sportKey : string;
  player : string;
  side : string;
  line : option Q;
  bestBookmaker : option string;
  bestPrice : option Q;
  impliedProbability : option Q
}.

Record CheatSheetResult : Type := {
  cs_data : list CheatSheetOutcome;
  cs_remaining : number;
  cs_warning : option string
}.

Record CheatSheetParams : Type := {
  cp_sport : string;
  cp_market : string;
  cp_regions : option (list string);
  cp_oddsFormat : option string;
  cp_top : option Z
}.

(** Negative: -110 => 110 / (110 + 100); positive: +120 => 100 / (120 + 100). *)
Definition americanToImpliedProb (price : number) : number :=
  match price with
  | Fin p =>
      if Qeq_bool p 0 then NaN
      else if Qlt_bool p 0 then Fin (Qabs p / (Qabs p + 100))
      else Fin (100 / (p + 100))
  | _ => NaN
  end.

(** A [Map]: the keys in the order of their first [set]. *)
Definition BestMap : Type := list (string * CheatSheetOutcome).

Fixpoint Map_get (k : string) (m : BestMap) : option CheatSheetOutcome :=
  match m with
  | [] => None
  | (k', v) :: r => if String.eqb k k' then Some v else Map_get k r
  end.

Fixpoint Map_set (k : string) (v : CheatSheetOutcome) (m : BestMap) : BestMap :=
  match m with
  | [] => [(k, v)]
  | (k', v') :: r =>
      if String.eqb k k' then (k, v) :: r else (k', v') :: Map_set k v r
  end.

Section Build.
Context `{JsBuiltins}.
Variables (sport market : string).

Definition isPlayerProp : bool :=
  Str.startsWith "player_" (Str.toLowerCase market).

(** The fields of the event that every row of it carries. *)
Definition playerOf (o : OddsOutcome) : string :=
  let outcomeName := Str.trim (default "" (o_name o)) in
  let participant :=
    Str.trim (Str.or_else
                (Str.or_opt (o_description o)
                   (Str.or_opt (o_participant o) (o_player o))) "") in
  if isPlayerProp then participant
  else if Str.nonempty outcomeName then outcomeName else participant.

Definition sideOf (o : OddsOutcome) : string :=
  if isPlayerProp then Str.trim (default "" (o_name o)) else market.

Definition keyOf (ev : OddsEvent) (o : OddsOutcome) : string :=
  default "undefined" (e_id ev) +:+ "|" +:+ playerOf o +:+ "|" +:+ sideOf o
  +:+ "|" +:+ match o_point o with
              | Some l => Number_toString l
              | None => "null"
              end.

Definition candidateOf (ev : OddsEvent) (bookmakerKey : option string)
    (o : OddsOutcome) : CheatSheetOutcome :=
  let implied :=
    match o_price o with
    | Some (Fin p) => Some (americanToImpliedProb (Fin p))
    | _ => None
    end in
  {| eventId := e_id ev; commenceTime := e_commence_time ev;
     homeTeam := e_home_team ev; awayTeam := e_away_team ev;
     sportKey := sport;
     player := playerOf o; side := sideOf o;
     line := o_point o ≫= finite_or_null;
     bestBookmaker := bookmakerKey;
     bestPrice := o_price o ≫= finite_or_null;
     impliedProbability := implied ≫= finite_or_null |}.

(** choose best price for the bettor: higher American odds is better payout *)
Definition choose (key : string) (candidate : CheatSheetOutcome)
    (bestMap : BestMap) : BestMap :=
  match Map_get key bestMap with
  | None => Map_set key candidate bestMap
  | Some existing =>
      match bestPrice existing, bestPrice candidate with
      | None, Some _ => Map_set key candidate bestMap
      | Some existingPrice, Some candPrice =>
          if Qlt_bool existingPrice candPrice
          then Map_set key candidate bestMap
          else bestMap
      | _, None => bestMap
      end
  end.

(** The body of [for (const o of outcomes)]. *)
Definition addOutcome (ev : OddsEvent) (bookmakerKey : option string)
    (bestMap : BestMap) (o : OddsOutcome) : BestMap :=
  if negb (Str.nonempty (playerOf o)) || negb (Str.nonempty (sideOf o))
  then bestMap
  else choose (keyOf ev o) (candidateOf ev bookmakerKey o) bestMap.

(** The body of [for (const bm of bookmakers)]. *)
Definition addBookmaker (ev : OddsEvent)
    (bestMap : BestMap) (bm : Bookmaker) : BestMap :=
  match ArbitrageService.find_market market (array_or_empty (b_markets bm)) with
  | None => bestMap
  | Some marketObj =>
      fold_left (addOutcome ev (b_key bm))
                (array_or_empty (m_outcomes marketObj)) bestMap
  end.

(** The body of [for (const ev of events)]. *)
Definition addEvent (bestMap : BestMap) (ev : OddsEvent) : BestMap :=
  fold_left (addBookmaker ev) (array_or_empty (e_bookmakers ev)) bestMap.

Definition buildBestMap (events : list OddsEvent) : BestMap :=
  fold_left addEvent events [].

(** The comparator of the final sort is negative on [(a, b)]. *)
Definition spicier (a b : CheatSheetOutcome) : bool :=
  let time r := match truthy (commenceTime r) with
                | Some t => Date_parse t
                | None => Fin 0
                end in
  let ta := time a in
  let tb := time b in
  if num_strict_ne ta tb then num_ltb (num_sub ta tb) (Fin 0)
  else Qlt_bool (default 1%Q (impliedProbability a))
                (default 1%Q (impliedProbability b)).

(** The per-event fetch of the player-prop branch. *)
Definition fetchEventOdds (regions : list string) (oddsFormat : string)
    (acc : number * list OddsEvent) (ev : OddsEvent)
    : M (number * list OddsEvent) :=
  match truthy (e_id ev) with
  | None => ret acc
  | Some eventId =>
      let* evOddsRes := OddsApiService.getEventOdds
        {| eo_sport := sport; eo_eventId := eventId;
           eo_regions := Some regions; eo_markets := Some [market];
           eo_oddsFormat := Some oddsFormat |} in
      let remaining := remaining evOddsRes in
      match data evOddsRes with
      | PEvent e => ret (remaining, snd acc ++ [e])
      | PEvents _ | PSports _ => ret (remaining, snd acc ++ [no_event])
      | PNull => ret (remaining, snd acc)
      end
  end.

End Build.

(** Build a simple "Cheat Sheet" by selecting the best price across all
    bookmakers for each (player, side, line). *)
Definition getPlayerPropsCheatSheet `{JsBuiltins}
    (params : CheatSheetParams) : M CheatSheetResult :=
  let sport := cp_sport params in
  let market := cp_market params in
  let regions := default ["us"] (cp_regions params) in
  let oddsFormat := default "american" (cp_oddsFormat params) in
  let top := default 50 (cp_top params) in
  let finish (remaining : number) (events : list OddsEvent) : M CheatSheetResult :=
    let rows := map snd (buildBestMap sport market events) in
    let sorted := stable_sort spicier rows in
    ret {| cs_data := slice0 (clamp 1 500 top) sorted;
           cs_remaining := remaining; cs_warning := None |} in
  if negb (isPlayerProp market) then
    let* oddsRes := OddsApiService.getOdds
      {| sport := sport; regions := Some regions; markets := Some [market];
         oddsFormat := Some oddsFormat |} in
    match truthy (warning oddsRes) with
    | Some w =>
        ret {| cs_data := []; cs_remaining := remaining oddsRes;
               cs_warning := Some w |}
    | None => finish (remaining oddsRes) (Payload_events (data oddsRes))
    end
  else
    let* eventsRes := OddsApiService.getEvents sport in
    match truthy (warning eventsRes) with
    | Some w =>
        ret {| cs_data := []; cs_remaining := remaining eventsRes;
               cs_warning := Some w |}
    | None =>
        let evs := Payload_events (data eventsRes) in
        let selected := firstn 10 evs in
        let* fetched :=
          for_of (fetchEventOdds sport market regions oddsFormat)
                 (remaining eventsRes, []) selected in
        finish (fst fetched) (snd fetched)
    end.

End CheatSheetService.

(* ===================================================================== *)
(** * sportsToolsController                                                 *)
(* ===================================================================== *)

(** Modelled from the spec: [PositiveEVService.findPositiveEVBets] is not
    among the sources.  The specification describes it as a read-only
    computation on a fetched odds payload that emits the candidate bets
    annotated with sport title and sport group; it is kept abstract. *)
Class PositiveEVService : Type := {
  findPositiveEVBets : Payload -> string -> string -> string -> list JsVal
}.

Module SportsToolsController.

(** [req.query]. *)
Record Query : Type := {
  q_sport : option string;
  q_region : option string;
  q_markets : option string;
  q_oddsFormat : option string
}.

(** What [res.status(..).json(..)] sends. *)
Record Response : Type := {
  res_status : Z;
  res_body : JsVal
}.

(** [s.split(",").map((s) => s.trim()).filter(Boolean)]. *)
Definition csv (s : string) : list string :=
  List.filter Str.nonempty (map Str.trim (Str.split_comma s)).

Definition getPositiveEV `{PositiveEVService} (q : Query) : M Response :=
  try_catch
    (let sportKey := Str.or_else (q_sport q) "basketball_nba" in
     let region := Str.or_else (q_region q) "us" in
     let markets := Str.or_else (q_markets q) "h2h,spreads,totals" in
     let oddsFormat := Str.or_else (q_oddsFormat q) "american" in
     let* sport := OddsApiService.getSportByKey sportKey in
     let* oddsResp := OddsApiService.getOdds
       {| sport := sportKey; regions := Some (csv region);
          markets := Some (csv markets); oddsFormat := Some oddsFormat |} in
     let title := Str.or_else (sport ≫= s_title) sportKey in
     let group := Str.or_else (sport ≫= s_group) "Unknown" in
     let bets := findPositiveEVBets (data oddsResp) title group region in
     ret {| res_status := 200;
            res_body :=
              JObj [("success", JBool true);
                    ("data",
                      JObj [("sport", JObj [("key", JStr sportKey);
                                            ("title", JStr title);
                                            ("group", JStr group)]);
                            ("region", JStr region);
                            ("count", JInt (Z.of_nat (length bets)));
                            ("bets", JArr bets)])] |})
    (fun error =>
       ret {| res_status := 500;
              res_body :=
                JObj [("success", JBool false);
                      ("error",
                        JObj [("message",
                                JStr (Str.or_else (Some (err_message error))
                                        "Failed to compute positive EV bets"))])] |}).

(** What the sports route sends: the answer of the feed client under
    [{ success: true, data: { sports } }], or a status with
    [{ success: false, error: { message } }]. *)
Inductive SportsResponse : Type :=
| SportsSent (sports : FeedResult)
| SportsRefused (status : Z) (message : string).

Definition getSports : M SportsResponse :=
  try_catch
    (let* sports := OddsApiService.getSports in
     ret (SportsSent sports))
    (fun error =>
       ret (SportsRefused 500
              (Str.or_else (Some (err_message error)) "Failed to fetch sports"))).

(** [req.query] of the cheat-sheet route; [cq_top] is the number [top]
    denotes. *)
Record CheatSheetQuery : Type := {
  cq_sport : option string;
  cq_market : option string;
  cq_regions : option string;
  cq_oddsFormat : option string;
  cq_top : option Z
}.

(** What the cheat-sheet route sends: the sheet under
    [{ success: true, data: { cheatSheet } }], or a status with
    [{ success: false, error: { message } }]. *)
Inductive CheatSheetResponse : Type :=
| SheetSent (sheet : CheatSheetService.CheatSheetResult)
| SheetRefused (status : Z) (message : string).

Definition getCheatSheet `{JsBuiltins} (q : CheatSheetQuery) : M CheatSheetResponse :=
  try_catch
    (let sport := Str.trim (Str.or_else (cq_sport q) "") in
     let market := Str.trim (Str.or_else (cq_market q) "") in
     if negb (Str.nonempty sport) then ret (SheetRefused 400 "sport is required")
     else if negb (Str.nonempty market)
     then ret (SheetRefused 400 "market is required")
     else
       let regions :=
         match cq_regions q with
         | Some r => if Str.nonempty (Str.trim r) then Some (csv r) else None
         | None => None
         end in
       let oddsFormat := Str.or_else (cq_oddsFormat q) "american" in
       let* sheet := CheatSheetService.getPlayerPropsCheatSheet
         {| CheatSheetService.cp_sport := sport;
            CheatSheetService.cp_market := market;
            CheatSheetService.cp_regions := regions;
            CheatSheetService.cp_oddsFormat := Some oddsFormat;
            CheatSheetService.cp_top := cq_top q |} in
       ret (SheetSent sheet))
    (fun error =>
       ret (SheetRefused 500
              (Str.or_else (Some (err_message error))
                           "Failed to fetch cheat sheet"))).

End SportsToolsController.

(* ===================================================================== *)
(** * oddsIngestionController                                              *)
(* ===================================================================== *)

Module OddsIngestionController.

(** [req.body] of the refresh route; [rb_sportKey] is the field when it is
    a string. *)
Record RefreshBody : Type := {
  rb_sportKey : option string;
  rb_regions : option (list string);
  rb_markets : option (list string);
  rb_oddsFormat : option string
}.

Definition fail (status : Z) (message : string) : SportsToolsController.Response :=
  {| SportsToolsController.res_status := status;
     SportsToolsController.res_body :=
       JObj [("success", JBool false);
             ("error", JObj [("message", JStr message)])] |}.

Definition send (d : JsVal) : SportsToolsController.Response :=
  {| SportsToolsController.res_status := 200;
     SportsToolsController.res_body :=
       JObj [("success", JBool true); ("data", d)] |}.

(** [err?.status || 500]. *)
Definition statusOf (err : JsError) : Z :=
  match err_status err with
  | Some st => if st =? 0 then 500 else st
  | None => 500
  end.

Definition refreshOddsNow `{JsBuiltins} (body : option RefreshBody)
    : M SportsToolsController.Response :=
  try_catch
    (match body ≫= (fun b => truthy (rb_sportKey b)) with
     | None => ret (fail 400 "sportKey is required")
     | Some sportKey =>
         let* result := OddsIngestionService.refreshOdds
           {| OddsIngestionService.sportKey := sportKey;
              OddsIngestionService.rp_regions := body ≫= rb_regions;
              OddsIngestionService.rp_markets := body ≫= rb_markets;
              OddsIngestionService.rp_oddsFormat := body ≫= rb_oddsFormat |} in
         ret (send (OddsIngestionService.RefreshResult_object result))
     end)
    (fun err =>
       ret (fail (statusOf err)
                 (Str.or_else (Some (err_message err)) "Internal server error"))).

(** [Number(req.body?.daysOld ?? 7)], a whole number of days. *)
Definition archiveOddsSnapshots (daysOld : option Z)
    : M SportsToolsController.Response :=
  try_catch
    (let* archived := OddsIngestionService.archiveOldSnapshots (default 7 daysOld) in
     ret (send (JObj [("archived", JInt archived)])))
    (fun err =>
       let* _ := logger LogError
                   ("Failed to archive snapshots " +:+ err_message err) in
       ret (fail 500 "Internal server error")).

(** The status as it is sent; the date of the last fetch stands as its
    time in milliseconds. *)
Definition getOddsIngestionStatus : M SportsToolsController.Response :=
  try_catch
    (let* st := OddsIngestionService.status in
     ret (send (JObj [("snapshots", JInt (OddsIngestionService.st_snapshots st));
                      ("lastFetchedAt",
                        match OddsIngestionService.st_lastFetchedAt st with
                        | Some t => JInt t
                        | None => JNull
                        end);
                      ("archived", JInt (OddsIngestionService.st_archived st))])))
    (fun err =>
       let* _ := logger LogError
                   ("Failed to get odds ingestion status " +:+ err_message err) in
       ret (fail 500 "Internal server error")).

End OddsIngestionController.

(* ===================================================================== *)
(** * utils/odds.ts: abbreviations                                         *)
(* ===================================================================== *)

Module OddsUtil.

(** [xs.slice(0, n)]: a negative [n] counts from the end. *)
Definition slice_to {A : Type} (n : Z) (l : list A) : list A :=
  if 0 <=? n then firstn (Z.to_nat n) l
  else firstn (Z.to_nat (Z.of_nat (length l) + n)) l.

(** [s.split(/\s+/)]: the pieces between the maximal runs of white space;
    [in_run] tells that the previous character was white space. *)
Fixpoint split_ws (in_run : bool) (cur : list ascii) (l : list ascii)
    : list (list ascii) :=
  match l with
  | [] => [rev cur]
  | c :: r =>
      if Str.is_space c
      then (if in_run then split_ws true cur r
            else rev cur :: split_ws true [] r)
      else split_ws false (c :: cur) r
  end.

Definition is_nil {A : Type} (l : list A) : bool :=
  match l with [] => true | _ => false end.

(** [(name || "").trim().split(/\s+/).filter(Boolean)]. *)
Definition parts_of (name : string) : list (list ascii) :=
  List.filter (fun p => negb (is_nil p))
              (split_ws false [] (list_ascii_of_string (Str.trim name))).

Definition toAbbrev (name : string) (maxLen : option Z) : string :=
  let maxLen := default 4 maxLen in
  match parts_of name with
  | [] => "UNK"
  | first :: rest =>
      let ab := concat (map (fun p => map Str.upper_char (firstn 1 p))
                            (first :: rest)) in
      string_of_list_ascii
        (map Str.upper_char
             (slice_to maxLen
                (if is_nil ab then slice_to maxLen first else ab)))
  end.

End OddsUtil.

(* ===================================================================== *)
(** * Notions used by the statements                                       *)
(* ===================================================================== *)

(** The archive documents of the selected snapshots: each one is the
    snapshot with the reading of the clock taken for it. *)
Fixpoint stamp (clk : nat -> Z) (n : nat) (old : list (Z * OddsSnapshotRow))
    : list (Z * OddsSnapshotArchiveRow) :=
  match old with
  | [] => []
  | o :: r =>
      (fst o, {| arch_snapshot := snd o; arch_archived_at := clk n |})
      :: stamp clk (S n) r
  end.

(** The world after [k] further readings of the clock and the writes [ops]. *)
Definition extend (k : nat) (ops : list StoreOp) (w : World) : World :=
  {| env := env w; clock_reads := (k + clock_reads w)%nat;
     feed_calls := feed_calls w; http_calls := http_calls w; logs := logs w;
     store := apply_ops (archive_refuses (env w)) ops (store w);
     store_ops := store_ops w ++ ops |}.

(** Ingestion time is the only time stamp of the six entity collections:
    the start of an event defaults to it when the feed gives none. *)
Definition without_ingestion_time (r : SportEventRow) : SportEventRow :=
  {| ev_sport_id := ev_sport_id r; ev_league_code := ev_league_code r;
     ev_home_team_id := ev_home_team_id r; ev_away_team_id := ev_away_team_id r;
     ev_starts_at := match ev_starts_at r with
                     | DateOfString t => DateOfString t
                     | DateOfMillis _ => DateOfMillis 0
                     end;
     ev_status := ev_status r; ev_external_ref := ev_external_ref r |}.

(** The writes to the six entity collections, ingestion time left out. *)
Definition entity_write (op : StoreOp) : option StoreOp :=
  match op with
  | SportEventSet k r => Some (SportEventSet k (without_ingestion_time r))
  | OddsSnapshotSet _ _ | ArchiveInsertMany _ | OddsSnapshotDeleteMany _ => None
  | _ => Some op
  end.

Definition entity_trace (ops : list StoreOp) : list StoreOp :=
  omap entity_write ops.

(** The ids of the snapshots written. *)
Definition snapshot_ids (ops : list StoreOp) : list Z :=
  omap (fun op => match op with OddsSnapshotSet k _ => Some k | _ => None end) ops.

(** The ids of a batch: the [n] sequence indices from [i] on. *)
Definition batch_ids (batchEpochMs i : Z) (n : nat) : list Z :=
  map (fun j => Ids.makeOddsSnapshotId batchEpochMs (i + Z.of_nat j)) (seq 0 n).

(** The six entity collections of a store, ingestion time left out. *)
Definition entities (s : Store) : Store :=
  {| sports := sports s; teams := teams s;
     sportEvents := without_ingestion_time <$> sportEvents s;
     sportsbooks := sportsbooks s; marketsTbl := marketsTbl s;
     selections := selections s; snapshots := ∅; archived := ∅ |}.

(** The writes made between the world [w] and a later world [w']. *)
Definition written_by (w w' : World) : list StoreOp :=
  drop (length (store_ops w)) (store_ops w').

(** A loop body follows the plan [(F, N)] when, from every world and every
    sequence index, it returns the index advanced by [N x], its writes to
    the entity collections are [F x] and the snapshots it writes carry the
    next [N x] ids of the batch. *)
Definition follows_plan {X : Type} (t : Z) (body : Z -> X -> M Z)
    (F : X -> list StoreOp) (N : X -> nat) : Prop :=
  forall i x w, exists k ops,
    body i x w = (Returned (i + Z.of_nat (N x)), extend k ops w)
    /\ entity_trace ops = F x
    /\ snapshot_ids ops = batch_ids t i (N x).

(** The number of snapshots of a list of feed records. *)
Definition total {X : Type} (N : X -> nat) (l : list X) : nat :=
  fold_right (fun x acc => (N x + acc)%nat) 0%nat l.

(** The writes that address the six entity collections. *)
Definition is_entity_op (op : StoreOp) : Prop :=
  match op with
  | OddsSnapshotSet _ _ | ArchiveInsertMany _ | OddsSnapshotDeleteMany _ => False
  | _ => True
  end.

(** The rows [d] laid over the store [s]: rows that are only inserted
    when absent give way to the rows of [s], the others replace them. *)
Definition overlay (d s : Store) : Store :=
  {| sports := sports s ∪ sports d;
     teams := teams s ∪ teams d;
     sportEvents := sportEvents d ∪ sportEvents s;
     sportsbooks := sportsbooks d ∪ sportsbooks s;
     marketsTbl := marketsTbl d ∪ marketsTbl s;
     selections := selections d ∪ selections s;
     snapshots := snapshots s;
     archived := archived s |}.

(** The events a run ingests: those of the feed when it answers without a
    warning, none otherwise. *)
Definition ingested_events (feed : Outcome FeedResult) : list OddsEvent :=
  match feed with
  | Returned res =>
      match truthy (warning res) with
      | Some _ => []
      | None => Payload_events (data res)
      end
  | Thrown _ => []
  end.

(** The cheat sheet: [replaces existing candidate] says that the price of
    the candidate is strictly higher than the one of the existing row, or
    that the candidate has a price and the existing row has none. *)
Definition replaces (existing candidate : CheatSheetService.CheatSheetOutcome) : Prop :=
  match CheatSheetService.bestPrice existing,
        CheatSheetService.bestPrice candidate with
  | Some e, Some c => (e < c)%Q
  | None, Some _ => True
  | _, None => False
  end.

(** The rows the feed offers to the cheat sheet, each with its key, in the
    order in which the loops of the service meet them. *)
Section Offers.
Context `{JsBuiltins} (sport market : string).

Definition offer (ev : OddsEvent) (bookmakerKey : option string)
    (o : OddsOutcome) : list (string * CheatSheetService.CheatSheetOutcome) :=
  if negb (Str.nonempty (CheatSheetService.playerOf market o))
     || negb (Str.nonempty (CheatSheetService.sideOf market o))
  then []
  else [(CheatSheetService.keyOf market ev o,
         CheatSheetService.candidateOf sport market ev bookmakerKey o)].

Definition offers_of_bookmaker (ev : OddsEvent) (bm : Bookmaker)
    : list (string * CheatSheetService.CheatSheetOutcome) :=
  match ArbitrageService.find_market market (array_or_empty (b_markets bm)) with
  | None => []
  | Some marketObj =>
      flat_map (offer ev (b_key bm)) (array_or_empty (m_outcomes marketObj))
  end.

Definition offers (events : list OddsEvent)
    : list (string * CheatSheetService.CheatSheetOutcome) :=
  flat_map (fun ev => flat_map (offers_of_bookmaker ev)
                               (array_or_empty (e_bookmakers ev)))
           events.
End Offers.






(** The opportunities of a payload, in the order of its events. *)
Definition emitted (sport market : string) (events : list OddsEvent)
    : list ArbitrageService.ArbitrageOpportunity :=
  omap (ArbitrageService.opportunityOf sport market) events.


(** The footprint of a run.  A run preserves [R] when [R] relates every
    world to the world the run leaves, whether it returns or throws. *)
Definition preserves {A : Type} (R : World -> World -> Prop) (m : M A) : Prop :=
  forall w, R w (snd (m w)).

(** The store, the trace of its writes, the clock and the environment are
    as before; the traces of the feed calls, of the requests and of the log
    are extended at most. *)
Definition read_only (w w' : World) : Prop :=
  store w' = store w /\ store_ops w' = store_ops w
  /\ clock_reads w' = clock_reads w /\ env w' = env w
  /\ feed_calls w `prefix_of` feed_calls w'
  /\ http_calls w `prefix_of` http_calls w'
  /\ logs w `prefix_of` logs w'.

(** A request that presents the credential [key] as its [apiKey]. *)
Definition presents_key (key : string) (r : HttpRequest) : Prop :=
  exists rest, req_params r = ("apiKey", key) :: rest.

(** What one call [c] of the feed client leaves behind, from the world
    [w]: the call, at most one request, which presents the trimmed
    credential, and one line of the error log when it throws. *)
Definition feed_footprint (c : FeedCall) (w : World)
    (run : Outcome FeedResult * World) : Prop :=
  read_only w (snd run)
  /\ feed_calls (snd run) = feed_calls w ++ [c]
  /\ (exists reqs,
        http_calls (snd run) = http_calls w ++ reqs
        /\ (length reqs <= 1)%nat
        /\ Forall (presents_key (OddsApiService.apiKeyOf (env w))) reqs
        /\ (OddsApiService.apiKeyOf (env w) = "" -> reqs = []))
  /\ match fst run with
     | Returned _ => logs (snd run) = logs w
     | Thrown e =>
         exists what,
           logs (snd run) = logs w ++ [(LogError, what +:+ " " +:+ err_message e)]
     end.

(** Where the answer of a feed call comes from: the degraded answer when
    there is no credential, else the reply of the upstream provider to the
    one request [req] made, passed on as it is; [own] is the error the
    method raises by itself, if it has one. *)
Definition relays_upstream (own : option JsError) (d0 : Payload) (w : World)
    (run : Outcome FeedResult * World) : Prop :=
  match fst run with
  | Returned res =>
      (OddsApiService.apiKeyOf (env w) = ""
       /\ res = OddsApiService.not_configured d0
       /\ http_calls (snd run) = http_calls w)
      \/ (OddsApiService.apiKeyOf (env w) <> ""
          /\ warning res = None
          /\ exists req,
               http_calls (snd run) = http_calls w ++ [req]
               /\ upstream (env w) req = Resolved (data res) (remaining res))
  | Thrown e =>
      OddsApiService.apiKeyOf (env w) <> ""
      /\ ((own = Some e /\ http_calls (snd run) = http_calls w)
          \/ (exists req,
                http_calls (snd run) = http_calls w ++ [req]
                /\ upstream (env w) req = Rejected e))
  end.

(** At most [n] calls of the feed client, and no more requests than calls,
    between the world [w] and the later world [w']. *)
Definition feed_budget (n : nat) (w w' : World) : Prop :=
  exists calls reqs,
    feed_calls w' = feed_calls w ++ calls
    /\ http_calls w' = http_calls w ++ reqs
    /\ (length reqs <= length calls)%nat /\ (length calls <= n)%nat.

(** The ids of [m] are ids of [m'] still. *)
Definition keeps_ids `{Countable K} {V : Type} (m m' : gmap K V) : Prop :=
  forall k, is_Some (m !! k) -> is_Some (m' !! k).

(** What the ingestion may do to the world: rows of sports and of teams
    are inserted and never changed, no row of any collection is removed,
    the archive is left alone, and so is the environment; the trace of
    writes and the number of readings of the clock only grow. *)
Definition ingestion_step (w w' : World) : Prop :=
  env w' = env w
  /\ archived (store w') = archived (store w)
  /\ sports (store w) ⊆ sports (store w')
  /\ teams (store w) ⊆ teams (store w')
  /\ keeps_ids (sportEvents (store w)) (sportEvents (store w'))
  /\ keeps_ids (sportsbooks (store w)) (sportsbooks (store w'))
  /\ keeps_ids (marketsTbl (store w)) (marketsTbl (store w'))
  /\ keeps_ids (selections (store w)) (selections (store w'))
  /\ keeps_ids (snapshots (store w)) (snapshots (store w'))
  /\ store_ops w `prefix_of` store_ops w'
  /\ (clock_reads w <= clock_reads w')%nat.

(** Nothing is said to the feed or to the log. *)
Definition unheard (w w' : World) : Prop :=
  feed_calls w' = feed_calls w /\ http_calls w' = http_calls w
  /\ logs w' = logs w.

(** The steps of the loops of the ingestion: they leave the sports as
    they are, too. *)
Definition loop_step (w w' : World) : Prop :=
  ingestion_step w w' /\ unheard w w'
  /\ sports (store w') = sports (store w).

(** The writes of the ingestion: all but those of the archiving. *)
Definition is_ingest_op (op : StoreOp) : Prop :=
  match op with
  | ArchiveInsertMany _ | OddsSnapshotDeleteMany _ => False
  | _ => True
  end.

(** The writes of the loops of the ingestion. *)
Definition is_loop_op (op : StoreOp) : Prop :=
  match op with
  | SportSetOnInsert _ _ | ArchiveInsertMany _ | OddsSnapshotDeleteMany _ => False
  | _ => True
  end.

(** The outcomes of a payload, in the order in which the loops of the
    ingestion meet them. *)
Definition outcomes_of_event (ev : OddsEvent) : list OddsOutcome :=
  flat_map (fun bm => flat_map (fun mk => array_or_empty (m_outcomes mk))
                               (array_or_empty (b_markets bm)))
           (array_or_empty (e_bookmakers ev)).

Definition outcomes_of (events : list OddsEvent) : list OddsOutcome :=
  flat_map outcomes_of_event events.


(** The characters of a slug, computed on the list of the characters. *)
Definition trim_chars (l : list ascii) : list ascii :=
  rev (Str.drop_spaces (rev (Str.drop_spaces l))).


(** A row of the cheat sheet asked for [sport]: it names a player and a
    side, and its implied probability is the one of its best price,
    [null] when it has no price or the price 0. *)
Definition sheet_row (sport : string) (r : CheatSheetService.CheatSheetOutcome) : Prop :=
  CheatSheetService.sportKey r = sport
  /\ CheatSheetService.player r <> ""
  /\ CheatSheetService.side r <> ""
  /\ CheatSheetService.impliedProbability r
     = match CheatSheetService.bestPrice r with
       | Some p => finite_or_null (CheatSheetService.americanToImpliedProb (Fin p))
       | None => None
       end.

(** The prices quoted for the outcomes of an event in a market: the name,
    the bookmaker and the price of every outcome that has a name and a
    finite price, in the order in which the loops of the arbitrage meet
    them. *)
Definition Quote : Type := (string * (option string * Q))%type.

Definition quote (bookmakerKey : option string) (o : OddsOutcome) : list Quote :=
  match o_price o with
  | Some (Fin p) =>
      let name := Str.trim (Str.or_else (o_name o) "") in
      if Str.nonempty name then [(name, (bookmakerKey, p))] else []
  | _ => []
  end.

Definition quotes_of_bookmaker (market : string) (bm : Bookmaker) : list Quote :=
  match ArbitrageService.find_market market (array_or_empty (b_markets bm)) with
  | None => []
  | Some marketObj => flat_map (quote (b_key bm)) (array_or_empty (m_outcomes marketObj))
  end.

Definition quotes (market : string) (ev : OddsEvent) : list Quote :=
  flat_map (quotes_of_bookmaker market) (array_or_empty (e_bookmakers ev)).

(** The entry the arbitrage stores for a quote, and its step on a quote. *)
Definition entry_of (q : Quote) : ArbitrageService.BestEntry :=
  {| ArbitrageService.bookmaker := fst (snd q);
     ArbitrageService.price := Some (Fin (snd (snd q))) |}.

Definition keep_best (best : Obj.t ArbitrageService.BestEntry) (q : Quote)
    : Obj.t ArbitrageService.BestEntry :=
  match Obj.get (fst q) best with
  | Some existing =>
      if num_ltb (default NegInf (ArbitrageService.price existing))
                 (Fin (snd (snd q)))
      then Obj.set (fst q) (entry_of q) best
      else best
  | None => Obj.set (fst q) (entry_of q) best
  end.

(** A snapshot row of the batch read at [t] under the odds format asked:
    it is stamped with [t], and its format and its implied probability are
    those of the format asked, DECIMAL for [decimal] and AMERICAN for
    every other format. *)
Definition snapshot_of_batch (oddsFormat : option string) (t : Z)
    (r : OddsSnapshotRow) : Prop :=
  snap_fetched_at r = t
  /\ if String.eqb (Str.or_else oddsFormat "american") "decimal"
     then snap_odds_format r = DECIMAL
          /\ snap_implied_prob r = Odds.decimalToImpliedProb (snap_odds_value r)
     else snap_odds_format r = AMERICAN
          /\ snap_implied_prob r = Odds.americanToImpliedProb (snap_odds_value r).

(** The writes of a batch: no write of the archiving, and snapshots of the
    batch only. *)
Definition batch_write (oddsFormat : option string) (t : Z) (op : StoreOp) : Prop :=
  match op with
  | OddsSnapshotSet _ r => snapshot_of_batch oddsFormat t r
  | ArchiveInsertMany _ | OddsSnapshotDeleteMany _ => False
  | _ => True
  end.

(** Between [w] and [w'] only writes that satisfy [P] were made. *)
Definition writes_only (P : StoreOp -> Prop) (w w' : World) : Prop :=
  exists ops, store_ops w' = store_ops w ++ ops /\ Forall P ops.

(* ===================================================================== *)
(** * Sample inputs                                                        *)
(* ===================================================================== *)

Module Sample.

(** Renders the integers; stands for the built-ins where a concrete
    input needs them. *)
Definition builtins : JsBuiltins :=
  {| Number_toString :=
       fun n => match n with
                | Fin q => Str.ofZ (Qfloor q)
                | NaN => "NaN"
                | PosInf => "Infinity"
                | NegInf => "-Infinity"
                end;
     Date_parse := fun _ => NaN |}.

Definition no_bets : PositiveEVService :=
  {| findPositiveEVBets := fun _ _ _ _ => [] |}.

Definition unreachable : JsError :=
  {| err_message := "connect ECONNREFUSED"; err_code := Some "ECONNREFUSED";
     err_status := None |}.

(** No credential in the environment. *)
Definition env_without_key : Env :=
  {| ODDS_API_KEY := None; ODDS_API_BASE_URL := None;
     upstream := fun _ => Rejected unreachable;
     clock := fun n => Z.of_nat n + 1700000000000;
     archive_refuses := fun _ => false |}.

Definition fresh (e : Env) : World :=
  {| env := e; clock_reads := 0; feed_calls := []; http_calls := [];
     logs := []; store := empty_store; store_ops := [] |}.

Definition outcome_of (name : string) (price : Q) : OddsOutcome :=
  {| o_name := Some name; o_description := None; o_participant := None;
     o_player := None; o_point := None; o_price := Some (Fin price);
     o_odds := None |}.

Definition h2h_of (outs : list OddsOutcome) : FeedMarket :=
  {| m_key := Some "h2h"; m_outcomes := Some outs |}.

Definition book_of (key : string) (outs : list OddsOutcome) : Bookmaker :=
  {| b_key := Some key; b_title := Some key; b_last_update := None;
     b_markets := Some [h2h_of outs] |}.

Definition game (id : string) (books : list Bookmaker) : OddsEvent :=
  {| e_id := Some id; e_commence_time := Some "2024-01-01T00:00:00Z";
     e_home_team := Some "Lakers"; e_away_team := Some "Celtics";
     e_bookmakers := Some books |}.

(** A credential, an upstream that answers every request with [events],
    and a clock that stands still at [t] or advances by [step]. *)
Definition env_serving (events : list OddsEvent) (t step : Z) : Env :=
  {| ODDS_API_KEY := Some "secret"; ODDS_API_BASE_URL := None;
     upstream := fun _ => Resolved (PEvents events) (Fin 499);
     clock := fun n => Z.of_nat n * step + t;
     archive_refuses := fun _ => false |}.

(** A store that holds one snapshot fetched eight days before the
    first reading of the clock and one fetched the day before. *)
Definition snapshot_at (t : Z) : OddsSnapshotRow :=
  {| snap_sportsbook_id := "book:fanduel";
     snap_selection_id := "sel:mkt:evt:g1:book:fanduel:h2h:lakers";
     snap_odds_format := AMERICAN; snap_odds_value := Fin 150;
     snap_implied_prob := Fin (100 / (150 + 100));
     snap_fetched_at := t |}.

Definition day : Z := 86400000.

Definition aged_store : Store :=
  {| sports := ∅; teams := ∅; sportEvents := ∅; sportsbooks := ∅;
     marketsTbl := ∅; selections := ∅;
     snapshots := {[ 1 := snapshot_at (1700000000000 - 8 * day);
                     2 := snapshot_at (1700000000000 - 1 * day) ]};
     archived := ∅ |}.

Definition aged_world : World :=
  {| env := env_serving [] 1700000000000 1; clock_reads := 0;
     feed_calls := []; http_calls := []; logs := [];
     store := aged_store; store_ops := [] |}.

(** A world whose store holds the row of the sport [key] already. *)
Definition with_sport (key : string) (w : World) : World :=
  snd (store_write (SportSetOnInsert (Ids.makeSportIdFromKey key)
                      {| sport_name := key; sport_key := key |}) w).

End Sample.

(* ===================================================================== *)
(** * Properties                                                           *)
(* ===================================================================== *)

(** ** Odds math *)

Lemma Qlt_bool_iff (a b : Q) : Qlt_bool a b = true <-> (a < b)%Q.
Proof.
  unfold Qlt_bool. rewrite negb_true_iff.
  split; intros Hab.
  - apply Qnot_le_lt. intros Hle. apply Qle_bool_iff in Hle. congruence.
  - destruct (Qle_bool b a) eqn:E; [|reflexivity].
    apply Qle_bool_iff in E. exfalso. exact (Qlt_not_le _ _ Hab E).
Qed.

Lemma Qlt_bool_false_iff (a b : Q) : Qlt_bool a b = false <-> (b <= a)%Q.
Proof.
  unfold Qlt_bool. rewrite negb_false_iff. apply Qle_bool_iff.
Qed.

Lemma Qeq_bool_false_iff (a b : Q) : Qeq_bool a b = false <-> ~ (a == b)%Q.
Proof.
  split.
  - intros E Heq. apply Qeq_bool_iff in Heq. congruence.
  - intros Hne. destruct (Qeq_bool a b) eqn:E; [|reflexivity].
    apply Qeq_bool_iff in E. contradiction.
Qed.

Lemma Qabs_pos_of_nonzero (x : Q) : ~ (x == 0)%Q -> (0 < Qabs x)%Q.
Proof.
  intros Hx. destruct (Qlt_le_dec 0 (Qabs x)) as [Hlt|Hle]; [exact Hlt|].
  exfalso. apply Hx.
  assert (H1 : (x <= 0)%Q) by (eapply Qle_trans; [apply Qle_Qabs|exact Hle]).
  assert (H2 : (- x <= 0)%Q).
  { eapply Qle_trans; [apply Qle_Qabs|]. rewrite Qabs_opp. exact Hle. }
  apply Qle_antisym; [exact H1|].
  apply Qopp_le_compat in H2. rewrite Qopp_involutive in H2. exact H2.
Qed.

(** The implied probability of a non-zero price lies strictly between 0 and 1. *)
Lemma implied_positive_price (x : Q) :
  (0 < x)%Q -> (0 < 100 / (x + 100))%Q /\ (100 / (x + 100) < 1)%Q.
Proof.
  intros Hx.
  assert (Hd : (0 < x + 100)%Q).
  { apply Qlt_trans with x; [exact Hx|]. rewrite <- (Qplus_0_r x) at 1.
    apply Qplus_lt_r. reflexivity. }
  split.
  - apply Qlt_shift_div_l; [exact Hd|]. rewrite Qmult_0_l. reflexivity.
  - apply Qlt_shift_div_r; [exact Hd|]. rewrite Qmult_1_l.
    rewrite <- (Qplus_0_l 100) at 1. apply Qplus_lt_l. exact Hx.
Qed.

Lemma implied_negative_price (a : Q) :
  (0 < a)%Q -> (0 < a / (a + 100))%Q /\ (a / (a + 100) < 1)%Q.
Proof.
  intros Ha.
  assert (Hd : (0 < a + 100)%Q).
  { apply Qlt_trans with a; [exact Ha|]. rewrite <- (Qplus_0_r a) at 1.
    apply Qplus_lt_r. reflexivity. }
  split.
  - apply Qlt_shift_div_l; [exact Hd|]. rewrite Qmult_0_l. exact Ha.
  - apply Qlt_shift_div_r; [exact Hd|]. rewrite Qmult_1_l.
    rewrite <- (Qplus_0_r a) at 1. apply Qplus_lt_r. reflexivity.
Qed.

(** The decimal odds of a non-zero American price are positive, and their
    inverse is the implied probability of the price. *)
Lemma decimal_of_american (x : Q) :
  ~ (x == 0)%Q ->
  exists d p, Odds.americanToDecimal (Fin x) = Fin d
              /\ Odds.americanToImpliedProb (Fin x) = Fin p
              /\ (0 < d)%Q /\ (1 / d == p)%Q /\ (0 < p)%Q /\ (p < 1)%Q.
Proof.
  intros Hx. unfold Odds.americanToDecimal, Odds.americanToImpliedProb.
  apply Qeq_bool_false_iff in Hx as Hz. rewrite Hz.
  destruct (Qlt_bool 0 x) eqn:Hs.
  - apply Qlt_bool_iff in Hs.
    assert (Hp : (0 < x + 100)%Q).
    { apply Qlt_trans with x; [exact Hs|].
      rewrite <- (Qplus_0_r x) at 1. apply Qplus_lt_r. reflexivity. }
    exists (1 + x / 100)%Q, (100 / (x + 100))%Q.
    split; [reflexivity|]. split; [reflexivity|]. split; [|split].
    + apply Qlt_trans with 1%Q; [reflexivity|].
      rewrite <- (Qplus_0_r 1) at 1. apply Qplus_lt_r.
      apply Qlt_shift_div_l; [reflexivity|]. rewrite Qmult_0_l. exact Hs.
    + field. intros Hc. rewrite Hc in Hp. exact (Qlt_irrefl _ Hp).
    + apply implied_positive_price. exact Hs.
  - pose proof (Qabs_pos_of_nonzero x Hx) as Ha.
    assert (Hp : (0 < Qabs x + 100)%Q).
    { apply Qlt_trans with (Qabs x); [exact Ha|].
      rewrite <- (Qplus_0_r (Qabs x)) at 1. apply Qplus_lt_r. reflexivity. }
    exists (1 + 100 / Qabs x)%Q, (Qabs x / (Qabs x + 100))%Q.
    split; [reflexivity|]. split; [reflexivity|]. split; [|split].
    + apply Qlt_trans with 1%Q; [reflexivity|].
      rewrite <- (Qplus_0_r 1) at 1. apply Qplus_lt_r.
      apply Qlt_shift_div_l; [exact Ha|]. rewrite Qmult_0_l. reflexivity.
    + field. split.
      * intros Hc. rewrite Hc in Hp. exact (Qlt_irrefl _ Hp).
      * intros Hc. rewrite Hc in Ha. exact (Qlt_irrefl _ Ha).
    + apply implied_negative_price. exact Ha.
Qed.

(** C7. For every finite American price [x] other than zero,
    [decimalToImpliedProb (americanToDecimal x)] is the same number as
    [americanToImpliedProb x] in exact rational arithmetic; and
    [americanToImpliedProb] is [100 / (x + 100)] on a positive price,
    [|x| / (|x| + 100)] on a negative one, and 0 on zero and on the values
    that are not finite. *)
Theorem implied_probability_round_trip :
  (forall x : Q, ~ (x == 0)%Q ->
     num_eq (Odds.decimalToImpliedProb (Odds.americanToDecimal (Fin x)))
            (Odds.americanToImpliedProb (Fin x)))
  /\ (forall x : Q, (0 < x)%Q ->
        Odds.americanToImpliedProb (Fin x) = Fin (100 / (x + 100)))
  /\ (forall x : Q, (x < 0)%Q ->
        Odds.americanToImpliedProb (Fin x) = Fin (Qabs x / (Qabs x + 100)))
  /\ (forall x : Q, (x == 0)%Q -> Odds.americanToImpliedProb (Fin x) = Fin 0)
  /\ (forall x : number, Number_isFinite x = false ->
        Odds.americanToImpliedProb x = Fin 0).
Proof.
  split; [|split; [|split; [|split]]].
  - intros x Hx.
    destruct (decimal_of_american x Hx) as (d & p & -> & -> & Hd & Heq & _).
    unfold Odds.decimalToImpliedProb.
    destruct (Qle_bool d 0) eqn:Hle.
    + apply Qle_bool_iff in Hle. exfalso. exact (Qlt_not_le _ _ Hd Hle).
    + exact Heq.
  - intros x Hx. unfold Odds.americanToImpliedProb.
    assert (Hz : Qeq_bool x 0 = false).
    { apply Qeq_bool_false_iff. intros Hc. rewrite Hc in Hx.
      exact (Qlt_irrefl _ Hx). }
    rewrite Hz. apply Qlt_bool_iff in Hx. rewrite Hx. reflexivity.
  - intros x Hx. unfold Odds.americanToImpliedProb.
    assert (Hz : Qeq_bool x 0 = false).
    { apply Qeq_bool_false_iff. intros Hc. rewrite Hc in Hx.
      exact (Qlt_irrefl _ Hx). }
    rewrite Hz.
    assert (Hs : Qlt_bool 0 x = false).
    { apply Qlt_bool_false_iff. apply Qlt_le_weak. exact Hx. }
    rewrite Hs. reflexivity.
  - intros x Hx. unfold Odds.americanToImpliedProb.
    apply Qeq_bool_iff in Hx. rewrite Hx. reflexivity.
  - intros [q| | |] Hx; simpl in *; [discriminate|reflexivity..].
Qed.

Lemma implied_probability_round_trip_witness :
  num_eq (Odds.decimalToImpliedProb (Odds.americanToDecimal (Fin 150)))
         (Odds.americanToImpliedProb (Fin 150))
  /\ num_eq (Odds.decimalToImpliedProb (Odds.americanToDecimal (Fin (-150))))
            (Odds.americanToImpliedProb (Fin (-150)))
  /\ Odds.americanToImpliedProb (Fin 150) = Fin (100 / (150 + 100))
  /\ Odds.americanToImpliedProb (Fin (-150))
     = Fin (Qabs (-150) / (Qabs (-150) + 100)).
Proof.
  destruct implied_probability_round_trip as (Hrt & Hpos & Hneg & _).
  split; [apply (Hrt 150%Q); discriminate|].
  split; [apply (Hrt (-150)%Q); discriminate|].
  split; [apply (Hpos 150%Q); reflexivity|apply (Hneg (-150)%Q); reflexivity].
Defined.

(** ** The feed client *)

Ltac run_monad :=
  cbv beta iota delta
    [bind ret throw try_catch ask called logger Date_now axios_get
     store_write read_store OddsApiService.getApikey
     OddsApiService.log_and_rethrow].

(** Without a credential a feed call answers at once: it is recorded, and
    nothing else happens. *)
Lemma getOdds_without_key (params : GetOddsParams) (w : World) :
  OddsApiService.apiKeyOf (env w) = "" ->
  OddsApiService.getOdds params w
  = (Returned (OddsApiService.not_configured (PEvents [])),
     snd (called (CallGetOdds params) w)).
Proof.
  intros Hkey. unfold OddsApiService.getOdds. run_monad. simpl.
  rewrite Hkey. reflexivity.
Qed.

Lemma getSports_without_key (w : World) :
  OddsApiService.apiKeyOf (env w) = "" ->
  OddsApiService.getSports w
  = (Returned (OddsApiService.not_configured (PEvents [])),
     snd (called CallGetSports w)).
Proof.
  intros Hkey. unfold OddsApiService.getSports. run_monad. simpl.
  rewrite Hkey. reflexivity.
Qed.

Lemma getEvents_without_key (sport : string) (w : World) :
  OddsApiService.apiKeyOf (env w) = "" ->
  OddsApiService.getEvents sport w
  = (Returned (OddsApiService.not_configured (PEvents [])),
     snd (called (CallGetEvents sport) w)).
Proof.
  intros Hkey. unfold OddsApiService.getEvents. run_monad. simpl.
  rewrite Hkey. reflexivity.
Qed.

(** The feed client never writes to the store. *)
Lemma getOdds_store_frame (params : GetOddsParams) (w : World) :
  store (snd (OddsApiService.getOdds params w)) = store w
  /\ store_ops (snd (OddsApiService.getOdds params w)) = store_ops w
  /\ clock_reads (snd (OddsApiService.getOdds params w)) = clock_reads w
  /\ env (snd (OddsApiService.getOdds params w)) = env w.
Proof.
  unfold OddsApiService.getOdds. run_monad. simpl.
  destruct (Str.nonempty (OddsApiService.apiKeyOf (env w))); simpl; [|auto].
  destruct (existsb _ _); simpl; [auto|].
  destruct (upstream (env w) _); simpl; auto.
Qed.

(** C10. Without a credential [getOdds] returns the degraded result for
    every input, also when the markets contain a player-prop market: the
    credential is checked before the markets are, no error is raised and no
    request is sent upstream. *)
Theorem getOdds_degraded_before_market_check
    (params : GetOddsParams) (w : World) :
  OddsApiService.apiKeyOf (env w) = "" ->
  OddsApiService.getOdds params w
  = (Returned {| data := PEvents []; remaining := Fin 0;
                 warning := Some "ODDS_API_KEY not configured" |},
     snd (called (CallGetOdds params) w))
  /\ (forall e, fst (OddsApiService.getOdds params w) <> Thrown e)
  /\ http_calls (snd (OddsApiService.getOdds params w)) = http_calls w.
Proof.
  intros Hkey. rewrite (getOdds_without_key params w Hkey).
  split; [reflexivity|]. split; [intros e He; discriminate He|reflexivity].
Qed.

Lemma getOdds_degraded_before_market_check_witness :
  let params := {| sport := "basketball_nba"; regions := None;
                   markets := Some ["h2h"; "player_points"];
                   oddsFormat := None |} in
  let w := Sample.fresh Sample.env_without_key in
  existsb OddsApiService.isPlayerPropMarket ["h2h"; "player_points"] = true
  /\ fst (OddsApiService.getOdds params w)
     = Returned {| data := PEvents []; remaining := Fin 0;
                   warning := Some "ODDS_API_KEY not configured" |}.
Proof.
  intros params w. split; [reflexivity|].
  destruct (getOdds_degraded_before_market_check params w) as [Heq _].
  - reflexivity.
  - rewrite Heq. reflexivity.
Defined.

(** ** Arbitrage: rejected markets *)

(** C3. A call of [getArbitrage] for a market other than h2h raises the
    error with code UNSUPPORTED_MARKET and leaves the world as it was: the
    feed client has not been called and no request has been sent. *)
Theorem getArbitrage_rejects_other_markets
    (params : ArbitrageService.ArbitrageParams) (w : World) :
  ArbitrageService.ap_market params <> "h2h" ->
  ArbitrageService.getArbitrage params w
  = (Thrown (ArbitrageService.UNSUPPORTED_MARKET
               (ArbitrageService.ap_market params)), w)
  /\ err_code (ArbitrageService.UNSUPPORTED_MARKET
                 (ArbitrageService.ap_market params))
     = Some "UNSUPPORTED_MARKET"
  /\ feed_calls (snd (ArbitrageService.getArbitrage params w)) = feed_calls w
  /\ http_calls (snd (ArbitrageService.getArbitrage params w)) = http_calls w.
Proof.
  intros Hm. unfold ArbitrageService.getArbitrage.
  destruct (String.eqb (ArbitrageService.ap_market params) "h2h") eqn:E.
  - apply String.eqb_eq in E. contradiction.
  - simpl. unfold throw. auto.
Qed.

Lemma getArbitrage_rejects_other_markets_witness :
  let params := {| ArbitrageService.ap_sport := "basketball_nba";
                   ArbitrageService.ap_market := "totals";
                   ArbitrageService.ap_regions := None;
                   ArbitrageService.ap_oddsFormat := None;
                   ArbitrageService.ap_top := None |} in
  let w := Sample.fresh (Sample.env_serving [] 1700000000000 1) in
  fst (ArbitrageService.getArbitrage params w)
  = Thrown (ArbitrageService.UNSUPPORTED_MARKET "totals")
  /\ feed_calls (snd (ArbitrageService.getArbitrage params w)) = [].
Proof.
  intros params w.
  destruct (getArbitrage_rejects_other_markets params w) as (Heq & _ & Hf & _).
  - simpl. discriminate.
  - rewrite Hf, Heq. split; reflexivity.
Defined.

(** ** Degraded mode of the ingestion *)

(** C1 (amended). When [getOdds] reports a warning, [refreshOdds] stops
    and returns [{ ingestedSnapshots: 0, remaining }]; the object it returns
    has no [warning] property, the warning goes to the log instead; the
    only write to the store is the insert-if-absent of the Sport row, made
    before the feed is called. *)
Theorem refreshOdds_degraded `{JsBuiltins}
    (params : OddsIngestionService.RefreshParams) (w : World)
    (res : FeedResult) (w2 : World) (text : string) :
  let sportId := Ids.makeSportIdFromKey (OddsIngestionService.sportKey params) in
  let op := SportSetOnInsert sportId
              {| sport_name := OddsIngestionService.sportKey params;
                 sport_key := OddsIngestionService.sportKey params |} in
  let result := {| OddsIngestionService.ingestedSnapshots := 0;
                   OddsIngestionService.rr_remaining := remaining res |} in
  OddsApiService.getOdds
    {| sport := OddsIngestionService.sportKey params;
       regions := OddsIngestionService.rp_regions params;
       markets := OddsIngestionService.rp_markets params;
       oddsFormat := OddsIngestionService.rp_oddsFormat params |}
    (snd (store_write op (snd (Date_now w)))) = (Returned res, w2) ->
  truthy (warning res) = Some text ->
  OddsIngestionService.refreshOdds params w
  = (Returned result,
     snd (logger LogWarn ("Odds ingestion skipped: " +:+ text) w2))
  /\ js_get "warning" (OddsIngestionService.RefreshResult_object result)
     = JUndefined
  /\ logs (snd (OddsIngestionService.refreshOdds params w))
     = logs w2 ++ [(LogWarn, "Odds ingestion skipped: " +:+ text)]
  /\ store_ops (snd (OddsIngestionService.refreshOdds params w))
     = store_ops w ++ [op]
  /\ store (snd (OddsIngestionService.refreshOdds params w))
     = apply_op (archive_refuses (env w)) op (store w).
Proof.
  intros sportId op result Hfeed Hwarn.
  assert (Hrun : OddsIngestionService.refreshOdds params w
                 = (Returned result,
                    snd (logger LogWarn ("Odds ingestion skipped: " +:+ text) w2))).
  { unfold OddsIngestionService.refreshOdds.
    unfold bind at 1. unfold Date_now at 1.
    unfold bind at 1. unfold store_write at 1.
    unfold bind at 1.
    fold sportId. fold op.
    change (OddsApiService.getOdds _ _) with
      (OddsApiService.getOdds
         {| sport := OddsIngestionService.sportKey params;
            regions := OddsIngestionService.rp_regions params;
            markets := OddsIngestionService.rp_markets params;
            oddsFormat := OddsIngestionService.rp_oddsFormat params |}
         (snd (store_write op (snd (Date_now w))))).
    rewrite Hfeed. rewrite Hwarn. reflexivity. }
  rewrite Hrun. cbn [snd].
  pose proof (getOdds_store_frame
                {| sport := OddsIngestionService.sportKey params;
                   regions := OddsIngestionService.rp_regions params;
                   markets := OddsIngestionService.rp_markets params;
                   oddsFormat := OddsIngestionService.rp_oddsFormat params |}
                (snd (store_write op (snd (Date_now w)))))
    as (Hstore & Hops & _ & _).
  rewrite Hfeed in Hstore, Hops. simpl in Hstore, Hops.
  split; [reflexivity|]. split; [reflexivity|]. split; [reflexivity|].
  split; [exact Hops|exact Hstore].
Qed.

Lemma refreshOdds_degraded_witness :
  let params := {| OddsIngestionService.sportKey := "basketball_nba";
                   OddsIngestionService.rp_regions := None;
                   OddsIngestionService.rp_markets := None;
                   OddsIngestionService.rp_oddsFormat := None |} in
  let w := Sample.fresh Sample.env_without_key in
  fst (@OddsIngestionService.refreshOdds Sample.builtins params w)
  = Returned {| OddsIngestionService.ingestedSnapshots := 0;
                OddsIngestionService.rr_remaining := Fin 0 |}.
Proof.
  intros params w.
  pose (op := SportSetOnInsert 1530504525
                {| sport_name := "basketball_nba"; sport_key := "basketball_nba" |}).
  pose (prm := {| sport := "basketball_nba"; regions := None; markets := None;
                  oddsFormat := None |}).
  pose (w1 := snd (store_write op (snd (Date_now w)))).
  destruct (@refreshOdds_degraded Sample.builtins params w
              (OddsApiService.not_configured (PEvents []))
              (snd (called (CallGetOdds prm) w1))
              "ODDS_API_KEY not configured") as [Heq _].
  - apply (getOdds_without_key prm w1). reflexivity.
  - reflexivity.
  - rewrite Heq. reflexivity.
Defined.

(** C1, as stated, fails: with no credential the feed reports the warning,
    and the value [refreshOdds] returns does not carry it. *)
Lemma refreshOdds_result_has_no_warning :
  let params := {| OddsIngestionService.sportKey := "basketball_nba";
                   OddsIngestionService.rp_regions := None;
                   OddsIngestionService.rp_markets := None;
                   OddsIngestionService.rp_oddsFormat := None |} in
  let w := Sample.fresh Sample.env_without_key in
  let run := @OddsIngestionService.refreshOdds Sample.builtins params w in
  (exists r, fst run = Returned r
             /\ js_get "warning" (OddsIngestionService.RefreshResult_object r)
                = JUndefined)
  /\ feed_calls (snd run)
     = [CallGetOdds {| sport := "basketball_nba"; regions := None;
                       markets := None; oddsFormat := None |}]
  /\ warning <$> returned (fst (OddsApiService.getOdds
                                  {| sport := "basketball_nba"; regions := None;
                                     markets := None; oddsFormat := None |} w))
     = Some (Some "ODDS_API_KEY not configured")
  /\ logs (snd run)
     = [(LogWarn, "Odds ingestion skipped: ODDS_API_KEY not configured")].
Proof.
  vm_compute. split; [|repeat split; reflexivity].
  eexists. split; reflexivity.
Qed.

(** ** Degraded mode of the analytics *)

(** Arbitrage passes the warning of the feed through. *)
Lemma getArbitrage_degraded
    (params : ArbitrageService.ArbitrageParams) (w : World) :
  OddsApiService.apiKeyOf (env w) = "" ->
  ArbitrageService.ap_market params = "h2h" ->
  fst (ArbitrageService.getArbitrage params w)
  = Returned {| ArbitrageService.ar_data := [];
                ArbitrageService.ar_remaining := Fin 0;
                ArbitrageService.ar_warning := Some "ODDS_API_KEY not configured" |}.
Proof.
  intros Hkey Hm. unfold ArbitrageService.getArbitrage. rewrite Hm. simpl.
  unfold bind. rewrite getOdds_without_key by exact Hkey. reflexivity.
Qed.

(** The cheat sheet passes the warning of the feed through, for the
    player-prop markets (events flow) and for the others (odds flow). *)
Lemma getPlayerPropsCheatSheet_degraded `{JsBuiltins}
    (params : CheatSheetService.CheatSheetParams) (w : World) :
  OddsApiService.apiKeyOf (env w) = "" ->
  fst (CheatSheetService.getPlayerPropsCheatSheet params w)
  = Returned {| CheatSheetService.cs_data := [];
                CheatSheetService.cs_remaining := Fin 0;
                CheatSheetService.cs_warning := Some "ODDS_API_KEY not configured" |}.
Proof.
  intros Hkey. unfold CheatSheetService.getPlayerPropsCheatSheet.
  destruct (CheatSheetService.isPlayerProp (CheatSheetService.cp_market params));
    simpl; unfold bind.
  - rewrite getEvents_without_key by exact Hkey. reflexivity.
  - rewrite getOdds_without_key by exact Hkey. reflexivity.
Qed.

(** C9. In degraded mode the arbitrage and the cheat-sheet entry points
    return an empty result with the warning of the feed and raise nothing.
    The positive-EV entry point raises nothing either and answers 200 with
    the bets computed from an empty payload, but its response does not
    carry the warning: there is no [warning] property in the body nor in
    its [data]. *)
Theorem analytics_in_degraded_mode `{JsBuiltins} `{PositiveEVService} (w : World) :
  OddsApiService.apiKeyOf (env w) = "" ->
  (forall params, ArbitrageService.ap_market params = "h2h" ->
     fst (ArbitrageService.getArbitrage params w)
     = Returned {| ArbitrageService.ar_data := [];
                   ArbitrageService.ar_remaining := Fin 0;
                   ArbitrageService.ar_warning :=
                     Some "ODDS_API_KEY not configured" |})
  /\ (forall params,
        fst (CheatSheetService.getPlayerPropsCheatSheet params w)
        = Returned {| CheatSheetService.cs_data := [];
                      CheatSheetService.cs_remaining := Fin 0;
                      CheatSheetService.cs_warning :=
                        Some "ODDS_API_KEY not configured" |})
  /\ (forall q,
        let sportKey := Str.or_else (SportsToolsController.q_sport q) "basketball_nba" in
        let region := Str.or_else (SportsToolsController.q_region q) "us" in
        let bets := findPositiveEVBets (PEvents []) sportKey "Unknown" region in
        let body :=
          JObj [("success", JBool true);
                ("data",
                  JObj [("sport", JObj [("key", JStr sportKey);
                                        ("title", JStr sportKey);
                                        ("group", JStr "Unknown")]);
                        ("region", JStr region);
                        ("count", JInt (Z.of_nat (length bets)));
                        ("bets", JArr bets)])] in
        fst (SportsToolsController.getPositiveEV q w)
        = Returned {| SportsToolsController.res_status := 200;
                      SportsToolsController.res_body := body |}
        /\ js_get "warning" body = JUndefined
        /\ js_get "warning" (js_get "data" body) = JUndefined).
Proof.
  intros Hkey. split; [|split].
  - intros params Hm. apply getArbitrage_degraded; assumption.
  - intros params. apply getPlayerPropsCheatSheet_degraded; assumption.
  - intros q sportKey region bets body.
    split; [|split; reflexivity].
    unfold SportsToolsController.getPositiveEV, OddsApiService.getSportByKey.
    unfold try_catch, bind.
    rewrite getSports_without_key by exact Hkey. simpl.
    unfold ret at 1.
    rewrite getOdds_without_key by exact Hkey. reflexivity.
Qed.

Lemma analytics_in_degraded_mode_witness :
  let w := Sample.fresh Sample.env_without_key in
  let q := {| SportsToolsController.q_sport := Some "basketball_nba";
              SportsToolsController.q_region := None;
              SportsToolsController.q_markets := None;
              SportsToolsController.q_oddsFormat := None |} in
  fst (@SportsToolsController.getPositiveEV Sample.no_bets q w)
  = Returned
      {| SportsToolsController.res_status := 200;
         SportsToolsController.res_body :=
           JObj [("success", JBool true);
                 ("data",
                   JObj [("sport", JObj [("key", JStr "basketball_nba");
                                         ("title", JStr "basketball_nba");
                                         ("group", JStr "Unknown")]);
                         ("region", JStr "us");
                         ("count", JInt 0);
                         ("bets", JArr [])])] |}.
Proof.
  intros w q.
  destruct (@analytics_in_degraded_mode Sample.builtins Sample.no_bets w)
    as (_ & _ & Hev).
  - reflexivity.
  - destruct (Hev q) as [Heq _]. rewrite Heq. reflexivity.
Defined.

(** ** The archive sweep *)

Lemma tick_tick (n m : nat) (w : World) : tick n (tick m w) = tick (n + m) w.
Proof. unfold tick. simpl. f_equal. lia. Qed.

Lemma stamp_keys clk n old : (stamp clk n old).*1 = old.*1.
Proof.
  revert n. induction old as [|o r IH]; intros n; simpl; [reflexivity|].
  f_equal. apply IH.
Qed.

Lemma stamp_lookup clk n old (k : Z) :
  arch_snapshot <$> ((list_to_map (stamp clk n old) : gmap Z _) !! k)
  = (list_to_map old : gmap Z _) !! k.
Proof.
  revert n. induction old as [|[k0 r0] r IH]; intros n; simpl.
  - rewrite !lookup_empty. reflexivity.
  - rewrite !lookup_insert. case_decide; [reflexivity|apply IH].
Qed.

(** The loop that stamps the selected snapshots. *)
Lemma stamping_loop (old : list (Z * OddsSnapshotRow)) :
  forall (acc : list (Z * OddsSnapshotArchiveRow)) (w : World),
    for_of (fun acc o =>
              let* at_ := Date_now in
              ret (acc ++ [(fst o, {| arch_snapshot := snd o;
                                      arch_archived_at := at_ |})]))
           acc old w
    = (Returned (acc ++ stamp (clock (env w)) (clock_reads w) old),
       tick (length old) w).
Proof.
  induction old as [|o r IH]; intros acc w; simpl.
  - unfold ret. rewrite app_nil_r. f_equal. unfold tick. destruct w; reflexivity.
  - unfold bind at 1. unfold bind at 1. unfold Date_now at 1. unfold ret at 1.
    rewrite IH. simpl. rewrite <- app_assoc. simpl.
    f_equal. rewrite tick_tick. f_equal. lia.
Qed.

Lemma lookup_deleteMany (ids : list Z) (m : gmap Z OddsSnapshotRow) (k : Z) :
  deleteMany ids m !! k = if decide (k ∈ ids) then None else m !! k.
Proof.
  unfold deleteMany. revert m.
  induction ids as [|i r IH]; intros m; simpl.
  - reflexivity.
  - rewrite IH, lookup_delete.
    destruct (decide (k ∈ r)) as [Hr|Hr], (decide (k ∈ i :: r)) as [Hc|Hc],
      (decide (i = k)) as [He|He]; try reflexivity; exfalso.
    all: first [ apply Hc; apply elem_of_cons; right; exact Hr
               | apply Hc; apply elem_of_cons; left; congruence
               | apply elem_of_cons in Hc as [Hc|Hc]; [congruence|contradiction] ].

Qed.

Lemma lookup_setOnInsert `{Countable K} {V : Type} (k j : K) (v : V) (m : gmap K V) :
  setOnInsert k v m !! j
  = match m !! j with
    | Some x => Some x
    | None => if decide (k = j) then Some v else None
    end.
Proof.
  unfold setOnInsert. destruct (m !! k) eqn:E.
  - destruct (m !! j) eqn:Ej; [reflexivity|].
    case_decide; [congruence|reflexivity].
  - rewrite lookup_insert. case_decide.
    + subst. rewrite E. reflexivity.
    + destruct (m !! j); reflexivity.
Qed.

(** The unordered bulk insert, key by key: a key that is taken keeps its
    document; a free key receives the document offered for it, unless the
    write is refused. *)
Lemma lookup_insertMany_unordered (refuses : Z -> bool)
    (docs : list (Z * OddsSnapshotArchiveRow))
    (m : gmap Z OddsSnapshotArchiveRow) (k : Z) :
  insertMany_unordered refuses docs m !! k
  = match m !! k with
    | Some a => Some a
    | None => if refuses k then None
              else (list_to_map docs : gmap Z _) !! k
    end.
Proof.
  unfold insertMany_unordered. revert m.
  induction docs as [|[k0 d0] r IH]; intros m; simpl.
  - rewrite lookup_empty. destruct (m !! k), (refuses k); reflexivity.
  - rewrite IH. destruct (refuses k0) eqn:R0.
    + destruct (m !! k) eqn:E; [reflexivity|].
      destruct (refuses k) eqn:R; [reflexivity|].
      rewrite lookup_insert. case_decide; [congruence|reflexivity].
    + rewrite lookup_setOnInsert. destruct (m !! k) eqn:E; [reflexivity|].
      rewrite lookup_insert. case_decide.
      * subst. rewrite R0. reflexivity.
      * reflexivity.
Qed.

(** What one call of the sweep does to the world. *)
Lemma archiveOldSnapshots_run (daysOld : Z) (w : World) :
  let cutoff := clock (env w) (clock_reads w)
                - daysOld * OddsIngestionService.DAY_MS in
  let old := OddsIngestionService.find_older cutoff (store w) in
  OddsIngestionService.archiveOldSnapshots daysOld w
  = match old with
    | [] => (Returned 0, tick 1 w)
    | _ :: _ =>
        (Returned (Z.of_nat (length old)),
         snd (store_write (OddsSnapshotDeleteMany old.*1)
                (snd (store_write
                        (ArchiveInsertMany
                           (stamp (clock (env w)) (S (clock_reads w)) old))
                        (tick (S (length old)) w)))))
    end.
Proof.
  intros cutoff old. unfold OddsIngestionService.archiveOldSnapshots.
  unfold bind at 1. unfold Date_now at 1.
  unfold bind at 1. unfold read_store at 1.
  change (store (tick 1 w)) with (store w).
  fold cutoff. fold old.
  destruct old as [|o r] eqn:Hold; [reflexivity|].
  unfold bind at 1. rewrite stamping_loop. simpl app.
  rewrite tick_tick.
  replace (length (o :: r) + 1)%nat with (S (length (o :: r))) by lia.
  reflexivity.
Qed.

Lemma archiveOldSnapshots_store (daysOld : Z) (w : World) :
  let cutoff := clock (env w) (clock_reads w)
                - daysOld * OddsIngestionService.DAY_MS in
  let old := OddsIngestionService.find_older cutoff (store w) in
  let w' := snd (OddsIngestionService.archiveOldSnapshots daysOld w) in
  env w' = env w
  /\ snapshots (store w') = deleteMany old.*1 (snapshots (store w))
  /\ archived (store w')
     = insertMany_unordered (archive_refuses (env w))
         (stamp (clock (env w)) (S (clock_reads w)) old) (archived (store w))
  /\ sports (store w') = sports (store w)
  /\ teams (store w') = teams (store w)
  /\ sportEvents (store w') = sportEvents (store w)
  /\ sportsbooks (store w') = sportsbooks (store w)
  /\ marketsTbl (store w') = marketsTbl (store w)
  /\ selections (store w') = selections (store w).
Proof.
  intros cutoff old w'. subst w'.
  rewrite (archiveOldSnapshots_run daysOld w). fold cutoff. fold old.
  destruct old as [|o r]; simpl; repeat split; reflexivity.
Qed.

Lemma find_older_spec (cutoff : Z) (s : Store) (k : Z) (r : OddsSnapshotRow) :
  (k, r) ∈ OddsIngestionService.find_older cutoff s
  <-> snapshots s !! k = Some r /\ snap_fetched_at r < cutoff.
Proof.
  unfold OddsIngestionService.find_older.
  rewrite elem_of_map_to_list, map_lookup_filter_Some. reflexivity.
Qed.

Lemma find_older_keys (cutoff : Z) (s : Store) (k : Z) :
  k ∈ (OddsIngestionService.find_older cutoff s).*1
  <-> exists r, snapshots s !! k = Some r /\ snap_fetched_at r < cutoff.
Proof.
  rewrite list_elem_of_fmap. split.
  - intros [[k' r] [-> Hin]]. exists r. apply find_older_spec. exact Hin.
  - intros [r Hr]. exists (k, r). split; [reflexivity|].
    apply find_older_spec. exact Hr.
Qed.

(** C5. [archiveOldSnapshots daysOld] selects exactly the hot snapshots
    fetched strictly before [now - daysOld] days and returns their number;
    when there is none it changes nothing; otherwise it offers the selected
    rows, each with an archived-at time, to the archive in one unordered
    bulk insert (a row whose id is archived already keeps its archived
    document, a refused row is dropped, the others are stored) and then
    deletes every selected row from the hot table, whatever became of the
    insert; the other hot rows and the other collections are untouched;
    afterwards no hot snapshot is older than the cutoff, and a second call
    archives 0 and changes nothing, as long as no snapshot that stayed hot
    has aged past the cutoff of the second call in between (so for every
    second call that reads the same time). *)
Theorem archiveOldSnapshots_copy_then_evict (daysOld : Z) (w : World) :
  let cutoff := clock (env w) (clock_reads w)
                - daysOld * OddsIngestionService.DAY_MS in
  let old := OddsIngestionService.find_older cutoff (store w) in
  let run := OddsIngestionService.archiveOldSnapshots daysOld w in
  let w' := snd run in
  (forall k r, (k, r) ∈ old
               <-> snapshots (store w) !! k = Some r /\ snap_fetched_at r < cutoff)
  /\ fst run = Returned (Z.of_nat (length old))
  /\ (old = [] -> store w' = store w /\ store_ops w' = store_ops w)
  /\ (old <> [] ->
      exists docs,
        store_ops w' = store_ops w ++ [ArchiveInsertMany docs;
                                       OddsSnapshotDeleteMany old.*1]
        /\ docs.*1 = old.*1
        /\ forall k, arch_snapshot <$> ((list_to_map docs : gmap Z _) !! k)
                     = (list_to_map old : gmap Z _) !! k)
  /\ (forall k,
        snapshots (store w') !! k
        = match snapshots (store w) !! k with
          | Some r => if decide (snap_fetched_at r < cutoff) then None else Some r
          | None => None
          end)
  /\ (forall k r, snapshots (store w') !! k = Some r -> cutoff <= snap_fetched_at r)
  /\ (forall k a, archived (store w) !! k = Some a ->
                  archived (store w') !! k = Some a)
  /\ (forall k, archived (store w) !! k = None ->
        arch_snapshot <$> (archived (store w') !! k)
        = match snapshots (store w) !! k with
          | Some r =>
              if decide (snap_fetched_at r < cutoff)
              then (if archive_refuses (env w) k then None else Some r)
              else None
          | None => None
          end)
  /\ (sports (store w') = sports (store w)
      /\ teams (store w') = teams (store w)
      /\ sportEvents (store w') = sportEvents (store w)
      /\ sportsbooks (store w') = sportsbooks (store w)
      /\ marketsTbl (store w') = marketsTbl (store w)
      /\ selections (store w') = selections (store w))
  /\ (forall daysOld2,
        (forall k r, snapshots (store w) !! k = Some r ->
                     cutoff <= snap_fetched_at r ->
                     clock (env w') (clock_reads w')
                     - daysOld2 * OddsIngestionService.DAY_MS
                     <= snap_fetched_at r) ->
        fst (OddsIngestionService.archiveOldSnapshots daysOld2 w') = Returned 0
        /\ store (snd (OddsIngestionService.archiveOldSnapshots daysOld2 w'))
           = store w').
Proof.
  intros cutoff old run w'.
  destruct (archiveOldSnapshots_store daysOld w)
    as (Henv & Hhot & Harch & Hs1 & Hs2 & Hs3 & Hs4 & Hs5 & Hs6).
  fold cutoff in Hhot, Harch. fold old in Hhot, Harch.
  fold run in Henv, Hhot, Harch, Hs1, Hs2, Hs3, Hs4, Hs5, Hs6.
  fold w' in Henv, Hhot, Harch, Hs1, Hs2, Hs3, Hs4, Hs5, Hs6.
  assert (Hlook : forall k,
             snapshots (store w') !! k
             = match snapshots (store w) !! k with
               | Some r => if decide (snap_fetched_at r < cutoff) then None else Some r
               | None => None
               end).
  { intros k. rewrite Hhot, lookup_deleteMany.
    destruct (decide (k ∈ old.*1)) as [Hin|Hout].
    - apply find_older_keys in Hin as (r & Hr & Hlt). rewrite Hr.
      rewrite decide_True by exact Hlt. reflexivity.
    - destruct (snapshots (store w) !! k) as [r|] eqn:Hr; [|reflexivity].
      destruct (decide (snap_fetched_at r < cutoff)) as [Hlt|Hge]; [|reflexivity].
      exfalso. apply Hout. apply find_older_keys. exists r. auto. }
  assert (Hold_map : forall k,
             (list_to_map old : gmap Z _) !! k
             = match snapshots (store w) !! k with
               | Some r => if decide (snap_fetched_at r < cutoff) then Some r else None
               | None => None
               end).
  { intros k. unfold old, OddsIngestionService.find_older.
    rewrite list_to_map_to_list.
    destruct (snapshots (store w) !! k) as [r|] eqn:Hr.
    - destruct (decide (snap_fetched_at r < cutoff)) as [Hlt|Hge].
      + apply map_lookup_filter_Some. auto.
      + apply map_lookup_filter_None. right. intros r' Hr' Hlt.
        simpl in Hlt. congruence.
    - apply map_lookup_filter_None. left. exact Hr. }
  split; [intros k r; apply find_older_spec|].
  split.
  { subst run. rewrite (archiveOldSnapshots_run daysOld w).
    fold cutoff. fold old. destruct old; reflexivity. }
  split.
  { intros Hnil. subst w' run. rewrite (archiveOldSnapshots_run daysOld w).
    fold cutoff. fold old. rewrite Hnil. split; reflexivity. }
  split.
  { intros Hne. exists (stamp (clock (env w)) (S (clock_reads w)) old).
    split; [|split].
    - subst w' run. rewrite (archiveOldSnapshots_run daysOld w).
      fold cutoff. fold old. destruct old as [|o r]; [congruence|].
      simpl. rewrite <- app_assoc. reflexivity.
    - apply stamp_keys.
    - intros k. apply stamp_lookup. }
  split; [exact Hlook|].
  split.
  { intros k r Hr. rewrite Hlook in Hr.
    destruct (snapshots (store w) !! k) as [r0|]; [|discriminate].
    destruct (decide (snap_fetched_at r0 < cutoff)); [discriminate|].
    injection Hr as <-. lia. }
  split.
  { intros k a Ha. rewrite Harch, lookup_insertMany_unordered, Ha. reflexivity. }
  split.
  { intros k Hk. rewrite Harch, lookup_insertMany_unordered, Hk.
    destruct (archive_refuses (env w) k).
    - destruct (snapshots (store w) !! k) as [r|]; [|reflexivity].
      destruct (decide _); reflexivity.
    - rewrite stamp_lookup, Hold_map.
      destruct (snapshots (store w) !! k) as [r|]; [|reflexivity].
      destruct (decide _); reflexivity. }
  split; [repeat split; assumption|].
  intros daysOld2 Hcut.
  rewrite (archiveOldSnapshots_run daysOld2 w').
  assert (Hnone : OddsIngestionService.find_older
                    (clock (env w') (clock_reads w')
                     - daysOld2 * OddsIngestionService.DAY_MS) (store w') = []).
  { unfold OddsIngestionService.find_older.
    apply map_to_list_empty_iff. apply map_empty. intros k.
    apply map_lookup_filter_None. right. intros r Hr Hlt. simpl in Hlt.
    rewrite Hlook in Hr.
    destruct (snapshots (store w) !! k) as [r0|] eqn:Hr0; [|discriminate].
    destruct (decide (snap_fetched_at r0 < cutoff)); [discriminate|].
    injection Hr as <-. specialize (Hcut k r0 Hr0). lia. }
  rewrite Hnone. split; reflexivity.
Qed.

Lemma archiveOldSnapshots_copy_then_evict_witness :
  let first := OddsIngestionService.archiveOldSnapshots 7 Sample.aged_world in
  fst first = Returned 1
  /\ fst (OddsIngestionService.archiveOldSnapshots 7 (snd first)) = Returned 0.
Proof.
  intros first.
  destruct (archiveOldSnapshots_copy_then_evict 7 Sample.aged_world)
    as (_ & Hcount & _ & _ & _ & _ & _ & _ & _ & Hagain).
  split.
  - subst first. rewrite Hcount. vm_compute. reflexivity.
  - subst first. apply (Hagain 7).
    intros k r Hr Hge. simpl in Hr.
    apply lookup_insert_Some in Hr as [[<- <-]|[_ Hr]].
    + vm_compute in Hge. exfalso. apply Hge. reflexivity.
    + apply lookup_singleton_Some in Hr as [<- <-].
      vm_compute. discriminate.
Defined.

(** ** The cheat sheet keeps the best price *)

Lemma Map_get_set_eq k v m :
  CheatSheetService.Map_get k (CheatSheetService.Map_set k v m) = Some v.
Proof.
  induction m as [|[k' v'] r IH]; simpl.
  - rewrite String.eqb_refl. reflexivity.
  - destruct (String.eqb k k') eqn:E; simpl.
    + rewrite String.eqb_refl. reflexivity.
    + rewrite E. exact IH.
Qed.

Lemma Map_get_set_ne k k' v m :
  k <> k' ->
  CheatSheetService.Map_get k' (CheatSheetService.Map_set k v m)
  = CheatSheetService.Map_get k' m.
Proof.
  intros Hne. induction m as [|[k0 v0] r IH]; simpl.
  - destruct (String.eqb k' k) eqn:E; [|reflexivity].
    apply String.eqb_eq in E. congruence.
  - destruct (String.eqb k k0) eqn:E; simpl.
    + apply String.eqb_eq in E. subst k0.
      destruct (String.eqb k' k) eqn:E'; [|reflexivity].
      apply String.eqb_eq in E'. congruence.
    + destruct (String.eqb k' k0); [reflexivity|exact IH].
Qed.

Lemma choose_other k k' c m :
  k <> k' ->
  CheatSheetService.Map_get k' (CheatSheetService.choose k c m)
  = CheatSheetService.Map_get k' m.
Proof.
  intros Hne. unfold CheatSheetService.choose.
  destruct (CheatSheetService.Map_get k m) as [e|].
  - destruct (CheatSheetService.bestPrice e) as [pe|],
             (CheatSheetService.bestPrice c) as [pc|];
      try reflexivity; try (apply Map_get_set_ne; exact Hne).
    destruct (Qlt_bool pe pc); [apply Map_get_set_ne; exact Hne|reflexivity].
  - apply Map_get_set_ne. exact Hne.
Qed.

Lemma choose_fresh k c m :
  CheatSheetService.Map_get k m = None ->
  CheatSheetService.Map_get k (CheatSheetService.choose k c m) = Some c.
Proof.
  intros Hk. unfold CheatSheetService.choose. rewrite Hk.
  apply Map_get_set_eq.
Qed.

Lemma choose_replaces k c m e :
  CheatSheetService.Map_get k m = Some e ->
  replaces e c ->
  CheatSheetService.choose k c m = CheatSheetService.Map_set k c m.
Proof.
  intros Hk Hr. unfold CheatSheetService.choose. rewrite Hk.
  unfold replaces in Hr.
  destruct (CheatSheetService.bestPrice e) as [pe|],
           (CheatSheetService.bestPrice c) as [pc|];
    try contradiction; try reflexivity.
  apply Qlt_bool_iff in Hr. rewrite Hr. reflexivity.
Qed.

Lemma choose_keeps k c m e :
  CheatSheetService.Map_get k m = Some e ->
  ~ replaces e c ->
  CheatSheetService.choose k c m = m.
Proof.
  intros Hk Hr. unfold CheatSheetService.choose. rewrite Hk.
  unfold replaces in Hr.
  destruct (CheatSheetService.bestPrice e) as [pe|],
           (CheatSheetService.bestPrice c) as [pc|];
    try reflexivity; try (exfalso; apply Hr; exact I).
  destruct (Qlt_bool pe pc) eqn:E; [|reflexivity].
  apply Qlt_bool_iff in E. contradiction.
Qed.

Lemma replaces_dec e c : {replaces e c} + {~ replaces e c}.
Proof.
  unfold replaces.
  destruct (CheatSheetService.bestPrice e) as [pe|],
           (CheatSheetService.bestPrice c) as [pc|]; auto.
  destruct (Qlt_le_dec pe pc) as [Hlt|Hle]; [left; exact Hlt|].
  right. intros Hlt. exact (Qlt_not_le _ _ Hlt Hle).
Qed.

Lemma replaces_trans a b c : replaces a b -> replaces b c -> replaces a c.
Proof.
  unfold replaces.
  destruct (CheatSheetService.bestPrice a) as [pa|],
           (CheatSheetService.bestPrice b) as [pb|],
           (CheatSheetService.bestPrice c) as [pc|]; try tauto.
  apply Qlt_trans.
Qed.

Lemma replaces_after a b c : ~ replaces a b -> replaces a c -> replaces b c.
Proof.
  unfold replaces.
  destruct (CheatSheetService.bestPrice a) as [pa|],
           (CheatSheetService.bestPrice b) as [pb|],
           (CheatSheetService.bestPrice c) as [pc|]; try tauto.
  intros Hn Hlt. apply Qle_lt_trans with pa; [|exact Hlt].
  apply Qnot_lt_le. exact Hn.
Qed.

(** The loops of the service are one fold of [choose] over the offers. *)
Lemma buildBestMap_offers `{JsBuiltins} (sport market : string)
    (events : list OddsEvent) :
  CheatSheetService.buildBestMap sport market events
  = fold_left (fun m kc => CheatSheetService.choose (fst kc) (snd kc) m)
              (offers sport market events) [].
Proof.
  unfold CheatSheetService.buildBestMap, offers.
  generalize (@nil (string * CheatSheetService.CheatSheetOutcome)) as m.
  induction events as [|ev evs IHe]; intros m; simpl; [reflexivity|].
  rewrite fold_left_app. rewrite <- IHe. f_equal.
  unfold CheatSheetService.addEvent.
  generalize (array_or_empty (e_bookmakers ev)) as bms. clear IHe.
  intros bms. revert m.
  induction bms as [|bm bms IHb]; intros m; simpl; [reflexivity|].
  rewrite fold_left_app. rewrite <- IHb. f_equal.
  unfold CheatSheetService.addBookmaker, offers_of_bookmaker.
  destruct (ArbitrageService.find_market market (array_or_empty (b_markets bm)))
    as [mo|]; [|reflexivity].
  generalize (array_or_empty (m_outcomes mo)) as outs. clear IHb.
  intros outs. revert m.
  induction outs as [|o outs IHo]; intros m; simpl; [reflexivity|].
  rewrite fold_left_app. rewrite <- IHo. f_equal.
  unfold CheatSheetService.addOutcome, offer.
  destruct (negb _ || negb _); reflexivity.
Qed.

(** The row kept for a key is an offer for that key; it replaces every
    earlier offer for the key and no later offer replaces it. *)
Lemma best_of_offers (l : list (string * CheatSheetService.CheatSheetOutcome)) :
  let m := fold_left (fun m kc => CheatSheetService.choose (fst kc) (snd kc) m) l [] in
  (forall k r, CheatSheetService.Map_get k m = Some r ->
     exists before after,
       l = before ++ (k, r) :: after
       /\ (forall c, (k, c) ∈ before -> replaces c r)
       /\ (forall c, (k, c) ∈ after -> ~ replaces r c))
  /\ (forall k, CheatSheetService.Map_get k m = None -> forall c, (k, c) ∉ l).
Proof.
  induction l as [|[k0 c0] l IH] using rev_ind; simpl.
  - split; [intros k r Hr; discriminate|].
    intros k _ c Hin. inversion Hin.
  - cbv zeta in *. rewrite fold_left_app. simpl.
    set (m := fold_left
                (fun m kc => CheatSheetService.choose (fst kc) (snd kc) m) l [])
      in *.
    destruct IH as [IHs IHn].
    split.
    + intros k r Hr. destruct (string_dec k0 k) as [->|Hne].
      * destruct (CheatSheetService.Map_get k m) as [e|] eqn:He.
        -- destruct (replaces_dec e c0) as [Hrep|Hkeep].
           ++ rewrite (choose_replaces _ _ _ _ He Hrep), Map_get_set_eq in Hr.
              injection Hr as <-.
              exists l, []. split; [reflexivity|]. split.
              ** intros c Hc.
                 destruct (IHs k e He) as (b & a & -> & Hb & Ha).
                 apply elem_of_app in Hc as [Hc|Hc].
                 { apply replaces_trans with e; [apply Hb; exact Hc|exact Hrep]. }
                 apply elem_of_cons in Hc as [Hc|Hc].
                 { injection Hc as ->. exact Hrep. }
                 apply replaces_after with e; [apply Ha; exact Hc|exact Hrep].
              ** intros c Hc. inversion Hc.
           ++ rewrite (choose_keeps _ _ _ _ He Hkeep), He in Hr.
              injection Hr as <-.
              destruct (IHs k e He) as (b & a & -> & Hb & Ha).
              exists b, (a ++ [(k, c0)]). split.
              ** rewrite <- app_assoc. reflexivity.
              ** split; [exact Hb|]. intros c Hc.
                 apply elem_of_app in Hc as [Hc|Hc]; [apply Ha; exact Hc|].
                 apply list_elem_of_singleton in Hc. injection Hc as ->.
                 exact Hkeep.
        -- rewrite (choose_fresh _ _ _ He) in Hr. injection Hr as <-.
           exists l, []. split; [reflexivity|]. split.
           ++ intros c Hc. exfalso. exact (IHn k He c Hc).
           ++ intros c Hc. inversion Hc.
      * rewrite (choose_other _ _ _ _ Hne) in Hr.
        destruct (IHs k r Hr) as (b & a & -> & Hb & Ha).
        exists b, (a ++ [(k0, c0)]). split.
        -- rewrite <- app_assoc. reflexivity.
        -- split; [exact Hb|]. intros c Hc.
           apply elem_of_app in Hc as [Hc|Hc]; [apply Ha; exact Hc|].
           apply list_elem_of_singleton in Hc. congruence.
    + intros k Hk c Hc. destruct (string_dec k0 k) as [->|Hne].
      * destruct (CheatSheetService.Map_get k m) as [e|] eqn:He.
        -- destruct (replaces_dec e c0) as [Hrep|Hkeep].
           ++ rewrite (choose_replaces _ _ _ _ He Hrep), Map_get_set_eq in Hk.
              discriminate.
           ++ rewrite (choose_keeps _ _ _ _ He Hkeep), He in Hk. discriminate.
        -- rewrite (choose_fresh _ _ _ He) in Hk. discriminate.
      * rewrite (choose_other _ _ _ _ Hne) in Hk.
        apply elem_of_app in Hc as [Hc|Hc]; [exact (IHn k Hk c Hc)|].
        apply list_elem_of_singleton in Hc. congruence.
Qed.

(** C6. For every key of the cheat sheet the row that is kept is the one
    with the best American price seen.  A candidate replaces the existing
    row of its key exactly when its price is strictly higher, or when it
    has a price and the existing row has none ([replaces]); otherwise, so
    on equal prices too, the map is left as it is.  Hence the row kept for
    a key is one of the rows offered for it, strictly better than every
    earlier offer for the key and not beaten by any later one, and its
    price is at least every price offered for the key. *)
Theorem cheat_sheet_keeps_best_price `{JsBuiltins} (sport market : string) :
  (forall key candidate bestMap existing,
     CheatSheetService.Map_get key bestMap = Some existing ->
     (replaces existing candidate ->
      CheatSheetService.Map_get key
        (CheatSheetService.choose key candidate bestMap) = Some candidate)
     /\ (~ replaces existing candidate ->
         CheatSheetService.choose key candidate bestMap = bestMap))
  /\ (forall events key row,
        CheatSheetService.Map_get key
          (CheatSheetService.buildBestMap sport market events) = Some row ->
        exists before after,
          offers sport market events = before ++ (key, row) :: after
          /\ (forall c, (key, c) ∈ before -> replaces c row)
          /\ (forall c, (key, c) ∈ after -> ~ replaces row c))
  /\ (forall events key row c p,
        CheatSheetService.Map_get key
          (CheatSheetService.buildBestMap sport market events) = Some row ->
        (key, c) ∈ offers sport market events ->
        CheatSheetService.bestPrice c = Some p ->
        exists q, CheatSheetService.bestPrice row = Some q /\ (p <= q)%Q)
  /\ (forall events key c,
        (key, c) ∈ offers sport market events ->
        exists row,
          CheatSheetService.Map_get key
            (CheatSheetService.buildBestMap sport market events) = Some row).
Proof.
  assert (Hglobal : forall events key row,
             CheatSheetService.Map_get key
               (CheatSheetService.buildBestMap sport market events) = Some row ->
             exists before after,
               offers sport market events = before ++ (key, row) :: after
               /\ (forall c, (key, c) ∈ before -> replaces c row)
               /\ (forall c, (key, c) ∈ after -> ~ replaces row c)).
  { intros events key row Hrow. rewrite buildBestMap_offers in Hrow.
    exact (proj1 (best_of_offers (offers sport market events)) key row Hrow). }
  split; [|split; [exact Hglobal|split]].
  - intros key candidate bestMap existing Hex. split.
    + intros Hrep. rewrite (choose_replaces _ _ _ _ Hex Hrep).
      apply Map_get_set_eq.
    + intros Hkeep. exact (choose_keeps _ _ _ _ Hex Hkeep).
  - intros events key row c p Hrow Hc Hp.
    destruct (Hglobal events key row Hrow) as (b & a & Heq & Hb & Ha).
    rewrite Heq in Hc. apply elem_of_app in Hc as [Hc|Hc].
    + specialize (Hb c Hc). unfold replaces in Hb. rewrite Hp in Hb.
      destruct (CheatSheetService.bestPrice row) as [q|]; [|contradiction].
      exists q. split; [reflexivity|]. apply Qlt_le_weak. exact Hb.
    + apply elem_of_cons in Hc as [Hc|Hc].
      * injection Hc as ->. exists p. split; [exact Hp|]. apply Qle_refl.
      * specialize (Ha c Hc). unfold replaces in Ha. rewrite Hp in Ha.
        destruct (CheatSheetService.bestPrice row) as [q|].
        -- exists q. split; [reflexivity|]. apply Qnot_lt_le. exact Ha.
        -- exfalso. apply Ha. exact I.
  - intros events key c Hc.
    destruct (CheatSheetService.Map_get key
                (CheatSheetService.buildBestMap sport market events))
      as [row|] eqn:Hrow; [exists row; reflexivity|].
    rewrite buildBestMap_offers in Hrow.
    exfalso.
    exact (proj2 (best_of_offers (offers sport market events)) key Hrow c Hc).
Qed.

Lemma cheat_sheet_keeps_best_price_witness :
  let events :=
    [Sample.game "g1"
       [Sample.book_of "fanduel" [Sample.outcome_of "Lakers" (-110)];
        Sample.book_of "draftkings" [Sample.outcome_of "Lakers" 105]]] in
  let key := "g1|Lakers|h2h|null" in
  exists row,
    CheatSheetService.Map_get key
      (@CheatSheetService.buildBestMap Sample.builtins "basketball_nba" "h2h" events)
    = Some row
    /\ CheatSheetService.bestPrice row = Some 105%Q
    /\ CheatSheetService.bestBookmaker row = Some "draftkings"
    /\ exists q, CheatSheetService.bestPrice row = Some q /\ (-110 <= q)%Q.
Proof.
  intros events key.
  pose (first := CheatSheetService.candidateOf
                   "basketball_nba" "h2h"
                   (Sample.game "g1"
                      [Sample.book_of "fanduel" [Sample.outcome_of "Lakers" (-110)];
                       Sample.book_of "draftkings" [Sample.outcome_of "Lakers" 105]])
                   (Some "fanduel") (Sample.outcome_of "Lakers" (-110))).
  destruct (CheatSheetService.Map_get key
              (@CheatSheetService.buildBestMap Sample.builtins
                 "basketball_nba" "h2h" events)) as [row|] eqn:Hrow;
    [|vm_compute in Hrow; discriminate Hrow].
  exists row. split; [reflexivity|].
  destruct (@cheat_sheet_keeps_best_price Sample.builtins "basketball_nba" "h2h")
    as (_ & _ & Hbest & _).
  pose proof (Hbest events key row first (-110)%Q Hrow) as Hq.
  vm_compute in Hrow. injection Hrow as <-.
  split; [reflexivity|]. split; [reflexivity|].
  apply Hq.
  - vm_compute. apply elem_of_cons. left. reflexivity.
  - reflexivity.
Defined.

(** ** Sorting *)

Section StableSortFacts.
Context {A : Type} (before : A -> A -> bool) (R : A -> A -> Prop).
Hypothesis R_trans : forall a b c, R a b -> R b c -> R a c.
Hypothesis before_R : forall y x, before y x = true -> R y x.
Hypothesis not_before_R : forall y x, before y x = false -> R x y.

Lemma insert_sorted_perm (x : A) (l : list A) :
  Permutation (insert_sorted before x l) (x :: l).
Proof.
  induction l as [|y r IH]; simpl; [reflexivity|].
  destruct (before y x); [|reflexivity].
  rewrite IH. apply perm_swap.
Qed.

Lemma stable_sort_perm (l : list A) : Permutation (stable_sort before l) l.
Proof.
  induction l as [|x r IH]; simpl; [reflexivity|].
  rewrite insert_sorted_perm. apply perm_skip. exact IH.
Qed.



End StableSortFacts.

(** ** Arbitrage *)





Lemma fold_left_invariant {A B : Type} (P : A -> Prop) (f : A -> B -> A)
    (l : list B) (a : A) :
  (forall a b, P a -> P (f a b)) -> P a -> P (fold_left f l a).
Proof.
  intros Hf. revert a. induction l as [|b r IH]; intros a Ha; simpl; auto.
Qed.












(** The quotes of the specification: -200 against +150 is no arbitrage. *)
Example no_arbitrage_when_sum_exceeds_one :
  emitted "basketball_nba" "h2h"
    [Sample.game "g1"
       [Sample.book_of "fanduel"
          [Sample.outcome_of "Lakers" (-200); Sample.outcome_of "Celtics" 150]]]
  = [].
Proof. vm_compute. reflexivity. Qed.

(** ** The ingestion loops *)

Lemma extend_nothing (w : World) : extend 0 [] w = w.
Proof. unfold extend. destruct w; simpl. rewrite app_nil_r. reflexivity. Qed.

Lemma apply_ops_app refuses (a b : list StoreOp) (s : Store) :
  apply_ops refuses (a ++ b) s = apply_ops refuses b (apply_ops refuses a s).
Proof. unfold apply_ops. apply fold_left_app. Qed.

Lemma extend_extend (k1 k2 : nat) (a b : list StoreOp) (w : World) :
  extend k2 b (extend k1 a w) = extend (k2 + k1) (a ++ b) w.
Proof.
  unfold extend. simpl. rewrite apply_ops_app, <- app_assoc.
  f_equal. lia.
Qed.

Lemma store_write_extend (op : StoreOp) (w : World) :
  store_write op w = (Returned tt, extend 0 [op] w).
Proof. reflexivity. Qed.

Lemma Date_now_extend (w : World) :
  Date_now w = (Returned (clock (env w) (clock_reads w)), extend 1 [] w).
Proof.
  unfold Date_now, tick, extend. simpl. rewrite app_nil_r. reflexivity.
Qed.

Lemma entity_trace_app (a b : list StoreOp) :
  entity_trace (a ++ b) = entity_trace a ++ entity_trace b.
Proof. unfold entity_trace. apply omap_app. Qed.

Lemma snapshot_ids_app (a b : list StoreOp) :
  snapshot_ids (a ++ b) = snapshot_ids a ++ snapshot_ids b.
Proof. unfold snapshot_ids. apply omap_app. Qed.

Lemma batch_ids_app (t i : Z) (n m : nat) :
  batch_ids t i (n + m) = batch_ids t i n ++ batch_ids t (i + Z.of_nat n) m.
Proof.
  unfold batch_ids. rewrite seq_app, map_app. f_equal. simpl.
  replace (seq n m) with (map (Nat.add n) (seq 0 m)).
  - rewrite map_map. apply map_ext. intros j. f_equal. lia.
  - pose proof (fmap_add_seq n 0 m) as Hs. rewrite Nat.add_0_r in Hs. exact Hs.
Qed.

Lemma for_of_follows_plan {X : Type} (t : Z) (body : Z -> X -> M Z)
    (F : X -> list StoreOp) (N : X -> nat) :
  follows_plan t body F N ->
  forall l i w, exists k ops,
    for_of body i l w = (Returned (i + Z.of_nat (total N l)), extend k ops w)
    /\ entity_trace ops = flat_map F l
    /\ snapshot_ids ops = batch_ids t i (total N l).
Proof.
  intros Hbody. induction l as [|x r IH]; intros i w; simpl.
  - exists 0%nat, []. unfold ret. rewrite extend_nothing, Z.add_0_r.
    repeat split; reflexivity.
  - destruct (Hbody i x w) as (k1 & ops1 & Hrun1 & He1 & Hs1).
    destruct (IH (i + Z.of_nat (N x)) (extend k1 ops1 w))
      as (k2 & ops2 & Hrun2 & He2 & Hs2).
    exists (k2 + k1)%nat, (ops1 ++ ops2).
    unfold bind. rewrite Hrun1, Hrun2, extend_extend.
    split; [f_equal; f_equal; lia|].
    split.
    + rewrite entity_trace_app, He1, He2. reflexivity.
    + rewrite snapshot_ids_app, Hs1, Hs2, batch_ids_app. reflexivity.
Qed.

Ltac step_write :=
  unfold bind at 1; rewrite store_write_extend; cbv beta iota.

(** Each loop body of the ingestion follows a plan that depends on the
    feed record only: neither on the state of the store, nor on the clock,
    nor on the sequence index it starts from. *)
Lemma outcome_plan `{JsBuiltins} :
  exists (F : string -> OddsOutcome -> list StoreOp),
  forall fmt t bookId marketId,
    follows_plan t (OddsIngestionService.ingestOutcome fmt t bookId marketId)
                 (F marketId) (fun _ => 1%nat).
Proof.
  exists (fun marketId out =>
            let outcomeName :=
              Str.or_else (Str.or_opt (o_name out) (o_description out)) "outcome" in
            [MarketSelectionSet
               (Ids.makeSelectionId marketId outcomeName (o_point out))
               {| sel_market_id := marketId; sel_label := outcomeName;
                  sel_player_id := "";
                  sel_line_value := default (Fin 0) (o_point out);
                  sel_side := outcomeName |}]).
  intros fmt t bookId marketId i out w.
  unfold OddsIngestionService.ingestOutcome.
  destruct (String.eqb (Str.or_else fmt "american") "decimal");
    step_write; step_write; unfold ret; rewrite extend_extend;
    eexists _, _; (split; [reflexivity|]);
    (split; [reflexivity|]);
    unfold batch_ids; simpl; rewrite Z.add_0_r; reflexivity.
Qed.

Lemma market_plan `{JsBuiltins} :
  exists (F : string -> string -> string -> option string -> FeedMarket
              -> list StoreOp),
  forall fmt t eventId bookId bookKey last_update,
    follows_plan t
      (OddsIngestionService.ingestMarket fmt t eventId bookId bookKey last_update)
      (F eventId bookId bookKey last_update)
      (fun mk => total (fun _ => 1%nat) (array_or_empty (m_outcomes mk))).
Proof.
  destruct outcome_plan as [Fo Ho].
  exists (fun eventId bookId bookKey last_update mk =>
            let marketKey := Str.or_else (m_key mk) "" in
            let marketId := Ids.makeMarketId eventId bookId marketKey in
            MarketSet marketId
              {| mkt_sport_event_id := eventId; mkt_key := marketKey;
                 mkt_label := marketKey;
                 mkt_metadata_bookmaker_key := bookKey;
                 mkt_metadata_last_update := last_update |}
            :: flat_map (Fo marketId) (array_or_empty (m_outcomes mk))).
  intros fmt t eventId bookId bookKey last_update i mk w.
  unfold OddsIngestionService.ingestMarket. step_write.
  match goal with
  | |- context [for_of ?body i ?l ?w'] =>
      destruct (for_of_follows_plan t body _ _
                  (Ho fmt t bookId
                      (Ids.makeMarketId eventId bookId (Str.or_else (m_key mk) "")))
                  l i w') as (k & ops & Hrun & He & Hs)
  end.
  rewrite Hrun, extend_extend.
  eexists _, _. split; [reflexivity|]. split.
  - rewrite entity_trace_app, He. reflexivity.
  - rewrite snapshot_ids_app, Hs. reflexivity.
Qed.

Lemma bookmaker_plan `{JsBuiltins} :
  exists (F : string -> Bookmaker -> list StoreOp) (N : Bookmaker -> nat),
  forall fmt t eventId,
    follows_plan t (OddsIngestionService.ingestBookmaker fmt t eventId)
                 (F eventId) N.
Proof.
  destruct market_plan as [Fm Hm].
  exists (fun eventId bm =>
            let bookKey :=
              Str.or_else (Str.or_opt (b_key bm) (b_title bm)) "unknown" in
            let bookId := Ids.makeSportsbookId bookKey in
            SportsbookSet bookId
              {| book_name := Str.or_else (b_title bm) bookKey;
                 book_code := bookKey; book_base_url := "" |}
            :: flat_map (Fm eventId bookId bookKey (b_last_update bm))
                        (array_or_empty (b_markets bm))),
         (fun bm =>
            total (fun mk => total (fun _ => 1%nat) (array_or_empty (m_outcomes mk)))
                  (array_or_empty (b_markets bm))).
  intros fmt t eventId i bm w.
  unfold OddsIngestionService.ingestBookmaker. step_write.
  match goal with
  | |- context [for_of ?body i ?l ?w'] =>
      destruct (for_of_follows_plan t body _ _
                  (Hm fmt t eventId _ _ (b_last_update bm)) l i w')
        as (k & ops & Hrun & He & Hs)
  end.
  rewrite Hrun, extend_extend.
  eexists _, _. split; [reflexivity|]. split.
  - rewrite entity_trace_app, He. reflexivity.
  - rewrite snapshot_ids_app, Hs. reflexivity.
Qed.

Lemma event_plan `{JsBuiltins} :
  exists (F : string -> Z -> OddsEvent -> list StoreOp) (N : OddsEvent -> nat),
  forall sportKey sportId fmt t,
    follows_plan t (OddsIngestionService.ingestEvent sportKey sportId fmt t)
                 (F sportKey sportId) N.
Proof.
  destruct bookmaker_plan as (Fb & Nb & Hb).
  exists (fun sportKey sportId evt =>
            let externalEventId := Str.or_else (e_id evt) "" in
            let eventId := Ids.makeEventId externalEventId in
            let homeName := Str.or_else (e_home_team evt) "" in
            let awayName := Str.or_else (e_away_team evt) "" in
            let homeId := Ids.makeTeamId sportId homeName in
            let awayId := Ids.makeTeamId sportId awayName in
            [TeamSetOnInsert homeId (OddsIngestionService.teamRow sportId homeName);
             TeamSetOnInsert awayId (OddsIngestionService.teamRow sportId awayName);
             SportEventSet eventId
               {| ev_sport_id := sportId; ev_league_code := sportKey;
                  ev_home_team_id := homeId; ev_away_team_id := awayId;
                  ev_starts_at := match truthy (e_commence_time evt) with
                                  | Some t => DateOfString t
                                  | None => DateOfMillis 0
                                  end;
                  ev_status := "scheduled";
                  ev_external_ref := externalEventId |}]
            ++ flat_map (Fb eventId) (array_or_empty (e_bookmakers evt))),
         (fun evt => total Nb (array_or_empty (e_bookmakers evt))).
  intros sportKey sportId fmt t i evt w.
  unfold OddsIngestionService.ingestEvent. step_write. step_write.
  rewrite extend_extend.
  destruct (truthy (e_commence_time evt)) as [c|].
  - unfold bind at 1. unfold ret at 1. step_write. rewrite extend_extend.
    match goal with
    | |- context [for_of ?body i ?l ?w'] =>
        destruct (for_of_follows_plan t body _ _ (Hb fmt t _) l i w')
          as (k & ops & Hrun & He & Hs)
    end.
    rewrite Hrun, extend_extend.
    eexists _, _. split; [reflexivity|]. split.
    + rewrite entity_trace_app, He. reflexivity.
    + rewrite snapshot_ids_app, Hs. reflexivity.
  - unfold bind at 1. unfold bind at 1. rewrite Date_now_extend.
    unfold ret at 1. cbv beta iota. rewrite extend_extend.
    step_write. rewrite extend_extend.
    match goal with
    | |- context [for_of ?body i ?l ?w'] =>
        destruct (for_of_follows_plan t body _ _ (Hb fmt t _) l i w')
          as (k & ops & Hrun & He & Hs)
    end.
    rewrite Hrun, extend_extend.
    eexists _, _. split; [reflexivity|]. split.
    + rewrite entity_trace_app, He. reflexivity.
    + rewrite snapshot_ids_app, Hs. reflexivity.
Qed.

(** ** Writing the same entities twice *)

Lemma entity_trace_entity (ops : list StoreOp) :
  Forall is_entity_op (entity_trace ops).
Proof.
  induction ops as [|op r IH]; simpl; [constructor|].
  unfold entity_trace in *. simpl.
  destruct op; simpl; try exact IH; constructor; simpl; auto.
Qed.

Lemma entities_apply_op refuses (op : StoreOp) (s : Store) :
  entities (apply_op refuses op s)
  = match entity_write op with
    | Some op' => apply_op refuses op' (entities s)
    | None => entities s
    end.
Proof.
  destruct op; simpl; unfold entities; simpl; try reflexivity.
  rewrite fmap_insert. reflexivity.
Qed.

Lemma entities_apply_ops refuses (ops : list StoreOp) (s : Store) :
  entities (apply_ops refuses ops s)
  = apply_ops refuses (entity_trace ops) (entities s).
Proof.
  revert s. induction ops as [|op r IH]; intros s; [reflexivity|].
  unfold apply_ops, entity_trace in *. simpl.
  rewrite IH, entities_apply_op.
  destruct (entity_write op); reflexivity.
Qed.

Lemma setOnInsert_union `{Countable K} {V : Type} (k : K) (v : V) (m : gmap K V) :
  setOnInsert k v m = m ∪ {[k := v]}.
Proof.
  apply map_eq. intros j. rewrite lookup_setOnInsert, lookup_union.
  destruct (m !! j) eqn:E; simpl.
  - destruct ({[k := v]} !! j); reflexivity.
  - rewrite lookup_singleton. case_decide; reflexivity.
Qed.

Lemma overlay_apply_op refuses (op : StoreOp) (d s : Store) :
  is_entity_op op ->
  overlay d (apply_op refuses op s)
  = overlay (overlay d (apply_op refuses op empty_store)) s.
Proof.
  intros Hop. destruct op; simpl in Hop; try contradiction;
    unfold overlay; simpl; f_equal;
    rewrite ?setOnInsert_union, ?insert_union_singleton_l,
            ?(left_id_L ∅ (∪)), ?(right_id_L ∅ (∪)), ?(assoc_L (∪));
    reflexivity.
Qed.

Lemma apply_ops_overlay refuses (ops : list StoreOp) :
  Forall is_entity_op ops ->
  forall s, apply_ops refuses ops s
            = overlay (apply_ops refuses ops empty_store) s.
Proof.
  intros Hops.
  assert (Hgen : forall d s,
             overlay d (apply_ops refuses ops s)
             = overlay (overlay d (apply_ops refuses ops empty_store)) s).
  { induction Hops as [|op r Hop Hr IH]; intros d s.
    - unfold apply_ops, overlay; simpl. f_equal;
        rewrite ?(left_id_L ∅ (∪)), ?(right_id_L ∅ (∪)); reflexivity.
    - change (apply_ops refuses (op :: r) s)
        with (apply_ops refuses r (apply_op refuses op s)).
      change (apply_ops refuses (op :: r) empty_store)
        with (apply_ops refuses r (apply_op refuses op empty_store)).
      rewrite IH. rewrite (IH d (apply_op refuses op empty_store)).
      rewrite overlay_apply_op by exact Hop.
      rewrite (overlay_apply_op refuses op
                 (overlay d (apply_ops refuses r empty_store)) empty_store)
        by exact Hop.
      unfold overlay; simpl. f_equal;
        rewrite ?(left_id_L ∅ (∪)), ?(right_id_L ∅ (∪)), ?(assoc_L (∪));
        reflexivity. }
  assert (Hid : forall x, overlay empty_store x = x).
  { intros [? ? ? ? ? ? ? ?]. unfold overlay; simpl. f_equal;
      rewrite ?(left_id_L ∅ (∪)), ?(right_id_L ∅ (∪)); reflexivity. }
  intros s. rewrite <- (Hid (apply_ops refuses ops s)), Hgen, Hid. reflexivity.
Qed.

Lemma apply_entities_twice refuses (ops : list StoreOp) (s : Store) :
  Forall is_entity_op ops ->
  apply_ops refuses ops (apply_ops refuses ops s) = apply_ops refuses ops s.
Proof.
  intros Hops.
  rewrite (apply_ops_overlay refuses ops Hops (apply_ops refuses ops s)).
  rewrite (apply_ops_overlay refuses ops Hops s).
  unfold overlay; simpl. f_equal.
  - rewrite <- (assoc_L (∪)). f_equal. apply (idemp (∪)).
  - rewrite <- (assoc_L (∪)). f_equal. apply (idemp (∪)).
  - rewrite (assoc_L (∪)). f_equal. apply (idemp (∪)).
  - rewrite (assoc_L (∪)). f_equal. apply (idemp (∪)).
  - rewrite (assoc_L (∪)). f_equal. apply (idemp (∪)).
  - rewrite (assoc_L (∪)). f_equal. apply (idemp (∪)).
Qed.

Lemma getOdds_same_env (params : GetOddsParams) (wa wb : World) :
  env wa = env wb ->
  fst (OddsApiService.getOdds params wa) = fst (OddsApiService.getOdds params wb).
Proof.
  intros Henv. unfold OddsApiService.getOdds. run_monad. simpl.
  rewrite Henv.
  destruct (Str.nonempty (OddsApiService.apiKeyOf (env wb))); simpl; [|reflexivity].
  destruct (existsb _ _); simpl; [reflexivity|].
  destruct (upstream (env wb) _); reflexivity.
Qed.

(** One run of [refreshOdds]: its writes to the entity collections are a
    function of the parameters and of the answer of the feed; the
    snapshots it writes carry the ids of its batch, from index 0 on. *)
Lemma refreshOdds_effect `{JsBuiltins} :
  exists (F : string -> Z -> OddsEvent -> list StoreOp) (N : OddsEvent -> nat),
  forall (params : OddsIngestionService.RefreshParams) (w : World),
    let sportId := Ids.makeSportIdFromKey (OddsIngestionService.sportKey params) in
    let feed := fst (OddsApiService.getOdds
                       {| sport := OddsIngestionService.sportKey params;
                          regions := OddsIngestionService.rp_regions params;
                          markets := OddsIngestionService.rp_markets params;
                          oddsFormat := OddsIngestionService.rp_oddsFormat params |}
                       w) in
    let events := ingested_events feed in
    let run := OddsIngestionService.refreshOdds params w in
    exists ops,
      store_ops (snd run) = store_ops w ++ ops
      /\ store (snd run) = apply_ops (archive_refuses (env w)) ops (store w)
      /\ env (snd run) = env w
      /\ entity_trace ops
         = SportSetOnInsert sportId
             {| sport_name := OddsIngestionService.sportKey params;
                sport_key := OddsIngestionService.sportKey params |}
           :: flat_map (F (OddsIngestionService.sportKey params) sportId) events
      /\ snapshot_ids ops
         = batch_ids (clock (env w) (clock_reads w)) 0 (total N events)
      /\ fst run
         = match feed with
           | Returned res =>
               Returned
                 {| OddsIngestionService.ingestedSnapshots :=
                      Z.of_nat (total N events);
                    OddsIngestionService.rr_remaining := remaining res |}
           | Thrown e => Thrown e
           end.
Proof.
  destruct event_plan as (F & N & Hplan). exists F, N.
  intros params w sportId feed events run.
  set (prm := {| sport := OddsIngestionService.sportKey params;
                 regions := OddsIngestionService.rp_regions params;
                 markets := OddsIngestionService.rp_markets params;
                 oddsFormat := OddsIngestionService.rp_oddsFormat params |}) in *.
  set (op := SportSetOnInsert sportId
               {| sport_name := OddsIngestionService.sportKey params;
                  sport_key := OddsIngestionService.sportKey params |}).
  set (w1 := extend 1 [op] w).
  assert (Hrun : run
                 = (let* res := OddsApiService.getOdds prm in
                    match truthy (warning res) with
                    | Some warning =>
                        let* _ := logger LogWarn
                                    ("Odds ingestion skipped: " +:+ warning) in
                        ret {| OddsIngestionService.ingestedSnapshots := 0;
                               OddsIngestionService.rr_remaining := remaining res |}
                    | None =>
                        let* snapshotIndex :=
                          for_of (OddsIngestionService.ingestEvent
                                    (OddsIngestionService.sportKey params) sportId
                                    (OddsIngestionService.rp_oddsFormat params)
                                    (clock (env w) (clock_reads w)))
                                 0 (Payload_events (data res)) in
                        ret {| OddsIngestionService.ingestedSnapshots := snapshotIndex;
                               OddsIngestionService.rr_remaining := remaining res |}
                    end) w1).
  { subst run. unfold OddsIngestionService.refreshOdds.
    unfold bind at 1. rewrite Date_now_extend. cbv beta iota.
    step_write. rewrite extend_extend. reflexivity. }
  clearbody run.
  pose proof (getOdds_store_frame prm w1) as (Hfs & Hfo & Hfc & Hfe).
  assert (Hfeed : fst (OddsApiService.getOdds prm w1) = feed)
    by (apply getOdds_same_env; reflexivity).
  destruct (OddsApiService.getOdds prm w1) as [[res|e] wg] eqn:Hg;
    simpl in Hfs, Hfo, Hfc, Hfe, Hfeed.
  - subst events. rewrite <- Hfeed. simpl.
    destruct (truthy (warning res)) as [text|] eqn:Hw.
    + assert (Hval : run
                     = (Returned
                          {| OddsIngestionService.ingestedSnapshots := 0;
                             OddsIngestionService.rr_remaining := remaining res |},
                        snd (logger LogWarn
                               ("Odds ingestion skipped: " +:+ text) wg))).
      { rewrite Hrun. unfold bind at 1. rewrite Hg, Hw. reflexivity. }
      rewrite Hval. simpl.
      exists [op]. rewrite Hfo, Hfs, Hfe. repeat split; reflexivity.
    + destruct (for_of_follows_plan (clock (env w) (clock_reads w)) _ _ _
                  (Hplan (OddsIngestionService.sportKey params) sportId
                         (OddsIngestionService.rp_oddsFormat params)
                         (clock (env w) (clock_reads w)))
                  (Payload_events (data res)) 0 wg)
        as (k & ops & Hloop & He & Hs).
      assert (Hval : run
                     = (Returned
                          {| OddsIngestionService.ingestedSnapshots :=
                               Z.of_nat (total N (Payload_events (data res)));
                             OddsIngestionService.rr_remaining := remaining res |},
                        extend k ops wg)).
      { rewrite Hrun. unfold bind at 1. rewrite Hg, Hw.
        unfold bind. rewrite Hloop. reflexivity. }
      rewrite Hval. simpl.
      exists (op :: ops). rewrite Hfo, Hfs, Hfe. simpl.
      split; [rewrite <- app_assoc; reflexivity|].
      split; [reflexivity|]. split; [reflexivity|].
      split; [unfold entity_trace in *; simpl; rewrite He; reflexivity|].
      split; [unfold snapshot_ids in *; simpl; rewrite Hs; reflexivity|].
      reflexivity.
  - subst events. rewrite <- Hfeed. simpl.
    assert (Hval : run = (Thrown e, wg)).
    { rewrite Hrun. unfold bind at 1. rewrite Hg. reflexivity. }
    rewrite Hval. simpl.
    exists [op]. rewrite Hfo, Hfs, Hfe. repeat split; reflexivity.
Qed.

(** ** Snapshot ids *)

Lemma elem_of_batch_ids (t i : Z) (n : nat) (id : Z) :
  id ∈ batch_ids t i n
  <-> exists j, (j < n)%nat /\ id = Ids.makeOddsSnapshotId t (i + Z.of_nat j).
Proof.
  unfold batch_ids. rewrite list_elem_of_In, in_map_iff. split.
  - intros (j & <- & Hj). apply in_seq in Hj. exists j. split; [lia|reflexivity].
  - intros (j & Hj & ->). exists j. split; [reflexivity|]. apply in_seq. lia.
Qed.

Lemma NoDup_batch_ids (t i : Z) (n : nat) : NoDup (batch_ids t i n).
Proof.
  unfold batch_ids.
  assert (Hinj : Inj (=) (=)
                   (fun j : nat => Ids.makeOddsSnapshotId t (i + Z.of_nat j))).
  { intros j j' Heq. unfold Ids.makeOddsSnapshotId in Heq. lia. }
  apply (NoDup_fmap_2 _). apply NoDup_seq.
Qed.

Lemma written_by_app (w w' : World) (ops : list StoreOp) :
  store_ops w' = store_ops w ++ ops -> written_by w w' = ops.
Proof. intros Heq. unfold written_by. rewrite Heq. apply drop_app_length. Qed.

(** C8. Within one ingestion batch the snapshot ids, computed as
    [batchEpochMs * 1000 + index] from zero-based indices, are pairwise
    distinct; ids of two batches with different batch times do not collide
    as long as the indices of both stay below 1000; and the snapshots one
    call of [refreshOdds] writes carry exactly the ids of its batch for the
    indices [0 .. n-1], [n] being the number of snapshots it reports. *)
Theorem snapshot_ids_within_and_across_batches `{JsBuiltins} :
  (forall b i j, i <> j ->
     Ids.makeOddsSnapshotId b i <> Ids.makeOddsSnapshotId b j)
  /\ (forall b1 b2 i j,
        b1 <> b2 -> 0 <= i < 1000 -> 0 <= j < 1000 ->
        Ids.makeOddsSnapshotId b1 i <> Ids.makeOddsSnapshotId b2 j)
  /\ (forall (params : OddsIngestionService.RefreshParams) (w : World),
        let run := OddsIngestionService.refreshOdds params w in
        let ids := snapshot_ids (written_by w (snd run)) in
        NoDup ids
        /\ exists n : nat,
             ids = batch_ids (clock (env w) (clock_reads w)) 0 n
             /\ forall r, fst run = Returned r ->
                          OddsIngestionService.ingestedSnapshots r = Z.of_nat n).
Proof.
  split; [|split].
  - intros b i j Hij. unfold Ids.makeOddsSnapshotId. lia.
  - intros b1 b2 i j Hb Hi Hj. unfold Ids.makeOddsSnapshotId. lia.
  - destruct refreshOdds_effect as (F & N & Heff).
    intros params w run ids.
    destruct (Heff params w) as (ops & Hops & _ & _ & _ & Hids & Hres).
    subst ids run. rewrite (written_by_app _ _ _ Hops), Hids.
    split; [apply NoDup_batch_ids|].
    eexists. split; [reflexivity|].
    intros r Hr. rewrite Hr in Hres.
    destruct (fst (OddsApiService.getOdds _ w)) as [res|e]; [|discriminate].
    injection Hres as ->. reflexivity.
Qed.

Lemma snapshot_ids_within_and_across_batches_witness :
  Ids.makeOddsSnapshotId 1700000000000 0 <> Ids.makeOddsSnapshotId 1700000000000 1
  /\ Ids.makeOddsSnapshotId 1700000000000 999
     <> Ids.makeOddsSnapshotId 1700000000001 0.
Proof.
  destruct (@snapshot_ids_within_and_across_batches Sample.builtins)
    as (Hin & Hacross & _).
  split.
  - apply Hin. discriminate.
  - apply Hacross; [discriminate|lia|lia].
Defined.

(** ** Running the ingestion twice *)

(** C2 (amended). Two runs of [refreshOdds] with the same parameters, the
    second from the world the first has left, against an upstream that
    answers both alike: the second run returns what the first returned and
    writes the same rows under the same identifiers to Sport, Team,
    SportEvent, Sportsbook, Market and MarketSelection (ingestion time left
    out), so that the six collections are the same after the second run as
    after the first; the snapshot ids of each run are pairwise distinct;
    and the ids of the two runs are disjoint provided the number [n] of
    snapshots of a run is at most 1000 times the distance of the two batch
    times in milliseconds (so, for different batch times, whenever a run
    writes at most 1000 snapshots). *)
Theorem refreshOdds_twice `{JsBuiltins}
    (params : OddsIngestionService.RefreshParams) (w0 : World) :
  let run1 := OddsIngestionService.refreshOdds params w0 in
  let w1 := snd run1 in
  let run2 := OddsIngestionService.refreshOdds params w1 in
  let w2 := snd run2 in
  let t1 := clock (env w0) (clock_reads w0) in
  let t2 := clock (env w1) (clock_reads w1) in
  let ops1 := written_by w0 w1 in
  let ops2 := written_by w1 w2 in
  let n := length (snapshot_ids ops1) in
  store_ops w1 = store_ops w0 ++ ops1
  /\ store_ops w2 = store_ops w1 ++ ops2
  /\ fst run2 = fst run1
  /\ entity_trace ops2 = entity_trace ops1
  /\ entities (store w2) = entities (store w1)
  /\ snapshot_ids ops1 = batch_ids t1 0 n
  /\ snapshot_ids ops2 = batch_ids t2 0 n
  /\ (forall r, fst run1 = Returned r ->
                OddsIngestionService.ingestedSnapshots r = Z.of_nat n)
  /\ NoDup (snapshot_ids ops1)
  /\ NoDup (snapshot_ids ops2)
  /\ (Z.of_nat n <= 1000 * Z.abs (t2 - t1) ->
      forall id, id ∈ snapshot_ids ops1 -> id ∉ snapshot_ids ops2)
  /\ (t1 <> t2 -> (n <= 1000)%nat ->
      forall id, id ∈ snapshot_ids ops1 -> id ∉ snapshot_ids ops2).
Proof.
  intros run1 w1 run2 w2 t1 t2 ops1 ops2 n.
  destruct refreshOdds_effect as (F & N & Heff).
  destruct (Heff params w0) as (o1 & Hso1 & Hst1 & Henv1 & He1 & Hid1 & Hr1).
  destruct (Heff params w1) as (o2 & Hso2 & Hst2 & Henv2 & He2 & Hid2 & Hr2).
  fold run1 in Hso1, Hst1, Henv1, Hr1. fold w1 in Hso1, Hst1, Henv1.
  fold run2 in Hso2, Hst2, Henv2, Hr2. fold w2 in Hso2, Hst2, Henv2.
  fold t1 in Hid1. fold t2 in Hid2.
  assert (Hfeed : fst (OddsApiService.getOdds
                         {| sport := OddsIngestionService.sportKey params;
                            regions := OddsIngestionService.rp_regions params;
                            markets := OddsIngestionService.rp_markets params;
                            oddsFormat := OddsIngestionService.rp_oddsFormat params |}
                         w1)
                  = fst (OddsApiService.getOdds
                           {| sport := OddsIngestionService.sportKey params;
                              regions := OddsIngestionService.rp_regions params;
                              markets := OddsIngestionService.rp_markets params;
                              oddsFormat := OddsIngestionService.rp_oddsFormat params |}
                           w0))
    by (apply getOdds_same_env; exact Henv1).
  rewrite Hfeed in He2, Hid2, Hr2.
  assert (Ho1 : ops1 = o1) by (apply written_by_app; exact Hso1).
  assert (Ho2 : ops2 = o2) by (apply written_by_app; exact Hso2).
  assert (Hn : n = total N
                     (ingested_events
                        (fst (OddsApiService.getOdds
                                {| sport := OddsIngestionService.sportKey params;
                                   regions := OddsIngestionService.rp_regions params;
                                   markets := OddsIngestionService.rp_markets params;
                                   oddsFormat :=
                                     OddsIngestionService.rp_oddsFormat params |}
                                w0)))).
  { unfold n. rewrite Ho1, Hid1. unfold batch_ids.
    rewrite length_map, length_seq. reflexivity. }
  rewrite <- Hn in Hid1, Hid2, Hr1, Hr2.
  rewrite Ho1, Ho2.
  split; [exact Hso1|]. split; [exact Hso2|].
  split; [rewrite Hr1, Hr2; reflexivity|].
  split; [rewrite He1, He2; reflexivity|].
  split.
  { rewrite Hst2, Hst1, Henv1, !entities_apply_ops, He2, <- He1.
    apply apply_entities_twice. apply entity_trace_entity. }
  split; [exact Hid1|]. split; [exact Hid2|].
  split.
  { intros r Hr. rewrite Hr in Hr1.
    destruct (fst (OddsApiService.getOdds _ w0)) as [res|e]; [|discriminate].
    injection Hr1 as ->. reflexivity. }
  split; [rewrite Hid1; apply NoDup_batch_ids|].
  split; [rewrite Hid2; apply NoDup_batch_ids|].
  assert (Hfar : Z.of_nat n <= 1000 * Z.abs (t2 - t1) ->
                 forall id, id ∈ snapshot_ids o1 -> id ∉ snapshot_ids o2).
  { intros Hfar id Hin1 Hin2. rewrite Hid1 in Hin1. rewrite Hid2 in Hin2.
    apply elem_of_batch_ids in Hin1 as (j1 & Hj1 & ->).
    apply elem_of_batch_ids in Hin2 as (j2 & Hj2 & Heq).
    unfold Ids.makeOddsSnapshotId in Heq. lia. }
  split; [exact Hfar|].
  intros Hne Hn1000. apply Hfar. lia.
Qed.

Lemma refreshOdds_twice_witness :
  let events :=
    [Sample.game "g1"
       [Sample.book_of "fanduel"
          [Sample.outcome_of "Lakers" 150; Sample.outcome_of "Celtics" (-200)]]] in
  let w0 := Sample.fresh (Sample.env_serving events 1700000000000 1) in
  let params := {| OddsIngestionService.sportKey := "basketball_nba";
                   OddsIngestionService.rp_regions := None;
                   OddsIngestionService.rp_markets := Some ["h2h"];
                   OddsIngestionService.rp_oddsFormat := None |} in
  let w1 := snd (@OddsIngestionService.refreshOdds Sample.builtins params w0) in
  let w2 := snd (@OddsIngestionService.refreshOdds Sample.builtins params w1) in
  snapshot_ids (written_by w0 w1) = [1700000000000000; 1700000000000001]
  /\ snapshot_ids (written_by w1 w2) = [1700000000001000; 1700000000001001]
  /\ forall id, id ∈ snapshot_ids (written_by w0 w1) ->
                id ∉ snapshot_ids (written_by w1 w2).
Proof.
  intros events w0 params w1 w2.
  destruct (@refreshOdds_twice Sample.builtins params w0)
    as (_ & _ & _ & _ & _ & _ & _ & _ & _ & _ & Hdisjoint & _).
  split; [vm_compute; reflexivity|].
  split; [vm_compute; reflexivity|].
  apply Hdisjoint. vm_compute. discriminate.
Defined.

(** C2, as stated, fails: when the clock reads the same millisecond at the
    start of both runs, the second run produces the snapshot id of the
    first, and the hot table holds one snapshot after two runs. *)
Lemma same_millisecond_same_snapshot_ids :
  let events :=
    [Sample.game "g1" [Sample.book_of "fanduel" [Sample.outcome_of "Lakers" 150]]] in
  let w0 := Sample.fresh (Sample.env_serving events 1700000000000 0) in
  let params := {| OddsIngestionService.sportKey := "basketball_nba";
                   OddsIngestionService.rp_regions := None;
                   OddsIngestionService.rp_markets := Some ["h2h"];
                   OddsIngestionService.rp_oddsFormat := None |} in
  let run1 := @OddsIngestionService.refreshOdds Sample.builtins params w0 in
  let run2 := @OddsIngestionService.refreshOdds Sample.builtins params (snd run1) in
  OddsIngestionService.ingestedSnapshots <$> returned (fst run1) = Some 1
  /\ OddsIngestionService.ingestedSnapshots <$> returned (fst run2) = Some 1
  /\ snapshot_ids (written_by w0 (snd run1)) = [1700000000000000]
  /\ snapshot_ids (written_by (snd run1) (snd run2)) = [1700000000000000]
  /\ size (snapshots (store (snd run2))) = 1%nat.
Proof.
  vm_compute. repeat split; reflexivity.
Qed.

(** ** Identifiers on concrete keys *)

Example slug_of_a_team_name :
  Ids.slug "  Los Angeles   Lakers! " = "los-angeles-lakers".
Proof. vm_compute. reflexivity. Qed.

Example makeTeamId_is_stable :
  Ids.makeTeamId 1 "Los Angeles Lakers" = "team:1:los-angeles-lakers".
Proof. vm_compute. reflexivity. Qed.

Example makeSportIdFromKey_basketball :
  Ids.makeSportIdFromKey "basketball_nba" = 1530504525.
Proof. vm_compute. reflexivity. Qed.

Example makeMarketId_of_keys :
  Ids.makeMarketId (Ids.makeEventId "G1") (Ids.makeSportsbookId "FanDuel") "H2H"
  = "mkt:evt:g1:book:fanduel:h2h".
Proof. vm_compute. reflexivity. Qed.

(* ===================================================================== *)
(** * Further properties of the code                                       *)
(* ===================================================================== *)

(** ** Footprints *)

#[local] Instance read_only_preorder : PreOrder read_only.
Proof.
  split.
  - intros w. unfold read_only. repeat split; reflexivity.
  - intros a b c (H1 & H2 & H3 & H4 & H5 & H6 & H7)
                 (G1 & G2 & G3 & G4 & G5 & G6 & G7).
    unfold read_only. repeat split; try congruence; etrans; eassumption.
Qed.

Section Preserves.
Context (R : World -> World -> Prop) `{!PreOrder R}.

Lemma preserves_ret {A : Type} (a : A) : preserves R (ret a).
Proof. intros w. simpl. reflexivity. Qed.

Lemma preserves_throw {A : Type} (e : JsError) : preserves R (@throw A e).
Proof. intros w. simpl. reflexivity. Qed.

Lemma preserves_bind {A B : Type} (m : M A) (k : A -> M B) :
  preserves R m -> (forall a, preserves R (k a)) -> preserves R (bind m k).
Proof.
  intros Hm Hk w. unfold bind. specialize (Hm w).
  destruct (m w) as [[a|e] w1]; simpl in *; [|exact Hm].
  etrans; [exact Hm|apply Hk].
Qed.

Lemma preserves_try_catch {A : Type} (m : M A) (h : JsError -> M A) :
  preserves R m -> (forall e, preserves R (h e)) -> preserves R (try_catch m h).
Proof.
  intros Hm Hh w. unfold try_catch. specialize (Hm w).
  destruct (m w) as [[a|e] w1]; simpl in *; [exact Hm|].
  etrans; [exact Hm|apply Hh].
Qed.

Lemma preserves_for_of {A S : Type} (body : S -> A -> M S) :
  (forall s x, preserves R (body s x)) ->
  forall l s, preserves R (for_of body s l).
Proof.
  intros Hb l. induction l as [|x l IH]; intros s; simpl.
  - apply preserves_ret.
  - apply preserves_bind; [apply Hb|intros s'; apply IH].
Qed.

End Preserves.

Lemma logger_read_only lvl msg : preserves read_only (logger lvl msg).
Proof.
  intros w. unfold read_only. simpl.
  repeat split; try reflexivity. apply prefix_app_r. reflexivity.
Qed.

(** ** The feed client *)

Ltac feed_goal :=
  unfold feed_footprint, read_only; simpl;
  repeat match goal with
         | |- _ /\ _ => split
         | |- _ `prefix_of` _ ++ _ => apply prefix_app_r
         | |- ?l `prefix_of` ?l => reflexivity
         | |- ?a = ?a => reflexivity
         end.

Ltac no_request Hk :=
  exists []; rewrite app_nil_r;
  repeat split; [apply Nat.le_0_l|constructor|idtac..];
  try (intros Hnone; rewrite Hnone in Hk; discriminate).

Ltac one_request Hk :=
  eexists [_]; repeat split;
  [apply Nat.le_refl
  |constructor; [eexists; reflexivity|constructor]
  |intros Hnone; rewrite Hnone in Hk; discriminate].

Lemma getOdds_footprint (p : GetOddsParams) (w : World) :
  feed_footprint (CallGetOdds p) w (OddsApiService.getOdds p w).
Proof.
  unfold OddsApiService.getOdds. run_monad. simpl.
  destruct (Str.nonempty (OddsApiService.apiKeyOf (env w))) eqn:Hk; simpl.
  - destruct (existsb _ _); simpl.
    + feed_goal; [no_request Hk|eexists; reflexivity].
    + destruct (upstream (env w) _) as [e|d n]; simpl; feed_goal;
        first [one_request Hk|eexists; reflexivity].
  - feed_goal. exists []. rewrite app_nil_r.
    repeat split; [apply Nat.le_0_l|constructor].
Qed.

Lemma getSports_footprint (w : World) :
  feed_footprint CallGetSports w (OddsApiService.getSports w).
Proof.
  unfold OddsApiService.getSports. run_monad. simpl.
  destruct (Str.nonempty (OddsApiService.apiKeyOf (env w))) eqn:Hk; simpl.
  - destruct (upstream (env w) _) as [e|d n]; simpl; feed_goal;
      first [one_request Hk|eexists; reflexivity].
  - feed_goal. exists []. rewrite app_nil_r.
    repeat split; [apply Nat.le_0_l|constructor].
Qed.

Lemma getEvents_footprint (sport : string) (w : World) :
  feed_footprint (CallGetEvents sport) w (OddsApiService.getEvents sport w).
Proof.
  unfold OddsApiService.getEvents. run_monad. simpl.
  destruct (Str.nonempty (OddsApiService.apiKeyOf (env w))) eqn:Hk; simpl.
  - destruct (upstream (env w) _) as [e|d n]; simpl; feed_goal;
      first [one_request Hk|eexists; reflexivity].
  - feed_goal. exists []. rewrite app_nil_r.
    repeat split; [apply Nat.le_0_l|constructor].
Qed.

Lemma getEventOdds_footprint (p : GetEventOddsParams) (w : World) :
  feed_footprint (CallGetEventOdds p) w (OddsApiService.getEventOdds p w).
Proof.
  unfold OddsApiService.getEventOdds. run_monad. simpl.
  destruct (Str.nonempty (OddsApiService.apiKeyOf (env w))) eqn:Hk; simpl.
  - destruct (upstream (env w) _) as [e|d n]; simpl; feed_goal;
      first [one_request Hk|eexists; reflexivity].
  - feed_goal. exists []. rewrite app_nil_r.
    repeat split; [apply Nat.le_0_l|constructor].
Qed.

(** X1. Every method of the feed client leaves the same footprint: the
    store, the trace of its writes, the clock and the environment are
    untouched; the call is recorded; at most one request goes upstream, it
    presents the trimmed credential as [apiKey], and none goes when the
    credential is blank; the log gets one error line when the method
    throws and nothing when it returns. *)
Theorem feed_client_footprint (w : World) :
  (forall p, feed_footprint (CallGetOdds p) w (OddsApiService.getOdds p w))
  /\ feed_footprint CallGetSports w (OddsApiService.getSports w)
  /\ (forall sport,
        feed_footprint (CallGetEvents sport) w (OddsApiService.getEvents sport w))
  /\ (forall p,
        feed_footprint (CallGetEventOdds p) w (OddsApiService.getEventOdds p w)).
Proof.
  split; [intros p; apply getOdds_footprint|].
  split; [apply getSports_footprint|].
  split; [intros sport; apply getEvents_footprint|].
  intros p. apply getEventOdds_footprint.
Qed.

Lemma nonempty_ne (s : string) : Str.nonempty s = true <-> s <> "".
Proof. destruct s; simpl; split; congruence. Qed.

Lemma nonempty_false (s : string) : Str.nonempty s = false <-> s = "".
Proof. destruct s; simpl; split; congruence. Qed.

Ltac relay_goal Hk Hu :=
  unfold relays_upstream; simpl;
  first
    [ left; repeat split; first [reflexivity|apply nonempty_false; exact Hk]
    | right; split; [apply nonempty_ne; exact Hk|];
      split; [reflexivity|]; eexists; split; first [reflexivity|exact Hu]
    | split; [apply nonempty_ne; exact Hk|];
      first [ left; split; reflexivity
            | right; eexists; split; first [reflexivity|exact Hu] ] ].

Lemma getOdds_relays (p : GetOddsParams) (w : World) :
  relays_upstream (Some OddsApiService.INVALID_MARKET) (PEvents []) w
                  (OddsApiService.getOdds p w).
Proof.
  unfold OddsApiService.getOdds. run_monad. simpl.
  destruct (Str.nonempty (OddsApiService.apiKeyOf (env w))) eqn:Hk; simpl.
  - destruct (existsb _ _); simpl.
    + relay_goal Hk Hk.
    + destruct (upstream (env w) _) as [e|d n] eqn:Hu; simpl; relay_goal Hk Hu.
  - relay_goal Hk Hk.
Qed.

Lemma getSports_relays (w : World) :
  relays_upstream None (PEvents []) w (OddsApiService.getSports w).
Proof.
  unfold OddsApiService.getSports. run_monad. simpl.
  destruct (Str.nonempty (OddsApiService.apiKeyOf (env w))) eqn:Hk; simpl.
  - destruct (upstream (env w) _) as [e|d n] eqn:Hu; simpl; relay_goal Hk Hu.
  - relay_goal Hk Hk.
Qed.

Lemma getEvents_relays (sport : string) (w : World) :
  relays_upstream None (PEvents []) w (OddsApiService.getEvents sport w).
Proof.
  unfold OddsApiService.getEvents. run_monad. simpl.
  destruct (Str.nonempty (OddsApiService.apiKeyOf (env w))) eqn:Hk; simpl.
  - destruct (upstream (env w) _) as [e|d n] eqn:Hu; simpl; relay_goal Hk Hu.
  - relay_goal Hk Hk.
Qed.

Lemma getEventOdds_relays (p : GetEventOddsParams) (w : World) :
  relays_upstream None PNull w (OddsApiService.getEventOdds p w).
Proof.
  unfold OddsApiService.getEventOdds. run_monad. simpl.
  destruct (Str.nonempty (OddsApiService.apiKeyOf (env w))) eqn:Hk; simpl.
  - destruct (upstream (env w) _) as [e|d n] eqn:Hu; simpl; relay_goal Hk Hu.
  - relay_goal Hk Hk.
Qed.

(** X2. The answers of the feed client are those of the upstream
    provider.  A result without a credential is the degraded one
    ([data] the empty array, [null] for the odds of one event) and no
    request was made; any other result carries the body and the quota
    counter of the reply to the one request made, without a warning.  An
    error is thrown only with a credential: it is the rejection of the one
    request made, or else, for [getOdds] alone, INVALID_MARKET raised
    before any request. *)
Theorem feed_client_relays_upstream (w : World) :
  (forall p, relays_upstream (Some OddsApiService.INVALID_MARKET) (PEvents []) w
                             (OddsApiService.getOdds p w))
  /\ relays_upstream None (PEvents []) w (OddsApiService.getSports w)
  /\ (forall sport,
        relays_upstream None (PEvents []) w (OddsApiService.getEvents sport w))
  /\ (forall p, relays_upstream None PNull w (OddsApiService.getEventOdds p w)).
Proof.
  split; [intros p; apply getOdds_relays|].
  split; [apply getSports_relays|].
  split; [intros sport; apply getEvents_relays|].
  intros p. apply getEventOdds_relays.
Qed.

(** X3. With a credential, [getOdds] refuses a request whose markets hold
    a player-prop market (any market whose lower-cased key starts with
    [player_]): it throws INVALID_MARKET with status 422, the error is
    logged, and no request goes upstream, whatever the other markets
    are. *)
Theorem getOdds_rejects_player_props (p : GetOddsParams) (w : World) :
  OddsApiService.apiKeyOf (env w) <> "" ->
  existsb OddsApiService.isPlayerPropMarket
          (default ["h2h"; "spreads"; "totals"] (markets p)) = true ->
  OddsApiService.getOdds p w
  = (Thrown OddsApiService.INVALID_MARKET,
     snd (logger LogError
            ("Error fetching odds: "
             +:+ err_message OddsApiService.INVALID_MARKET)
            (snd (called (CallGetOdds p) w))))
  /\ err_status OddsApiService.INVALID_MARKET = Some 422
  /\ err_code OddsApiService.INVALID_MARKET = Some "INVALID_MARKET"
  /\ http_calls (snd (OddsApiService.getOdds p w)) = http_calls w.
Proof.
  intros Hk Hm. apply nonempty_ne in Hk.
  unfold OddsApiService.getOdds. run_monad. simpl.
  rewrite Hk. simpl. rewrite Hm. simpl. repeat split.
Qed.

Lemma getOdds_rejects_player_props_witness :
  let p := {| sport := "basketball_nba"; regions := None;
              markets := Some ["h2h"; "Player_Points"]; oddsFormat := None |} in
  let w := Sample.fresh (Sample.env_serving [] 1700000000000 1) in
  fst (OddsApiService.getOdds p w) = Thrown OddsApiService.INVALID_MARKET
  /\ http_calls (snd (OddsApiService.getOdds p w)) = [].
Proof.
  intros p w.
  destruct (getOdds_rejects_player_props p w) as (Hrun & _ & _ & Hhttp).
  - vm_compute. discriminate.
  - vm_compute. reflexivity.
  - split; [rewrite Hrun; reflexivity|exact Hhttp].
Defined.

(** The markets asked for by default are no player-prop markets. *)
Lemma default_markets_accepted :
  existsb OddsApiService.isPlayerPropMarket ["h2h"; "spreads"; "totals"] = false.
Proof. vm_compute. reflexivity. Qed.

(** X4. [getSportByKey] never throws: whatever [getSports] does, it
    returns a sport or [null].  A sport it returns has the key asked for
    and was found in the answer of a configured feed; the store is left
    alone and the feed client is called once. *)
Theorem getSportByKey_never_throws (sportKey : string) (w : World) :
  let run := OddsApiService.getSportByKey sportKey w in
  (exists r, fst run = Returned r
     /\ match r with
        | Some s => s_key s = Some sportKey
                    /\ OddsApiService.apiKeyOf (env w) <> ""
        | None => True
        end)
  /\ read_only w (snd run)
  /\ feed_calls (snd run) = feed_calls w ++ [CallGetSports].
Proof.
  intros run. subst run.
  unfold OddsApiService.getSportByKey, try_catch, bind.
  pose proof (getSports_footprint w) as (Hro & Hcalls & _ & _).
  pose proof (getSports_relays w) as Hrel. unfold relays_upstream in Hrel.
  destruct (OddsApiService.getSports w) as [[res|e] w1]; cbn [fst snd] in *.
  - destruct (data res) as [l|ev|l|] eqn:Hd.
    + cbn. split; [eexists; split; [reflexivity|exact I]|].
      split; [exact Hro|exact Hcalls].
    + pose proof (logger_read_only LogError
                    ("Error getting sport by key: "
                     +:+ "sports.find is not a function") w1) as Hlog.
      cbn. split; [eexists; split; [reflexivity|exact I]|].
      split; [etrans; [exact Hro|exact Hlog]|exact Hcalls].
    + cbn [ret fst snd].
      split; [|split; [exact Hro|exact Hcalls]].
      eexists. split; [reflexivity|].
      destruct (List.find _ l) as [s|] eqn:Hfind; [|exact I].
      apply find_some in Hfind as [_ Hs].
      destruct (s_key s) as [k|]; [|discriminate].
      apply String.eqb_eq in Hs. subst k. split; [reflexivity|].
      destruct Hrel as [(_ & Hres & _)|(Hk & _)]; [|exact Hk].
      subst res. discriminate.
    + pose proof (logger_read_only LogError
                    ("Error getting sport by key: "
                     +:+ "sports.find is not a function") w1) as Hlog.
      cbn. split; [eexists; split; [reflexivity|exact I]|].
      split; [etrans; [exact Hro|exact Hlog]|exact Hcalls].
  - pose proof (logger_read_only LogError
                  ("Error getting sport by key: " +:+ err_message e) w1) as Hlog.
    cbn. split; [eexists; split; [reflexivity|exact I]|].
    split; [etrans; [exact Hro|exact Hlog]|exact Hcalls].
Qed.

(** ** The analytics never write *)

Lemma footprint_read_only c w run : feed_footprint c w run -> read_only w (snd run).
Proof. intros (Hro & _). exact Hro. Qed.

Lemma getOdds_read_only p : preserves read_only (OddsApiService.getOdds p).
Proof. intros w. exact (footprint_read_only _ _ _ (getOdds_footprint p w)). Qed.

Lemma getSports_read_only : preserves read_only OddsApiService.getSports.
Proof. intros w. exact (footprint_read_only _ _ _ (getSports_footprint w)). Qed.

Lemma getEvents_read_only sport : preserves read_only (OddsApiService.getEvents sport).
Proof. intros w. exact (footprint_read_only _ _ _ (getEvents_footprint sport w)). Qed.

Lemma getEventOdds_read_only p : preserves read_only (OddsApiService.getEventOdds p).
Proof. intros w. exact (footprint_read_only _ _ _ (getEventOdds_footprint p w)). Qed.

Lemma getSportByKey_read_only sportKey :
  preserves read_only (OddsApiService.getSportByKey sportKey).
Proof.
  unfold OddsApiService.getSportByKey.
  apply (preserves_try_catch read_only).
  - apply (preserves_bind read_only); [apply getSports_read_only|].
    intros res. destruct (data res);
      first [apply (preserves_ret read_only)|apply (preserves_throw read_only)].
  - intros e. apply (preserves_bind read_only); [apply logger_read_only|].
    intros _. apply (preserves_ret read_only).
Qed.

Lemma getArbitrage_read_only p : preserves read_only (ArbitrageService.getArbitrage p).
Proof.
  unfold ArbitrageService.getArbitrage. cbv zeta.
  destruct (negb _); [apply (preserves_throw read_only)|].
  apply (preserves_bind read_only); [apply getOdds_read_only|].
  intros res. destruct (truthy _); apply (preserves_ret read_only).
Qed.

Lemma fetchEventOdds_read_only `{JsBuiltins} sport market regions oddsFormat acc ev :
  preserves read_only
    (CheatSheetService.fetchEventOdds sport market regions oddsFormat acc ev).
Proof.
  unfold CheatSheetService.fetchEventOdds.
  destruct (truthy _); [|apply (preserves_ret read_only)].
  apply (preserves_bind read_only); [apply getEventOdds_read_only|].
  intros res. destruct (data res); apply (preserves_ret read_only).
Qed.

Lemma getPlayerPropsCheatSheet_read_only `{JsBuiltins} p :
  preserves read_only (CheatSheetService.getPlayerPropsCheatSheet p).
Proof.
  unfold CheatSheetService.getPlayerPropsCheatSheet. cbv zeta.
  destruct (negb _).
  - apply (preserves_bind read_only); [apply getOdds_read_only|].
    intros res. destruct (truthy _); apply (preserves_ret read_only).
  - apply (preserves_bind read_only); [apply getEvents_read_only|].
    intros res. destruct (truthy _); [apply (preserves_ret read_only)|].
    apply (preserves_bind read_only); [|intros r; apply (preserves_ret read_only)].
    apply (preserves_for_of read_only). intros acc ev.
    apply fetchEventOdds_read_only.
Qed.

Lemma getPositiveEV_read_only `{PositiveEVService} q :
  preserves read_only (SportsToolsController.getPositiveEV q).
Proof.
  unfold SportsToolsController.getPositiveEV. cbv zeta.
  apply (preserves_try_catch read_only);
    [|intros e; apply (preserves_ret read_only)].
  apply (preserves_bind read_only); [apply getSportByKey_read_only|].
  intros sport. apply (preserves_bind read_only); [apply getOdds_read_only|].
  intros res. apply (preserves_ret read_only).
Qed.

Lemma getCheatSheet_read_only `{JsBuiltins} q :
  preserves read_only (SportsToolsController.getCheatSheet q).
Proof.
  unfold SportsToolsController.getCheatSheet. cbv zeta.
  apply (preserves_try_catch read_only);
    [|intros e; apply (preserves_ret read_only)].
  destruct (negb _); [apply (preserves_ret read_only)|].
  destruct (negb _); [apply (preserves_ret read_only)|].
  apply (preserves_bind read_only);
    [apply getPlayerPropsCheatSheet_read_only|].
  intros sheet. apply (preserves_ret read_only).
Qed.

(** X5. The analytics are computation only: arbitrage, the cheat sheet,
    the positive-EV route, the cheat-sheet route and the sports route,
    whether they return or throw, leave the store, the trace of its
    writes, the clock and the environment as they were; they only add to
    the traces of the feed calls, of the requests and of the log. *)
Theorem analytics_never_write `{JsBuiltins} `{PositiveEVService} :
  (forall p, preserves read_only (ArbitrageService.getArbitrage p))
  /\ (forall p, preserves read_only (CheatSheetService.getPlayerPropsCheatSheet p))
  /\ (forall q, preserves read_only (SportsToolsController.getPositiveEV q))
  /\ (forall q, preserves read_only (SportsToolsController.getCheatSheet q))
  /\ preserves read_only SportsToolsController.getSports.
Proof.
  split; [exact getArbitrage_read_only|].
  split; [exact getPlayerPropsCheatSheet_read_only|].
  split; [exact getPositiveEV_read_only|].
  split; [exact getCheatSheet_read_only|].
  unfold SportsToolsController.getSports.
  apply (preserves_try_catch read_only);
    [|intros e; apply (preserves_ret read_only)].
  apply (preserves_bind read_only); [apply getSports_read_only|].
  intros res. apply (preserves_ret read_only).
Qed.

(** ** The number of upstream calls *)

Lemma budget_refl (w : World) : feed_budget 0 w w.
Proof. exists [], []. rewrite !app_nil_r. repeat split; apply Nat.le_refl. Qed.

Lemma budget_trans (n m : nat) (a b c : World) :
  feed_budget n a b -> feed_budget m b c -> feed_budget (n + m) a c.
Proof.
  intros (c1 & r1 & Hc1 & Hr1 & Hl1 & Hn) (c2 & r2 & Hc2 & Hr2 & Hl2 & Hm).
  exists (c1 ++ c2), (r1 ++ r2).
  rewrite Hc2, Hc1, Hr2, Hr1, <- !app_assoc, !length_app.
  repeat split; lia.
Qed.

Lemma budget_mono (n m : nat) (a b : World) :
  (n <= m)%nat -> feed_budget n a b -> feed_budget m a b.
Proof.
  intros Hnm (c1 & r1 & Hc1 & Hr1 & Hl1 & Hn).
  exists c1, r1. repeat split; try assumption. lia.
Qed.

Lemma budget_bind {A B : Type} (n k : nat) (m : M A) (f : A -> M B) :
  preserves (feed_budget n) m -> (forall a, preserves (feed_budget k) (f a)) ->
  preserves (feed_budget (n + k)) (bind m f).
Proof.
  intros Hm Hf w. unfold bind. specialize (Hm w).
  destruct (m w) as [[a|e] w1]; simpl in *.
  - apply budget_trans with w1; [exact Hm|apply Hf].
  - apply budget_mono with n; [lia|exact Hm].
Qed.

Lemma budget_try_catch {A : Type} (n : nat) (m : M A) (h : JsError -> M A) :
  preserves (feed_budget n) m -> (forall e, preserves (feed_budget 0) (h e)) ->
  preserves (feed_budget n) (try_catch m h).
Proof.
  intros Hm Hh w. unfold try_catch. specialize (Hm w).
  destruct (m w) as [[a|e] w1]; simpl in *; [exact Hm|].
  replace n with (n + 0)%nat by lia.
  apply budget_trans with w1; [exact Hm|apply Hh].
Qed.

Lemma budget_ret {A : Type} (a : A) : preserves (feed_budget 0) (ret a).
Proof. intros w. apply budget_refl. Qed.

Lemma budget_weaken {A : Type} (n k : nat) (m : M A) :
  (n <= k)%nat -> preserves (feed_budget n) m -> preserves (feed_budget k) m.
Proof. intros Hnk Hm w. apply budget_mono with n; [exact Hnk|apply Hm]. Qed.

Lemma budget_for_of {A S : Type} (body : S -> A -> M S) :
  (forall s x, preserves (feed_budget 1) (body s x)) ->
  forall l s, preserves (feed_budget (length l)) (for_of body s l).
Proof.
  intros Hb l. induction l as [|x l IH]; intros s; simpl.
  - apply budget_ret.
  - apply (budget_bind 1 (length l)); [apply Hb|intros s'; apply IH].
Qed.

Lemma footprint_budget c w run : feed_footprint c w run -> feed_budget 1 w (snd run).
Proof.
  intros (_ & Hc & (reqs & Hr & Hl & _) & _).
  exists [c], reqs. repeat split; try assumption. simpl. lia.
Qed.

Lemma quiet_budget (w w' : World) :
  feed_calls w' = feed_calls w -> http_calls w' = http_calls w ->
  feed_budget 0 w w'.
Proof.
  intros Hc Hr. exists [], []. rewrite !app_nil_r.
  repeat split; try assumption; apply Nat.le_refl.
Qed.

(** ** The life cycle of the rows under ingestion *)

Lemma keeps_ids_refl `{Countable K} {V : Type} (m : gmap K V) : keeps_ids m m.
Proof. intros k Hk. exact Hk. Qed.

Lemma keeps_ids_trans `{Countable K} {V : Type} (a b c : gmap K V) :
  keeps_ids a b -> keeps_ids b c -> keeps_ids a c.
Proof. intros Hab Hbc k Hk. apply Hbc, Hab, Hk. Qed.

Lemma keeps_ids_insert `{Countable K} {V : Type} (k : K) (v : V) (m : gmap K V) :
  keeps_ids m (<[k := v]> m).
Proof.
  intros j Hj. destruct (decide (k = j)) as [->|Hne].
  - rewrite lookup_insert_eq. eauto.
  - rewrite lookup_insert_ne by exact Hne. exact Hj.
Qed.

Lemma setOnInsert_subseteq `{Countable K} {V : Type} (k : K) (v : V) (m : gmap K V) :
  m ⊆ setOnInsert k v m.
Proof.
  unfold setOnInsert. destruct (m !! k) eqn:Hk; [reflexivity|].
  apply insert_subseteq. exact Hk.
Qed.

#[local] Instance ingestion_step_preorder : PreOrder ingestion_step.
Proof.
  split.
  - intros w. unfold ingestion_step.
    repeat split; try reflexivity; apply keeps_ids_refl.
  - intros a b c (H1 & H2 & H3 & H4 & H5 & H6 & H7 & H8 & H9 & H10 & H11)
                 (G1 & G2 & G3 & G4 & G5 & G6 & G7 & G8 & G9 & G10 & G11).
    unfold ingestion_step.
    repeat split; try congruence;
      try (eapply keeps_ids_trans; eassumption);
      try (etrans; eassumption).
Qed.

#[local] Instance loop_step_preorder : PreOrder loop_step.
Proof.
  split.
  - intros w. split; [reflexivity|]. unfold unheard. repeat split.
  - intros a b c (H1 & (H2 & H3 & H4) & H5) (G1 & (G2 & G3 & G4) & G5).
    split; [etrans; eassumption|]. unfold unheard. repeat split; congruence.
Qed.

Lemma store_write_ingestion_step (op : StoreOp) :
  is_ingest_op op -> preserves ingestion_step (store_write op).
Proof.
  intros Hop w. unfold ingestion_step.
  destruct op; try contradiction; simpl;
    repeat split;
    first [ reflexivity
          | apply keeps_ids_refl
          | apply keeps_ids_insert
          | apply setOnInsert_subseteq
          | apply prefix_app_r; reflexivity
          | apply Nat.le_refl ].
Qed.

Lemma store_write_loop_step (op : StoreOp) :
  is_loop_op op -> preserves loop_step (store_write op).
Proof.
  intros Hop w. split; [|split].
  - apply store_write_ingestion_step. destruct op; try contradiction; exact I.
  - unfold unheard. simpl. repeat split.
  - destruct op; try contradiction; reflexivity.
Qed.

Lemma Date_now_loop_step : preserves loop_step Date_now.
Proof.
  intros w. unfold loop_step, ingestion_step, unheard. simpl.
  repeat split; first [reflexivity|apply keeps_ids_refl|lia].
Qed.

(** The loops of the ingestion preserve every relation [R] that the
    reading of the clock and the writes of a batch preserve. *)
Section IngestSteps.
Context `{JsBuiltins}.
Context (fmt : option string) (t : Z).
Context (R : World -> World -> Prop) `{!PreOrder R}.
Hypothesis Hnow : preserves R Date_now.
Hypothesis Hwrite :
  forall op, batch_write fmt t op -> is_loop_op op -> preserves R (store_write op).

Lemma ingestOutcome_preserves bookId marketId i out :
  preserves R (OddsIngestionService.ingestOutcome fmt t bookId marketId i out).
Proof.
  unfold OddsIngestionService.ingestOutcome. cbv zeta.
  apply (preserves_bind R); [apply Hwrite; exact I|].
  intros _.
  destruct (String.eqb (Str.or_else fmt "american") "decimal") eqn:E;
    (apply (preserves_bind R);
     [apply Hwrite;
      [unfold batch_write, snapshot_of_batch;
       cbn [snap_fetched_at snap_odds_format snap_implied_prob snap_odds_value];
       rewrite E; repeat split
      |exact I]|]);
    intros _; apply (preserves_ret R).
Qed.

Lemma ingestMarket_preserves eventId bookId bookKey last_update i mk :
  preserves R
    (OddsIngestionService.ingestMarket fmt t eventId bookId bookKey
                                       last_update i mk).
Proof.
  unfold OddsIngestionService.ingestMarket. cbv zeta.
  apply (preserves_bind R); [apply Hwrite; exact I|].
  intros _. apply (preserves_for_of R). intros j out.
  apply ingestOutcome_preserves.
Qed.

Lemma ingestBookmaker_preserves eventId i bm :
  preserves R (OddsIngestionService.ingestBookmaker fmt t eventId i bm).
Proof.
  unfold OddsIngestionService.ingestBookmaker. cbv zeta.
  apply (preserves_bind R); [apply Hwrite; exact I|].
  intros _. apply (preserves_for_of R). intros j mk.
  apply ingestMarket_preserves.
Qed.

Lemma ingestEvent_preserves sportKey sportId i evt :
  preserves R (OddsIngestionService.ingestEvent sportKey sportId fmt t i evt).
Proof.
  unfold OddsIngestionService.ingestEvent. cbv zeta.
  apply (preserves_bind R); [apply Hwrite; exact I|].
  intros _.
  apply (preserves_bind R); [apply Hwrite; exact I|].
  intros _. apply (preserves_bind R).
  - destruct (truthy _); [apply (preserves_ret R)|].
    apply (preserves_bind R); [apply Hnow|].
    intros now. apply (preserves_ret R).
  - intros starts_at.
    apply (preserves_bind R); [apply Hwrite; exact I|].
    intros _. apply (preserves_for_of R). intros j bm.
    apply ingestBookmaker_preserves.
Qed.

End IngestSteps.

Lemma ingestEvent_loop_step `{JsBuiltins} sportKey sportId fmt t i evt :
  preserves loop_step
    (OddsIngestionService.ingestEvent sportKey sportId fmt t i evt).
Proof.
  apply (ingestEvent_preserves fmt t loop_step Date_now_loop_step).
  intros op _ Hop. apply store_write_loop_step. exact Hop.
Qed.


Lemma preserves_weaken {A : Type} (R R' : World -> World -> Prop) (m : M A) :
  (forall w w', R w w' -> R' w w') -> preserves R m -> preserves R' m.
Proof. intros HR Hm w. apply HR, Hm. Qed.

Lemma read_only_ingestion_step (w w' : World) :
  read_only w w' -> ingestion_step w w'.
Proof.
  intros (Hs & Hops & Hc & He & _). unfold ingestion_step.
  rewrite Hs, Hops, Hc, He.
  repeat split; first [reflexivity|apply keeps_ids_refl].
Qed.

Lemma loop_step_ingestion_step (w w' : World) :
  loop_step w w' -> ingestion_step w w'.
Proof. intros [Hi _]. exact Hi. Qed.

Lemma loop_step_budget (w w' : World) : loop_step w w' -> feed_budget 0 w w'.
Proof. intros (_ & (Hc & Hr & _) & _). apply quiet_budget; assumption. Qed.

Lemma logger_ingestion_step lvl msg : preserves ingestion_step (logger lvl msg).
Proof.
  apply (preserves_weaken read_only); [apply read_only_ingestion_step|].
  apply logger_read_only.
Qed.

Lemma logger_budget lvl msg : preserves (feed_budget 0) (logger lvl msg).
Proof. intros w. apply quiet_budget; reflexivity. Qed.

Lemma refreshOdds_ingestion_step `{JsBuiltins} params :
  preserves ingestion_step (OddsIngestionService.refreshOdds params).
Proof.
  unfold OddsIngestionService.refreshOdds. cbv zeta.
  apply (preserves_bind ingestion_step).
  { apply (preserves_weaken loop_step); [apply loop_step_ingestion_step|].
    apply Date_now_loop_step. }
  intros t. apply (preserves_bind ingestion_step).
  { apply store_write_ingestion_step. exact I. }
  intros _. apply (preserves_bind ingestion_step).
  { apply (preserves_weaken read_only); [apply read_only_ingestion_step|].
    apply getOdds_read_only. }
  intros res. destruct (truthy _).
  - apply (preserves_bind ingestion_step); [apply logger_ingestion_step|].
    intros _. apply (preserves_ret ingestion_step).
  - apply (preserves_bind ingestion_step);
      [|intros n; apply (preserves_ret ingestion_step)].
    apply (preserves_weaken loop_step); [apply loop_step_ingestion_step|].
    apply (preserves_for_of loop_step). intros i evt.
    apply ingestEvent_loop_step.
Qed.

(** The feed calls of a run of the ingestion: the one to [getOdds]. *)
Lemma refreshOdds_feed_calls `{JsBuiltins} params w :
  feed_calls (snd (OddsIngestionService.refreshOdds params w))
  = feed_calls w
    ++ [CallGetOdds {| sport := OddsIngestionService.sportKey params;
                       regions := OddsIngestionService.rp_regions params;
                       markets := OddsIngestionService.rp_markets params;
                       oddsFormat := OddsIngestionService.rp_oddsFormat params |}]
  /\ exists reqs,
       http_calls (snd (OddsIngestionService.refreshOdds params w))
       = http_calls w ++ reqs /\ (length reqs <= 1)%nat.
Proof.
  remember (OddsIngestionService.refreshOdds params w) as run eqn:Hrun.
  unfold OddsIngestionService.refreshOdds in Hrun. cbv zeta in Hrun.
  unfold bind at 1 in Hrun. rewrite Date_now_extend in Hrun.
  cbv beta iota in Hrun.
  unfold bind at 1 in Hrun. rewrite store_write_extend in Hrun.
  cbv beta iota in Hrun.
  unfold bind at 1 in Hrun.
  match type of Hrun with
  | context [OddsApiService.getOdds ?p ?w0] =>
      pose proof (getOdds_footprint p w0) as (_ & Hc & (reqs & Hr & Hl & _) & _);
      destruct (OddsApiService.getOdds p w0) as [[res|e] w1]
  end; cbn [fst snd] in *; cbn [feed_calls http_calls extend] in Hc, Hr;
    subst run.
  - assert (Hloop : forall w2,
               feed_calls w2 = feed_calls w1 -> http_calls w2 = http_calls w1 ->
               feed_calls w2 = feed_calls w ++ [CallGetOdds
                 {| sport := OddsIngestionService.sportKey params;
                    regions := OddsIngestionService.rp_regions params;
                    markets := OddsIngestionService.rp_markets params;
                    oddsFormat := OddsIngestionService.rp_oddsFormat params |}]
               /\ exists reqs, http_calls w2 = http_calls w ++ reqs
                               /\ (length reqs <= 1)%nat).
    { intros w2 Hc1 Hr1. rewrite Hc1, Hr1.
      split; [exact Hc|]. exists reqs. split; [exact Hr|exact Hl]. }
    destruct (truthy _).
    + apply Hloop; reflexivity.
    + unfold bind.
      pose proof (preserves_for_of loop_step _
                    (ingestEvent_loop_step
                       (OddsIngestionService.sportKey params)
                       (Ids.makeSportIdFromKey (OddsIngestionService.sportKey params))
                       (OddsIngestionService.rp_oddsFormat params)
                       (clock (env w) (clock_reads w)))
                    (Payload_events (data res)) 0 w1)
        as (_ & (Hc2 & Hr2 & _) & _).
      destruct (for_of _ _ _ w1) as [[n|e] w3]; cbn [fst snd ret] in *;
        apply Hloop; assumption.
  - split; [exact Hc|]. exists reqs. split; [exact Hr|exact Hl].
Qed.

(** X6. Whatever the feed answers, and whether it returns or throws, a
    run of [refreshOdds] only adds to the store: rows of sports and of
    teams that exist are left as they are (insert if absent), no row of
    events, sportsbooks, markets, selections or snapshots is removed, the
    archive is not touched, and the environment is as before.  The run
    calls the feed client exactly once, with the sport, the regions, the
    markets and the odds format it was given, and so sends at most one
    request upstream. *)
Theorem refreshOdds_only_adds `{JsBuiltins}
    (params : OddsIngestionService.RefreshParams) (w : World) :
  let w' := snd (OddsIngestionService.refreshOdds params w) in
  ingestion_step w w'
  /\ feed_calls w'
     = feed_calls w
       ++ [CallGetOdds {| sport := OddsIngestionService.sportKey params;
                          regions := OddsIngestionService.rp_regions params;
                          markets := OddsIngestionService.rp_markets params;
                          oddsFormat := OddsIngestionService.rp_oddsFormat params |}]
  /\ exists reqs, http_calls w' = http_calls w ++ reqs /\ (length reqs <= 1)%nat.
Proof.
  intros w'. subst w'.
  split; [apply refreshOdds_ingestion_step|apply refreshOdds_feed_calls].
Qed.

(** ** The number of upstream calls of the analytics *)

Lemma getOdds_budget p : preserves (feed_budget 1) (OddsApiService.getOdds p).
Proof. intros w. exact (footprint_budget _ _ _ (getOdds_footprint p w)). Qed.

Lemma getSportByKey_budget sportKey :
  preserves (feed_budget 1) (OddsApiService.getSportByKey sportKey).
Proof.
  unfold OddsApiService.getSportByKey.
  apply budget_try_catch.
  - apply (budget_bind 1 0).
    + intros w. exact (footprint_budget _ _ _ (getSports_footprint w)).
    + intros res. destruct (data res);
        first [apply budget_ret|intros w; apply budget_refl].
  - intros e. apply (budget_bind 0 0); [apply logger_budget|].
    intros _. apply budget_ret.
Qed.

Lemma getArbitrage_budget p : preserves (feed_budget 1) (ArbitrageService.getArbitrage p).
Proof.
  unfold ArbitrageService.getArbitrage. cbv zeta.
  destruct (negb _).
  - intros w. apply budget_mono with 0%nat; [lia|apply budget_refl].
  - apply (budget_bind 1 0); [apply getOdds_budget|].
    intros res. destruct (truthy _); apply budget_ret.
Qed.

Lemma fetchEventOdds_budget `{JsBuiltins} sport market regions oddsFormat acc ev :
  preserves (feed_budget 1)
    (CheatSheetService.fetchEventOdds sport market regions oddsFormat acc ev).
Proof.
  unfold CheatSheetService.fetchEventOdds.
  destruct (truthy _).
  - apply (budget_bind 1 0).
    + intros w. exact (footprint_budget _ _ _ (getEventOdds_footprint _ w)).
    + intros res. destruct (data res); apply budget_ret.
  - apply (budget_weaken 0 1); [lia|apply budget_ret].
Qed.

Lemma getPlayerPropsCheatSheet_budget `{JsBuiltins} p :
  preserves
    (feed_budget (if CheatSheetService.isPlayerProp (CheatSheetService.cp_market p)
                  then 11 else 1))
    (CheatSheetService.getPlayerPropsCheatSheet p).
Proof.
  unfold CheatSheetService.getPlayerPropsCheatSheet. cbv zeta.
  destruct (CheatSheetService.isPlayerProp _); cbn [negb].
  - apply (budget_bind 1 10).
    + intros w. exact (footprint_budget _ _ _ (getEvents_footprint _ w)).
    + intros res. destruct (truthy _).
      * apply (budget_weaken 0 10); [lia|apply budget_ret].
      * apply (budget_weaken (length (firstn 10 (Payload_events (data res))) + 0) 10).
        { rewrite length_firstn. lia. }
        apply budget_bind; [|intros r; apply budget_ret].
        apply budget_for_of. intros acc ev. apply fetchEventOdds_budget.
  - apply (budget_bind 1 0); [apply getOdds_budget|].
    intros res. destruct (truthy _); apply budget_ret.
Qed.

(** X7. The analytics bound what they ask of the feed: arbitrage calls
    the feed client at most once; the cheat sheet once for a market that
    is no player-prop market and at most eleven times for one that is (the
    list of events, then the odds of at most ten events); the positive-EV
    route at most twice (the sports, then the odds).  In every case no
    more requests go upstream than calls are made. *)
Theorem analytics_call_budget `{JsBuiltins} `{PositiveEVService} :
  (forall p, preserves (feed_budget 1) (ArbitrageService.getArbitrage p))
  /\ (forall p,
        preserves
          (feed_budget
             (if CheatSheetService.isPlayerProp (CheatSheetService.cp_market p)
              then 11 else 1))
          (CheatSheetService.getPlayerPropsCheatSheet p))
  /\ (forall q, preserves (feed_budget 2) (SportsToolsController.getPositiveEV q))
  /\ (forall q, preserves (feed_budget 11) (SportsToolsController.getCheatSheet q)).
Proof.
  split; [exact getArbitrage_budget|].
  split; [exact getPlayerPropsCheatSheet_budget|].
  split.
  - intros q. unfold SportsToolsController.getPositiveEV. cbv zeta.
    apply budget_try_catch; [|intros e; apply budget_ret].
    apply (budget_bind 1 1); [apply getSportByKey_budget|].
    intros sport. apply (budget_bind 1 0); [apply getOdds_budget|].
    intros res. apply budget_ret.
  - intros q. unfold SportsToolsController.getCheatSheet. cbv zeta.
    apply budget_try_catch; [|intros e; apply budget_ret].
    destruct (negb _); [apply (budget_weaken 0 11); [lia|apply budget_ret]|].
    destruct (negb _); [apply (budget_weaken 0 11); [lia|apply budget_ret]|].
    apply (budget_bind 11 0); [|intros sheet; apply budget_ret].
    match goal with
    | |- preserves _ (CheatSheetService.getPlayerPropsCheatSheet ?p) =>
        pose proof (getPlayerPropsCheatSheet_budget p) as Hb
    end.
    destruct (CheatSheetService.isPlayerProp _) in Hb; [exact Hb|].
    apply (budget_weaken 1 11); [lia|exact Hb].
Qed.

(** ** Failure and count of the ingestion *)

(** The run of [refreshOdds] as far as the call of the feed. *)
Lemma refreshOdds_run `{JsBuiltins}
    (params : OddsIngestionService.RefreshParams) (w : World) :
  let sportId := Ids.makeSportIdFromKey (OddsIngestionService.sportKey params) in
  let op := SportSetOnInsert sportId
              {| sport_name := OddsIngestionService.sportKey params;
                 sport_key := OddsIngestionService.sportKey params |} in
  let prm := {| sport := OddsIngestionService.sportKey params;
                regions := OddsIngestionService.rp_regions params;
                markets := OddsIngestionService.rp_markets params;
                oddsFormat := OddsIngestionService.rp_oddsFormat params |} in
  let w1 := extend 1 [op] w in
  OddsIngestionService.refreshOdds params w
  = match OddsApiService.getOdds prm w1 with
    | (Returned res, wg) =>
        match truthy (warning res) with
        | Some text =>
            (Returned {| OddsIngestionService.ingestedSnapshots := 0;
                         OddsIngestionService.rr_remaining := remaining res |},
             snd (logger LogWarn ("Odds ingestion skipped: " +:+ text) wg))
        | None =>
            match for_of (OddsIngestionService.ingestEvent
                            (OddsIngestionService.sportKey params) sportId
                            (OddsIngestionService.rp_oddsFormat params)
                            (clock (env w) (clock_reads w)))
                         0 (Payload_events (data res)) wg with
            | (Returned n, w2) =>
                (Returned {| OddsIngestionService.ingestedSnapshots := n;
                             OddsIngestionService.rr_remaining := remaining res |},
                 w2)
            | (Thrown e, w2) => (Thrown e, w2)
            end
        end
    | (Thrown e, wg) => (Thrown e, wg)
    end.
Proof.
  intros sportId op prm w1. unfold OddsIngestionService.refreshOdds.
  unfold bind at 1. rewrite Date_now_extend. cbv beta iota.
  step_write. rewrite extend_extend.
  cbn [Nat.add app]. unfold bind at 1. subst w1 prm op sportId.
  destruct (OddsApiService.getOdds _ _) as [[res|e] wg]; [|reflexivity].
  destruct (truthy (warning res)); reflexivity.
Qed.

Lemma refreshOdds_when_feed_throws `{JsBuiltins}
    (params : OddsIngestionService.RefreshParams) (w : World) (e : JsError) :
  let op := SportSetOnInsert
              (Ids.makeSportIdFromKey (OddsIngestionService.sportKey params))
              {| sport_name := OddsIngestionService.sportKey params;
                 sport_key := OddsIngestionService.sportKey params |} in
  let run := OddsIngestionService.refreshOdds params w in
  fst (OddsApiService.getOdds
         {| sport := OddsIngestionService.sportKey params;
            regions := OddsIngestionService.rp_regions params;
            markets := OddsIngestionService.rp_markets params;
            oddsFormat := OddsIngestionService.rp_oddsFormat params |} w)
  = Thrown e ->
  fst run = Thrown e
  /\ store_ops (snd run) = store_ops w ++ [op]
  /\ store (snd run) = apply_op (archive_refuses (env w)) op (store w)
  /\ clock_reads (snd run) = S (clock_reads w).
Proof.
  intros op run Hfeed. subst run. rewrite refreshOdds_run. cbv zeta.
  fold op.
  set (prm := {| sport := OddsIngestionService.sportKey params;
                 regions := OddsIngestionService.rp_regions params;
                 markets := OddsIngestionService.rp_markets params;
                 oddsFormat := OddsIngestionService.rp_oddsFormat params |}) in *.
  pose proof (getOdds_store_frame prm (extend 1 [op] w)) as (Hs & Ho & Hc & _).
  assert (Hsame : fst (OddsApiService.getOdds prm (extend 1 [op] w)) = Thrown e).
  { rewrite <- Hfeed. apply getOdds_same_env. reflexivity. }
  destruct (OddsApiService.getOdds prm (extend 1 [op] w)) as [[res|e'] wg];
    cbn [fst snd] in *; [discriminate|].
  injection Hsame as ->. rewrite Hs, Ho, Hc. repeat split.
Qed.

(** X8. When the feed call fails, [refreshOdds] fails with the same
    error, and what it did before the call stays: the clock was read once
    and the row of the sport was inserted if absent.  Nothing is rolled
    back and nothing else is written. *)
Theorem refreshOdds_feed_failure `{JsBuiltins}
    (params : OddsIngestionService.RefreshParams) (w : World) (e : JsError) :
  let op := SportSetOnInsert
              (Ids.makeSportIdFromKey (OddsIngestionService.sportKey params))
              {| sport_name := OddsIngestionService.sportKey params;
                 sport_key := OddsIngestionService.sportKey params |} in
  let run := OddsIngestionService.refreshOdds params w in
  fst (OddsApiService.getOdds
         {| sport := OddsIngestionService.sportKey params;
            regions := OddsIngestionService.rp_regions params;
            markets := OddsIngestionService.rp_markets params;
            oddsFormat := OddsIngestionService.rp_oddsFormat params |} w)
  = Thrown e ->
  fst run = Thrown e
  /\ store_ops (snd run) = store_ops w ++ [op]
  /\ store (snd run) = apply_op (archive_refuses (env w)) op (store w)
  /\ clock_reads (snd run) = S (clock_reads w).
Proof. exact (refreshOdds_when_feed_throws params w e). Qed.

Lemma refreshOdds_feed_failure_witness :
  let params := {| OddsIngestionService.sportKey := "basketball_nba";
                   OddsIngestionService.rp_regions := None;
                   OddsIngestionService.rp_markets := Some ["player_points"];
                   OddsIngestionService.rp_oddsFormat := None |} in
  let w := Sample.fresh (Sample.env_serving [] 1700000000000 1) in
  let run := @OddsIngestionService.refreshOdds Sample.builtins params w in
  fst run = Thrown OddsApiService.INVALID_MARKET
  /\ store_ops (snd run)
     = [SportSetOnInsert (Ids.makeSportIdFromKey "basketball_nba")
          {| sport_name := "basketball_nba"; sport_key := "basketball_nba" |}].
Proof.
  intros params w run.
  destruct (@refreshOdds_feed_failure Sample.builtins params w
              OddsApiService.INVALID_MARKET) as (Hthrown & Hops & _).
  - vm_compute. reflexivity.
  - split; [exact Hthrown|exact Hops].
Defined.

Lemma for_of_returns {X : Type} (body : Z -> X -> M Z) (N : X -> nat) :
  (forall i x w, fst (body i x w) = Returned (i + Z.of_nat (N x))) ->
  forall l i w, fst (for_of body i l w) = Returned (i + Z.of_nat (total N l)).
Proof.
  intros Hb l. induction l as [|x l IH]; intros i w; simpl.
  - unfold ret. simpl. f_equal. lia.
  - unfold bind. specialize (Hb i x w).
    destruct (body i x w) as [[j|e] w1]; simpl in Hb; [|discriminate].
    injection Hb as ->. rewrite IH. f_equal. lia.
Qed.

Lemma total_length {X Y : Type} (f : X -> list Y) (l : list X) :
  total (fun x => length (f x)) l = length (flat_map f l).
Proof.
  induction l as [|x l IH]; simpl; [reflexivity|].
  rewrite length_app, IH. reflexivity.
Qed.

Lemma total_ones {X : Type} (l : list X) : total (fun _ => 1%nat) l = length l.
Proof. induction l as [|x l IH]; simpl; [reflexivity|rewrite IH; reflexivity]. Qed.

Section IngestCounts.
Context `{JsBuiltins}.

Lemma ingestOutcome_returns fmt t bookId marketId i out w :
  fst (OddsIngestionService.ingestOutcome fmt t bookId marketId i out w)
  = Returned (i + Z.of_nat 1).
Proof.
  unfold OddsIngestionService.ingestOutcome. cbv zeta.
  unfold bind at 1. rewrite store_write_extend. cbv beta iota.
  destruct (String.eqb _ _); unfold bind; rewrite store_write_extend; reflexivity.
Qed.

Lemma ingestMarket_returns fmt t eventId bookId bookKey last_update i mk w :
  fst (OddsIngestionService.ingestMarket fmt t eventId bookId bookKey
                                         last_update i mk w)
  = Returned (i + Z.of_nat (length (array_or_empty (m_outcomes mk)))).
Proof.
  unfold OddsIngestionService.ingestMarket. cbv zeta.
  unfold bind at 1. rewrite store_write_extend. cbv beta iota.
  rewrite (for_of_returns _ (fun _ => 1%nat)), total_ones; [reflexivity|].
  intros j out w1. apply ingestOutcome_returns.
Qed.

Lemma ingestBookmaker_returns fmt t eventId i bm w :
  fst (OddsIngestionService.ingestBookmaker fmt t eventId i bm w)
  = Returned
      (i + Z.of_nat
             (length (flat_map (fun mk => array_or_empty (m_outcomes mk))
                               (array_or_empty (b_markets bm))))).
Proof.
  unfold OddsIngestionService.ingestBookmaker. cbv zeta.
  unfold bind at 1. rewrite store_write_extend. cbv beta iota.
  rewrite (for_of_returns _
             (fun mk => length (array_or_empty (m_outcomes mk)))),
    total_length; [reflexivity|].
  intros j mk w1. apply ingestMarket_returns.
Qed.

Lemma ingestEvent_returns sportKey sportId fmt t i evt w :
  fst (OddsIngestionService.ingestEvent sportKey sportId fmt t i evt w)
  = Returned (i + Z.of_nat (length (outcomes_of_event evt))).
Proof.
  unfold OddsIngestionService.ingestEvent. cbv zeta.
  unfold bind at 1. rewrite store_write_extend. cbv beta iota.
  unfold bind at 1. rewrite store_write_extend. cbv beta iota.
  unfold bind at 1.
  assert (Hnext : forall (starts_at : JsDate) w1,
             fst ((let* _ := store_write
                     (SportEventSet (Ids.makeEventId (Str.or_else (e_id evt) ""))
                        {| ev_sport_id := sportId; ev_league_code := sportKey;
                           ev_home_team_id :=
                             Ids.makeTeamId sportId (Str.or_else (e_home_team evt) "");
                           ev_away_team_id :=
                             Ids.makeTeamId sportId (Str.or_else (e_away_team evt) "");
                           ev_starts_at := starts_at; ev_status := "scheduled";
                           ev_external_ref := Str.or_else (e_id evt) "" |}) in
                   for_of (OddsIngestionService.ingestBookmaker fmt t
                             (Ids.makeEventId (Str.or_else (e_id evt) "")))
                          i (array_or_empty (e_bookmakers evt))) w1)
             = Returned (i + Z.of_nat (length (outcomes_of_event evt)))).
  { intros starts_at w1. unfold bind. rewrite store_write_extend.
    cbv beta iota. unfold outcomes_of_event.
    rewrite (for_of_returns _
               (fun bm => length (flat_map (fun mk => array_or_empty (m_outcomes mk))
                                           (array_or_empty (b_markets bm))))),
      total_length; [reflexivity|].
    intros j bm w2. apply ingestBookmaker_returns. }
  destruct (truthy (e_commence_time evt)).
  - unfold ret at 1. cbv beta iota. apply Hnext.
  - unfold bind at 1. rewrite Date_now_extend. cbv beta iota.
    unfold ret at 1. cbv beta iota. apply Hnext.
Qed.

End IngestCounts.

(** X9. When the feed answers without a warning, the count that
    [refreshOdds] returns is the number of outcomes of the payload: those
    of every market of every bookmaker of every event, whatever their
    names and prices are.  An outcome without a price counts (it is stored
    with the odds value 0), and the run does not throw. *)
Theorem refreshOdds_counts_outcomes `{JsBuiltins}
    (params : OddsIngestionService.RefreshParams) (w : World) (res : FeedResult) :
  fst (OddsApiService.getOdds
         {| sport := OddsIngestionService.sportKey params;
            regions := OddsIngestionService.rp_regions params;
            markets := OddsIngestionService.rp_markets params;
            oddsFormat := OddsIngestionService.rp_oddsFormat params |} w)
  = Returned res ->
  truthy (warning res) = None ->
  fst (OddsIngestionService.refreshOdds params w)
  = Returned
      {| OddsIngestionService.ingestedSnapshots :=
           Z.of_nat (length (outcomes_of (Payload_events (data res))));
         OddsIngestionService.rr_remaining := remaining res |}.
Proof.
  intros Hfeed Hw. rewrite refreshOdds_run. cbv zeta.
  match goal with
  | |- context [OddsApiService.getOdds ?p ?w0] =>
      assert (Hsame : fst (OddsApiService.getOdds p w0) = Returned res)
        by (rewrite <- Hfeed; apply getOdds_same_env; reflexivity);
      destruct (OddsApiService.getOdds p w0) as [[res'|e] wg]
  end; cbn [fst] in Hsame; [|discriminate].
  injection Hsame as ->. rewrite Hw.
  match goal with
  | |- context [for_of ?body 0 ?l ?w0] =>
      pose proof (for_of_returns body (fun evt => length (outcomes_of_event evt))
                    (fun i x w1 => ingestEvent_returns _ _ _ _ i x w1) l 0 w0)
        as Hloop;
      destruct (for_of body 0 l w0) as [[n|e] w2]
  end; cbn [fst] in Hloop; [|discriminate].
  injection Hloop as ->. rewrite total_length. reflexivity.
Qed.

Lemma refreshOdds_counts_outcomes_witness :
  let events :=
    [Sample.game "g1"
       [Sample.book_of "fanduel"
          [Sample.outcome_of "Lakers" 150; Sample.outcome_of "Celtics" (-200)];
        Sample.book_of "draftkings" [Sample.outcome_of "Lakers" 130]]] in
  let params := {| OddsIngestionService.sportKey := "basketball_nba";
                   OddsIngestionService.rp_regions := None;
                   OddsIngestionService.rp_markets := None;
                   OddsIngestionService.rp_oddsFormat := None |} in
  let w := Sample.fresh (Sample.env_serving events 1700000000000 1) in
  fst (@OddsIngestionService.refreshOdds Sample.builtins params w)
  = Returned {| OddsIngestionService.ingestedSnapshots := 3;
                OddsIngestionService.rr_remaining := Fin 499 |}.
Proof.
  intros events params w.
  rewrite (@refreshOdds_counts_outcomes Sample.builtins params w
             {| data := PEvents events; remaining := Fin 499; warning := None |}).
  - reflexivity.
  - reflexivity.
  - reflexivity.
Defined.

(** ** American odds and payout *)





Lemma Qdiv_le_antitone (c a b : Q) :
  (0 <= c)%Q -> (0 < b)%Q -> (b <= a)%Q -> (c / a <= c / b)%Q.
Proof.
  intros Hc Hb Hab. assert (Ha : (0 < a)%Q) by lra.
  apply Qle_shift_div_l; [exact Hb|].
  assert (Heq : (c / a * b == c * (b / a))%Q) by (field; lra).
  rewrite Heq.
  assert (Hba : (b / a <= 1)%Q) by (apply Qle_shift_div_r; lra).
  assert (H0 : (0 <= b / a)%Q) by (apply Qle_shift_div_l; lra).
  nra.
Qed.





(** ** The rows of the sports *)

Lemma to_int32_range (z : Z) : - 2 ^ 31 <= Ids.to_int32 z < 2 ^ 31.
Proof.
  unfold Ids.to_int32.
  pose proof (Z.mod_pos_bound (z + 2 ^ 31) (2 ^ 32) ltac:(lia)). lia.
Qed.

Lemma makeSportIdFromKey_bounds (sportKey : string) :
  0 <= Ids.makeSportIdFromKey sportKey <= 2 ^ 31.
Proof.
  unfold Ids.makeSportIdFromKey.
  assert (Hh : - 2 ^ 31 <= fold_left
                             (fun h c => Ids.to_int32 (h * 31 + Str.code c))
                             (list_ascii_of_string sportKey) 0 < 2 ^ 31).
  { apply (fold_left_invariant (fun h => - 2 ^ 31 <= h < 2 ^ 31)).
    - intros h c _. apply to_int32_range.
    - lia. }
  lia.
Qed.

Lemma refreshOdds_sports `{JsBuiltins}
    (params : OddsIngestionService.RefreshParams) (w : World) :
  sports (store (snd (OddsIngestionService.refreshOdds params w)))
  = setOnInsert (Ids.makeSportIdFromKey (OddsIngestionService.sportKey params))
      {| sport_name := OddsIngestionService.sportKey params;
         sport_key := OddsIngestionService.sportKey params |}
      (sports (store w)).
Proof.
  rewrite refreshOdds_run. cbv zeta.
  match goal with
  | |- context [OddsApiService.getOdds ?p ?w0] =>
      pose proof (getOdds_store_frame p w0) as (Hs & _);
      destruct (OddsApiService.getOdds p w0) as [[res|e] wg]
  end; cbn [fst snd] in *.
  - destruct (truthy _).
    + cbn [snd logger store]. rewrite Hs. reflexivity.
    + match goal with
      | |- context [for_of ?body 0 ?l ?w0] =>
          pose proof (preserves_for_of loop_step body
                        (fun i x => ingestEvent_loop_step _ _ _ _ i x) l 0 w0)
            as (_ & _ & Hsp);
          destruct (for_of body 0 l w0) as [[n|e] w2]
      end; cbn [fst snd] in *; rewrite Hsp, Hs; reflexivity.
  - rewrite Hs. reflexivity.
Qed.

(** X11. The id of a sport is a 31-bit hash of its key: it lies between 0
    and 2^31, and two keys may share it ([Aa] and [BB] do).  A run of
    [refreshOdds] changes the collection of the sports by the
    insert-if-absent of the row of its own key and by nothing else; so the
    row that sits at an id stays, and a second key with the same id never
    gets a row of its own. *)
Theorem sport_rows_are_keyed_by_hash `{JsBuiltins} :
  (forall sportKey, 0 <= Ids.makeSportIdFromKey sportKey <= 2 ^ 31)
  /\ (forall params w,
        sports (store (snd (OddsIngestionService.refreshOdds params w)))
        = setOnInsert
            (Ids.makeSportIdFromKey (OddsIngestionService.sportKey params))
            {| sport_name := OddsIngestionService.sportKey params;
               sport_key := OddsIngestionService.sportKey params |}
            (sports (store w)))
  /\ (forall params w r,
        sports (store w)
          !! Ids.makeSportIdFromKey (OddsIngestionService.sportKey params)
        = Some r ->
        sports (store (snd (OddsIngestionService.refreshOdds params w)))
        = sports (store w))
  /\ ("Aa" <> "BB" /\ Ids.makeSportIdFromKey "Aa" = Ids.makeSportIdFromKey "BB").
Proof.
  split; [exact makeSportIdFromKey_bounds|].
  split; [exact refreshOdds_sports|].
  split; [|split; [discriminate|vm_compute; reflexivity]].
  intros params w r Hr. rewrite refreshOdds_sports.
  unfold setOnInsert. rewrite Hr. reflexivity.
Qed.

Lemma sport_rows_are_keyed_by_hash_witness :
  let params := {| OddsIngestionService.sportKey := "BB";
                   OddsIngestionService.rp_regions := None;
                   OddsIngestionService.rp_markets := None;
                   OddsIngestionService.rp_oddsFormat := None |} in
  let w := Sample.with_sport "Aa" (Sample.fresh (Sample.env_serving [] 1700000000000 1)) in
  sports (store (snd (@OddsIngestionService.refreshOdds Sample.builtins params w)))
  = sports (store w).
Proof.
  intros params w.
  destruct (@sport_rows_are_keyed_by_hash Sample.builtins) as (_ & _ & Hkeep & _).
  apply (Hkeep params w {| sport_name := "Aa"; sport_key := "Aa" |}).
  vm_compute. reflexivity.
Defined.

(** ** Slugs *)

Ltac by_char c :=
  destruct c as [[|] [|] [|] [|] [|] [|] [|] [|]];
  vm_compute; try reflexivity; intros; try discriminate; try reflexivity.







(** A list that does not start with white space. *)
Lemma drop_spaces_clean (l : list ascii) :
  (forall c r, l = c :: r -> Str.is_space c = false) -> Str.drop_spaces l = l.
Proof.
  destruct l as [|c r]; intros Hc; simpl; [reflexivity|].
  rewrite (Hc c r eq_refl). reflexivity.
Qed.

Lemma drop_spaces_head (l : list ascii) :
  forall c r, Str.drop_spaces l = c :: r -> Str.is_space c = false.
Proof.
  induction l as [|d l IH]; intros c r; simpl; [discriminate|].
  destruct (Str.is_space d) eqn:Hd; [apply IH|].
  intros Heq. injection Heq as <- _. exact Hd.
Qed.

Lemma drop_spaces_suffix (l : list ascii) :
  exists p, l = p ++ Str.drop_spaces l.
Proof.
  induction l as [|d l [p Hp]]; simpl; [exists []; reflexivity|].
  destruct (Str.is_space d).
  - exists (d :: p). simpl. f_equal. exact Hp.
  - exists []. reflexivity.
Qed.












(** ** Abbreviations *)

Lemma drop_spaces_trim_chars (l : list ascii) :
  Str.drop_spaces (trim_chars l) = trim_chars l.
Proof.
  unfold trim_chars.
  apply drop_spaces_clean. intros c r Hcr.
  destruct (drop_spaces_suffix (rev (Str.drop_spaces l))) as [p Hp].
  apply (drop_spaces_head l c (r ++ rev p)).
  rewrite <- (rev_involutive (Str.drop_spaces l)), Hp, rev_app_distr, Hcr.
  reflexivity.
Qed.

Lemma split_ws_first (l : list ascii) :
  forall cur, cur <> [] ->
    exists p rest, OddsUtil.split_ws false cur l = p :: rest /\ p <> [].
Proof.
  induction l as [|d l IH]; intros cur Hcur; simpl.
  - exists (rev cur), []. split; [reflexivity|].
    intros Hrev. apply Hcur. rewrite <- (rev_involutive cur), Hrev. reflexivity.
  - destruct (Str.is_space d).
    + exists (rev cur), (OddsUtil.split_ws true [] l). split; [reflexivity|].
      intros Hrev. apply Hcur. rewrite <- (rev_involutive cur), Hrev. reflexivity.
    + apply IH. discriminate.
Qed.

Lemma parts_of_blank (name : string) :
  Str.trim name = "" -> OddsUtil.parts_of name = [].
Proof. intros Hb. unfold OddsUtil.parts_of. rewrite Hb. reflexivity. Qed.

Lemma parts_of_words (name : string) :
  Str.trim name <> "" -> OddsUtil.parts_of name <> [].
Proof.
  intros Hne. unfold OddsUtil.parts_of.
  assert (Hchars : list_ascii_of_string (Str.trim name)
                   = trim_chars (list_ascii_of_string name)).
  { unfold Str.trim, Str.on_chars. rewrite list_ascii_of_string_of_list_ascii.
    reflexivity. }
  rewrite Hchars.
  destruct (trim_chars (list_ascii_of_string name)) as [|c r] eqn:Ht.
  - exfalso. apply Hne. rewrite <- (string_of_list_ascii_of_string (Str.trim name)).
    rewrite Hchars. reflexivity.
  - assert (Hc : Str.is_space c = false).
    { apply (drop_spaces_head (trim_chars (list_ascii_of_string name)) c r).
      rewrite drop_spaces_trim_chars. exact Ht. }
    simpl. rewrite Hc.
    destruct (split_ws_first r [c]) as (p & rest & -> & Hp); [discriminate|].
    simpl. destruct p; [contradiction|]. simpl. discriminate.
Qed.

Lemma parts_of_nonempty (name : string) :
  Forall (fun p => p <> []) (OddsUtil.parts_of name).
Proof.
  unfold OddsUtil.parts_of.
  induction (OddsUtil.split_ws false [] _) as [|p l IH]; simpl; [constructor|].
  destruct p; simpl; [exact IH|]. constructor; [discriminate|exact IH].
Qed.

Lemma initials_length (parts : list (list ascii)) :
  Forall (fun p => p <> []) parts ->
  length (concat (map (fun p => map Str.upper_char (firstn 1 p)) parts))
  = length parts.
Proof.
  induction 1 as [|p l Hp Hl IH]; simpl; [reflexivity|].
  rewrite length_app, IH. destruct p; [contradiction|reflexivity].
Qed.

Lemma length_string_of_list (l : list ascii) :
  String.length (string_of_list_ascii l) = length l.
Proof. induction l as [|c l IH]; simpl; [reflexivity|rewrite IH; reflexivity]. Qed.

Lemma upper_char_not_lower (c : ascii) : Str.is_lower (Str.upper_char c) = false.
Proof. by_char c. Qed.

(** X13. The abbreviation of a name.  A name that is blank (empty, or
    white space only) is abbreviated [UNK], whatever the maximal length
    is.  Any other name is abbreviated by the upper-cased initials of its
    words, cut to the maximal length: for a maximal length of at least 1
    the abbreviation has as many characters as the name has words, or the
    maximal length if there are more words.  No abbreviation holds a
    lower-case letter. *)
Theorem toAbbrev_shape (name : string) (maxLen : option Z) :
  (Str.trim name = "" -> OddsUtil.toAbbrev name maxLen = "UNK")
  /\ (Str.trim name <> "" -> 1 <= default 4 maxLen ->
      String.length (OddsUtil.toAbbrev name maxLen)
      = Nat.min (Z.to_nat (default 4 maxLen)) (length (OddsUtil.parts_of name))
      /\ (1 <= String.length (OddsUtil.toAbbrev name maxLen))%nat
      /\ Z.of_nat (String.length (OddsUtil.toAbbrev name maxLen))
         <= default 4 maxLen)
  /\ Forall (fun c => Str.is_lower c = false)
            (list_ascii_of_string (OddsUtil.toAbbrev name maxLen)).
Proof.
  split; [|split].
  - intros Hb. unfold OddsUtil.toAbbrev. rewrite (parts_of_blank name Hb).
    reflexivity.
  - intros Hne Hmax. pose proof (parts_of_words name Hne) as Hparts.
    pose proof (parts_of_nonempty name) as Hall.
    unfold OddsUtil.toAbbrev.
    destruct (OddsUtil.parts_of name) as [|first rest] eqn:Hp; [contradiction|].
    cbv zeta.
    pose proof (initials_length (first :: rest) Hall) as Hlen.
    set (ab := concat (map (fun p => map Str.upper_char (firstn 1 p))
                           (first :: rest))) in *.
    assert (Hab : OddsUtil.is_nil ab = false).
    { destruct ab; [simpl in Hlen; discriminate|reflexivity]. }
    rewrite Hab. unfold OddsUtil.slice_to.
    destruct (0 <=? default 4 maxLen) eqn:H0; [|lia].
    rewrite length_string_of_list, length_map, length_firstn, Hlen.
    simpl length. split; [reflexivity|]. lia.
  - unfold OddsUtil.toAbbrev.
    destruct (OddsUtil.parts_of name) as [|first rest].
    + repeat constructor.
    + cbv zeta. rewrite list_ascii_of_string_of_list_ascii.
      apply Forall_map. apply Forall_forall. intros c _.
      apply upper_char_not_lower.
Qed.

Lemma toAbbrev_shape_witness :
  OddsUtil.toAbbrev "   " (Some 1) = "UNK"
  /\ String.length (OddsUtil.toAbbrev "Los Angeles Lakers" None) = 3%nat
  /\ String.length (OddsUtil.toAbbrev "Los Angeles Lakers" (Some 2)) = 2%nat.
Proof.
  split; [|split].
  - apply (toAbbrev_shape "   " (Some 1)). reflexivity.
  - destruct (toAbbrev_shape "Los Angeles Lakers" None) as (_ & Hlen & _).
    destruct Hlen as (Hlen & _); [vm_compute; discriminate|simpl; lia|].
    rewrite Hlen. reflexivity.
  - destruct (toAbbrev_shape "Los Angeles Lakers" (Some 2)) as (_ & Hlen & _).
    destruct Hlen as (Hlen & _); [vm_compute; discriminate|simpl; lia|].
    rewrite Hlen. reflexivity.
Defined.

Example toAbbrev_of_a_team :
  OddsUtil.toAbbrev "  los  angeles lakers " None = "LAL"
  /\ OddsUtil.toAbbrev "Portland Trail Blazers" (Some 2) = "PT"
  /\ OddsUtil.toAbbrev "Lakers" None = "L".
Proof. vm_compute. repeat split; reflexivity. Qed.

(** ** The two conversions to the implied probability *)

(** X14. The cheat sheet has its own conversion of American odds to the
    implied probability.  On prices that are finite and not zero it
    agrees with the one of [utils/odds]; on zero and on values that are
    not finite the two differ: the utility answers 0, the cheat sheet
    answers NaN, which a row shows as [null]. *)
Theorem implied_probability_two_versions :
  (forall x : Q, ~ (x == 0)%Q ->
     CheatSheetService.americanToImpliedProb (Fin x)
     = Odds.americanToImpliedProb (Fin x))
  /\ (forall p : number,
        match p with Fin x => (x == 0)%Q | _ => True end ->
        CheatSheetService.americanToImpliedProb p = NaN
        /\ Odds.americanToImpliedProb p = Fin 0
        /\ finite_or_null (CheatSheetService.americanToImpliedProb p) = None).
Proof.
  split.
  - intros x Hx.
    unfold CheatSheetService.americanToImpliedProb, Odds.americanToImpliedProb.
    assert (Hne : Qeq_bool x 0 = false) by (apply Qeq_bool_false_iff; exact Hx).
    rewrite Hne.
    destruct (Qlt_le_dec 0 x) as [Hpos|Hle].
    + assert (H1 : Qlt_bool 0 x = true) by (apply Qlt_bool_iff; exact Hpos).
      assert (H2 : Qlt_bool x 0 = false) by (apply Qlt_bool_false_iff; lra).
      rewrite H1, H2. reflexivity.
    + assert (Hneg : (x < 0)%Q).
      { destruct (Qlt_le_dec x 0) as [H|H]; [exact H|]. exfalso. apply Hx. lra. }
      assert (H1 : Qlt_bool 0 x = false) by (apply Qlt_bool_false_iff; exact Hle).
      assert (H2 : Qlt_bool x 0 = true) by (apply Qlt_bool_iff; exact Hneg).
      rewrite H1, H2. reflexivity.
  - intros [x| | |] Hp; simpl; try (repeat split; reflexivity).
    assert (H0 : Qeq_bool x 0 = true) by (apply Qeq_bool_iff; exact Hp).
    rewrite H0. repeat split; reflexivity.
Qed.

Lemma implied_probability_two_versions_witness :
  CheatSheetService.americanToImpliedProb (Fin (-110))
  = Odds.americanToImpliedProb (Fin (-110))
  /\ CheatSheetService.americanToImpliedProb (Fin 0) = NaN
  /\ Odds.americanToImpliedProb (Fin 0) = Fin 0.
Proof.
  destruct implied_probability_two_versions as [Hsame Hdiff].
  split; [apply Hsame; discriminate|].
  destruct (Hdiff (Fin 0)) as (H1 & H2 & _); [reflexivity|].
  split; [exact H1|exact H2].
Defined.

(** ** The routes of the ingestion *)

Lemma getOdds_invalid_market (p : GetOddsParams) (w : World) :
  OddsApiService.apiKeyOf (env w) <> "" ->
  existsb OddsApiService.isPlayerPropMarket
          (default ["h2h"; "spreads"; "totals"] (markets p)) = true ->
  fst (OddsApiService.getOdds p w) = Thrown OddsApiService.INVALID_MARKET.
Proof.
  intros Hk Hm. apply nonempty_ne in Hk.
  unfold OddsApiService.getOdds. run_monad. simpl.
  rewrite Hk. simpl. rewrite Hm. reflexivity.
Qed.

Lemma refreshOdds_when_degraded `{JsBuiltins}
    (params : OddsIngestionService.RefreshParams) (w : World) :
  OddsApiService.apiKeyOf (env w) = "" ->
  fst (OddsIngestionService.refreshOdds params w)
  = Returned {| OddsIngestionService.ingestedSnapshots := 0;
                OddsIngestionService.rr_remaining := Fin 0 |}.
Proof.
  intros Hk. rewrite refreshOdds_run. cbv zeta.
  rewrite getOdds_without_key by exact Hk. reflexivity.
Qed.

(** X15. The route that refreshes the odds never throws.  Without a
    [sportKey] (no body, no such field, or the empty string) it answers
    400 and does nothing at all: no reading of the clock, no write, no
    call of the feed.  An error of the service is answered with the status
    the error carries, 500 if it carries none: a player-prop market asked
    of a configured feed yields 422 with the message of INVALID_MARKET,
    while the row of the sport, written before the feed call, stays.
    Without a credential the answer is 200 with a count of 0, and its data
    carry no warning. *)
Theorem refreshOddsNow_responses `{JsBuiltins}
    (body : option OddsIngestionController.RefreshBody) (w : World) :
  let run := OddsIngestionController.refreshOddsNow body w in
  (exists r, fst run = Returned r)
  /\ (body ≫= (fun b => truthy (OddsIngestionController.rb_sportKey b)) = None ->
      run = (Returned (OddsIngestionController.fail 400 "sportKey is required"), w))
  /\ (forall b sportKey,
        body = Some b ->
        truthy (OddsIngestionController.rb_sportKey b) = Some sportKey ->
        OddsApiService.apiKeyOf (env w) <> "" ->
        existsb OddsApiService.isPlayerPropMarket
          (default ["h2h"; "spreads"; "totals"]
                   (OddsIngestionController.rb_markets b)) = true ->
        fst run
        = Returned (OddsIngestionController.fail 422
                      (err_message OddsApiService.INVALID_MARKET))
        /\ store_ops (snd run)
           = store_ops w
             ++ [SportSetOnInsert (Ids.makeSportIdFromKey sportKey)
                   {| sport_name := sportKey; sport_key := sportKey |}])
  /\ (forall b sportKey,
        body = Some b ->
        truthy (OddsIngestionController.rb_sportKey b) = Some sportKey ->
        OddsApiService.apiKeyOf (env w) = "" ->
        fst run
        = Returned
            (OddsIngestionController.send
               (JObj [("ingestedSnapshots", JInt 0); ("remaining", JNum (Fin 0))]))
        /\ js_get "warning"
             (JObj [("ingestedSnapshots", JInt 0); ("remaining", JNum (Fin 0))])
           = JUndefined).
Proof.
  intros run. subst run. unfold OddsIngestionController.refreshOddsNow.
  split; [|split; [|split]].
  - unfold try_catch.
    destruct (body ≫= _) as [sportKey|]; [|eexists; reflexivity].
    unfold bind.
    destruct (OddsIngestionService.refreshOdds _ w) as [[r|e] w1];
      eexists; reflexivity.
  - intros Hnone. rewrite Hnone. reflexivity.
  - intros b sportKey -> Hkey Hk Hm. cbn [mbind option_bind]. rewrite Hkey.
    set (params := {| OddsIngestionService.sportKey := sportKey;
                      OddsIngestionService.rp_regions := _ |}).
    pose proof (refreshOdds_when_feed_throws params w OddsApiService.INVALID_MARKET
                  (getOdds_invalid_market
                     {| sport := sportKey;
                        regions := OddsIngestionController.rb_regions b;
                        markets := OddsIngestionController.rb_markets b;
                        oddsFormat := OddsIngestionController.rb_oddsFormat b |}
                     w Hk Hm)) as (Hthrown & Hops & _).
    unfold try_catch, bind.
    destruct (OddsIngestionService.refreshOdds params w) as [[r|e] w1];
      cbn [fst snd] in *; [discriminate|].
    injection Hthrown as ->. split; [reflexivity|exact Hops].
  - intros b sportKey -> Hkey Hk. cbn [mbind option_bind]. rewrite Hkey.
    set (params := {| OddsIngestionService.sportKey := sportKey;
                      OddsIngestionService.rp_regions := _ |}).
    pose proof (refreshOdds_when_degraded params w Hk) as Hdeg.
    unfold try_catch, bind.
    destruct (OddsIngestionService.refreshOdds params w) as [[r|e] w1];
      cbn [fst snd] in *; [|discriminate].
    injection Hdeg as ->. split; reflexivity.
Qed.

Lemma refreshOddsNow_responses_witness :
  let w := Sample.fresh (Sample.env_serving [] 1700000000000 1) in
  let body := {| OddsIngestionController.rb_sportKey := Some "basketball_nba";
                 OddsIngestionController.rb_regions := None;
                 OddsIngestionController.rb_markets := Some ["player_points"];
                 OddsIngestionController.rb_oddsFormat := None |} in
  @OddsIngestionController.refreshOddsNow Sample.builtins None w
  = (Returned (OddsIngestionController.fail 400 "sportKey is required"), w)
  /\ SportsToolsController.res_status
       <$> returned (fst (@OddsIngestionController.refreshOddsNow
                            Sample.builtins (Some body) w))
     = Some 422
  /\ SportsToolsController.res_status
       <$> returned (fst (@OddsIngestionController.refreshOddsNow
                            Sample.builtins (Some body)
                            (Sample.fresh Sample.env_without_key)))
     = Some 200.
Proof.
  intros w body.
  split; [|split].
  - apply (@refreshOddsNow_responses Sample.builtins None w). reflexivity.
  - destruct (@refreshOddsNow_responses Sample.builtins (Some body) w)
      as (_ & _ & H422 & _).
    destruct (H422 body "basketball_nba") as [Hrun _];
      [reflexivity|reflexivity|vm_compute; discriminate|vm_compute; reflexivity|].
    rewrite Hrun. reflexivity.
  - destruct (@refreshOddsNow_responses Sample.builtins (Some body)
                (Sample.fresh Sample.env_without_key))
      as (_ & _ & _ & H200).
    destruct (H200 body "basketball_nba") as [Hrun _];
      [reflexivity|reflexivity|reflexivity|].
    rewrite Hrun. reflexivity.
Defined.

(** ** The routes of the analytics *)

Lemma getCheatSheet_returns `{JsBuiltins} q w :
  exists r, fst (SportsToolsController.getCheatSheet q w) = Returned r
            /\ match r with
               | SportsToolsController.SheetRefused st _ => st = 400 \/ st = 500
               | SportsToolsController.SheetSent _ => True
               end.
Proof.
  unfold SportsToolsController.getCheatSheet, try_catch. cbv zeta.
  destruct (negb _); [eexists; split; [reflexivity|left; reflexivity]|].
  destruct (negb _); [eexists; split; [reflexivity|left; reflexivity]|].
  unfold bind.
  destruct (CheatSheetService.getPlayerPropsCheatSheet _ w) as [[sheet|e] w1].
  - eexists; split; [reflexivity|exact I].
  - eexists; split; [reflexivity|right; reflexivity].
Qed.

Lemma getPositiveEV_returns `{PositiveEVService} q w :
  exists r, fst (SportsToolsController.getPositiveEV q w) = Returned r
            /\ (SportsToolsController.res_status r = 200
                \/ SportsToolsController.res_status r = 500).
Proof.
  unfold SportsToolsController.getPositiveEV, try_catch, bind. cbv zeta.
  destruct (OddsApiService.getSportByKey _ w) as [[sp|e] w1].
  - destruct (OddsApiService.getOdds _ w1) as [[res|e] w2].
    + eexists; split; [reflexivity|left; reflexivity].
    + eexists; split; [reflexivity|right; reflexivity].
  - eexists; split; [reflexivity|right; reflexivity].
Qed.

Lemma getSportByKey_returns sportKey w :
  exists r, fst (OddsApiService.getSportByKey sportKey w) = Returned r.
Proof.
  unfold OddsApiService.getSportByKey, try_catch, bind.
  destruct (OddsApiService.getSports w) as [[res|e] w1];
    [destruct (data res)|]; eexists; reflexivity.
Qed.

(** X16. The routes of the analytics never throw: the cheat-sheet route
    answers with the sheet, with 400 or with 500, the positive-EV route
    with 200 or with 500, the sports route with the answer of the feed
    client (the degraded one, or one without a warning) or with 500.  The cheat-sheet route refuses a sport or a
    market that is blank with 400 before anything is asked of the feed,
    and without a credential it sends the sheet with the warning of the
    feed.  The status an error carries is not passed on by these routes: a
    player-prop market asked of the positive-EV route with a configured
    feed is answered with 500 and the message of INVALID_MARKET, not with
    its 422. *)
Theorem analytics_routes_answer `{JsBuiltins} `{PositiveEVService} (w : World) :
  (forall q, exists r,
      fst (SportsToolsController.getCheatSheet q w) = Returned r
      /\ match r with
         | SportsToolsController.SheetRefused st _ => st = 400 \/ st = 500
         | SportsToolsController.SheetSent _ => True
         end)
  /\ (forall q, exists r,
        fst (SportsToolsController.getPositiveEV q w) = Returned r
        /\ (SportsToolsController.res_status r = 200
            \/ SportsToolsController.res_status r = 500))
  /\ (forall q,
        Str.trim (Str.or_else (SportsToolsController.cq_sport q) "") = "" ->
        SportsToolsController.getCheatSheet q w
        = (Returned (SportsToolsController.SheetRefused 400 "sport is required"), w))
  /\ (forall q,
        Str.trim (Str.or_else (SportsToolsController.cq_sport q) "") <> "" ->
        Str.trim (Str.or_else (SportsToolsController.cq_market q) "") = "" ->
        SportsToolsController.getCheatSheet q w
        = (Returned (SportsToolsController.SheetRefused 400 "market is required"), w))
  /\ (forall q,
        Str.trim (Str.or_else (SportsToolsController.cq_sport q) "") <> "" ->
        Str.trim (Str.or_else (SportsToolsController.cq_market q) "") <> "" ->
        OddsApiService.apiKeyOf (env w) = "" ->
        fst (SportsToolsController.getCheatSheet q w)
        = Returned (SportsToolsController.SheetSent
                      {| CheatSheetService.cs_data := [];
                         CheatSheetService.cs_remaining := Fin 0;
                         CheatSheetService.cs_warning :=
                           Some "ODDS_API_KEY not configured" |}))
  /\ (forall q,
        OddsApiService.apiKeyOf (env w) <> "" ->
        existsb OddsApiService.isPlayerPropMarket
          (SportsToolsController.csv
             (Str.or_else (SportsToolsController.q_markets q)
                          "h2h,spreads,totals")) = true ->
        fst (SportsToolsController.getPositiveEV q w)
        = Returned (OddsIngestionController.fail 500
                      (err_message OddsApiService.INVALID_MARKET))
        /\ err_status OddsApiService.INVALID_MARKET = Some 422)
  /\ (exists r,
        fst (SportsToolsController.getSports w) = Returned r
        /\ match r with
           | SportsToolsController.SportsRefused st _ => st = 500
           | SportsToolsController.SportsSent res =>
               warning res = None
               \/ res = OddsApiService.not_configured (PEvents [])
           end).
Proof.
  split; [intros q; apply getCheatSheet_returns|].
  split; [intros q; apply getPositiveEV_returns|].
  split; [|split; [|split; [|split]]]; cycle 4.
  { unfold SportsToolsController.getSports, try_catch, bind.
    pose proof (getSports_relays w) as Hrel. unfold relays_upstream in Hrel.
    destruct (OddsApiService.getSports w) as [[res|e] w1]; cbn [fst snd] in *.
    - eexists. split; [reflexivity|].
      destruct Hrel as [(_ & Hres & _)|(_ & Hw & _)];
        [right; exact Hres|left; exact Hw].
    - eexists. split; reflexivity. }
  - intros q Hs. unfold SportsToolsController.getCheatSheet, try_catch.
    cbv zeta. rewrite Hs. reflexivity.
  - intros q Hs Hm. apply nonempty_ne in Hs.
    unfold SportsToolsController.getCheatSheet, try_catch.
    cbv zeta. rewrite Hs, Hm. reflexivity.
  - intros q Hs Hm Hk. apply nonempty_ne in Hs. apply nonempty_ne in Hm.
    unfold SportsToolsController.getCheatSheet, try_catch.
    cbv zeta. rewrite Hs, Hm. cbn [negb]. unfold bind.
    match goal with
    | |- context [CheatSheetService.getPlayerPropsCheatSheet ?p w] =>
        pose proof (getPlayerPropsCheatSheet_degraded p w Hk) as Hdeg;
        destruct (CheatSheetService.getPlayerPropsCheatSheet p w) as [[sheet|e] w1]
    end; cbn [fst] in Hdeg; [|discriminate].
    injection Hdeg as ->. reflexivity.
  - intros q Hk Hm. split; [|reflexivity].
    unfold SportsToolsController.getPositiveEV, try_catch, bind. cbv zeta.
    match goal with
    | |- context [OddsApiService.getSportByKey ?k w] =>
        pose proof (getSportByKey_read_only k w) as (_ & _ & _ & Henv & _);
        pose proof (getSportByKey_returns k w) as Hret;
        destruct (OddsApiService.getSportByKey k w) as [[sp|e] w1]
    end; cbn [fst snd] in *.
    + rewrite <- Henv in Hk.
      match goal with
      | |- context [OddsApiService.getOdds ?p w1] =>
          pose proof (getOdds_invalid_market p w1 Hk Hm) as Hthrown;
          destruct (OddsApiService.getOdds p w1) as [[res|e] w2]
      end; cbn [fst] in Hthrown; [discriminate|].
      injection Hthrown as ->. reflexivity.
    + destruct Hret as [r Hr]. discriminate.
Qed.

Lemma analytics_routes_answer_witness :
  let w := Sample.fresh (Sample.env_serving [] 1700000000000 1) in
  let blank := {| SportsToolsController.cq_sport := Some "  ";
                  SportsToolsController.cq_market := Some "h2h";
                  SportsToolsController.cq_regions := None;
                  SportsToolsController.cq_oddsFormat := None;
                  SportsToolsController.cq_top := None |} in
  let props := {| SportsToolsController.q_sport := None;
                  SportsToolsController.q_region := None;
                  SportsToolsController.q_markets := Some "h2h, player_points";
                  SportsToolsController.q_oddsFormat := None |} in
  @SportsToolsController.getCheatSheet Sample.builtins blank w
  = (Returned (SportsToolsController.SheetRefused 400 "sport is required"), w)
  /\ SportsToolsController.res_status
       <$> returned (fst (@SportsToolsController.getPositiveEV
                            Sample.no_bets props w))
     = Some 500.
Proof.
  intros w blank props.
  destruct (@analytics_routes_answer Sample.builtins Sample.no_bets w)
    as (_ & _ & Hsport & _ & _ & Hev & _).
  split; [apply Hsport; reflexivity|].
  destruct (Hev props) as [Hrun _];
    [vm_compute; discriminate|vm_compute; reflexivity|].
  rewrite Hrun. reflexivity.
Defined.

(** ** Status and archive in numbers *)

Lemma fold_max_spec (l : list Z) (a : Z) :
  a <= fold_left Z.max l a
  /\ (forall x, x ∈ l -> x <= fold_left Z.max l a)
  /\ fold_left Z.max l a ∈ a :: l.
Proof.
  revert a. induction l as [|y l IH]; intros a; simpl.
  - split; [lia|]. split; [intros x Hx; inversion Hx|].
    apply elem_of_cons. left. reflexivity.
  - destruct (IH (Z.max a y)) as (Hge & Hall & Hin).
    split; [lia|]. split.
    + intros x Hx. apply elem_of_cons in Hx as [->|Hx]; [lia|apply Hall, Hx].
    + apply elem_of_cons in Hin as [Heq|Hin].
      * rewrite Heq. destruct (Z.max_spec a y) as [[_ ->]|[_ ->]].
        -- apply elem_of_cons. right. apply elem_of_cons. left. reflexivity.
        -- apply elem_of_cons. left. reflexivity.
      * apply elem_of_cons. right. apply elem_of_cons. right. exact Hin.
Qed.

(** X17. [status] reads and does not change the world.  It reports the
    numbers of rows of the hot table and of the archive; the time of the
    last fetch is [null] exactly when the hot table is empty, and
    otherwise it is the fetch time of some hot snapshot and no hot
    snapshot was fetched later.  The status route sends these three
    values with 200. *)
Theorem status_reports_latest (w : World) :
  exists st,
    OddsIngestionService.status w = (Returned st, w)
    /\ OddsIngestionService.st_snapshots st
       = Z.of_nat (size (snapshots (store w)))
    /\ OddsIngestionService.st_archived st
       = Z.of_nat (size (archived (store w)))
    /\ (OddsIngestionService.st_lastFetchedAt st = None
        <-> snapshots (store w) = ∅)
    /\ (forall t, OddsIngestionService.st_lastFetchedAt st = Some t ->
          (exists k r, snapshots (store w) !! k = Some r
                       /\ snap_fetched_at r = t)
          /\ forall k r, snapshots (store w) !! k = Some r ->
                         snap_fetched_at r <= t)
    /\ fst (OddsIngestionController.getOddsIngestionStatus w)
       = Returned
           (OddsIngestionController.send
              (JObj [("snapshots", JInt (OddsIngestionService.st_snapshots st));
                     ("lastFetchedAt",
                       match OddsIngestionService.st_lastFetchedAt st with
                       | Some t => JInt t
                       | None => JNull
                       end);
                     ("archived", JInt (OddsIngestionService.st_archived st))])).
Proof.
  eexists. split; [reflexivity|]. cbn.
  split; [reflexivity|]. split; [reflexivity|].
  match goal with
  | |- ?A /\ ?B /\ _ =>
      cut (A /\ B);
      [intros [HA HB]; split; [exact HA|split; [exact HB|reflexivity]]|]
  end.
  set (m := snapshots (store w)).
  assert (Hmem : forall t, t ∈ map (fun kv => snap_fetched_at (snd kv)) (map_to_list m)
                           <-> exists k r, m !! k = Some r /\ snap_fetched_at r = t).
  { intros t. rewrite list_elem_of_fmap. split.
    - intros ([k r] & -> & Hin). apply elem_of_map_to_list in Hin.
      exists k, r. split; [exact Hin|reflexivity].
    - intros (k & r & Hk & <-). exists (k, r).
      split; [reflexivity|apply elem_of_map_to_list; exact Hk]. }
  destruct (map (fun kv => snap_fetched_at (snd kv)) (map_to_list m))
    as [|t0 rest] eqn:Hl.
  - assert (Hempty : m = ∅).
    { apply map_to_list_empty_iff.
      destruct (map_to_list m); [reflexivity|discriminate]. }
    split; [split; [intros _; exact Hempty|reflexivity]|].
    intros t Ht. discriminate.
  - split.
    + split; [discriminate|]. intros Hempty. exfalso.
      rewrite Hempty, map_to_list_empty in Hl. discriminate.
    + intros t Ht. injection Ht as <-.
      destruct (fold_max_spec rest t0) as (Hge & Hall & Hin).
      split; [apply Hmem; exact Hin|].
      intros k r Hk.
      assert (Hr : snap_fetched_at r ∈ t0 :: rest)
        by (apply Hmem; exists k, r; split; [exact Hk|reflexivity]).
      apply elem_of_cons in Hr as [->|Hr]; [exact Hge|apply Hall, Hr].
Qed.

Lemma status_reports_latest_witness :
  exists k r,
    snapshots (store Sample.aged_world) !! k = Some r
    /\ snap_fetched_at r = 1700000000000 - 1 * Sample.day.
Proof.
  destruct (status_reports_latest Sample.aged_world)
    as (st & Hrun & _ & _ & _ & Hlast & _).
  apply (Hlast (1700000000000 - 1 * Sample.day)).
  unfold OddsIngestionService.status, bind, read_store, ret in Hrun.
  injection Hrun as <-. vm_compute. reflexivity.
Defined.

Lemma deleteMany_find_older (cutoff : Z) (s : Store) :
  deleteMany (OddsIngestionService.find_older cutoff s).*1 (snapshots s)
  = filter (fun o => ~ snap_fetched_at (snd o) < cutoff) (snapshots s).
Proof.
  apply map_eq. intros k. rewrite lookup_deleteMany.
  apply option_eq. intros r. rewrite map_lookup_filter_Some. simpl.
  destruct (decide (k ∈ (OddsIngestionService.find_older cutoff s).*1)) as [Hin|Hout].
  - apply find_older_keys in Hin as (r' & Hk & Hlt).
    split; [discriminate|]. intros [Hk' Hge]. exfalso. apply Hge. congruence.
  - split.
    + intros Hk. split; [exact Hk|]. intros Hlt. apply Hout.
      apply find_older_keys. exists r. split; assumption.
    + intros [Hk _]. exact Hk.
Qed.

Lemma size_filter_complement `{Countable K} {V : Type} (P : K * V -> Prop)
    `{!forall x, Decision (P x)} (m : gmap K V) :
  (size (filter P m) + size (filter (fun x => ~ P x) m) = size m)%nat.
Proof.
  rewrite <- map_size_disj_union by apply map_disjoint_filter_complement.
  rewrite map_filter_union_complement. reflexivity.
Qed.

Lemma length_stamp clk n old : length (stamp clk n old) = length old.
Proof.
  revert n. induction old as [|o old IH]; intros n; simpl;
    [reflexivity|rewrite IH; reflexivity].
Qed.

Lemma size_setOnInsert `{Countable K} {V : Type} (k : K) (v : V) (m : gmap K V) :
  (size m <= size (setOnInsert k v m) <= size m + 1)%nat.
Proof.
  unfold setOnInsert. destruct (m !! k) eqn:Hk; [lia|].
  rewrite map_size_insert_None by exact Hk. lia.
Qed.

Lemma size_insertMany_unordered refuses docs m :
  (size m <= size (insertMany_unordered refuses docs m) <= size m + length docs)%nat.
Proof.
  unfold insertMany_unordered. revert m.
  induction docs as [|d docs IH]; intros m; simpl; [lia|].
  destruct (refuses (fst d)).
  - specialize (IH m). lia.
  - specialize (IH (setOnInsert (fst d) (snd d) m)).
    pose proof (size_setOnInsert (fst d) (snd d) m). lia.
Qed.

Lemma insertMany_unordered_union refuses docs (m : gmap Z OddsSnapshotArchiveRow) :
  (forall k, refuses k = false) ->
  insertMany_unordered refuses docs m = m ∪ list_to_map docs.
Proof.
  intros Hnone. apply map_eq. intros k.
  rewrite lookup_insertMany_unordered, Hnone, lookup_union.
  destruct (m !! k) as [a|]; simpl.
  - destruct (list_to_map docs !! k); reflexivity.
  - destruct (list_to_map docs !! k); reflexivity.
Qed.

(** X18. Archiving in numbers.  The count that [archiveOldSnapshots]
    returns is the number of rows it removes from the hot table.  The
    archive never shrinks and grows by that count at most; it grows by
    exactly that count, so that no snapshot is lost, when no write to the
    archive is refused and no removed row has the id of a row that is
    archived already.  The route reports the same count under
    [archived]. *)
Theorem archive_in_numbers (daysOld : Z) (w : World) :
  let run := OddsIngestionService.archiveOldSnapshots daysOld w in
  let w' := snd run in
  exists n : nat,
    fst run = Returned (Z.of_nat n)
    /\ (size (snapshots (store w')) + n = size (snapshots (store w)))%nat
    /\ (size (archived (store w)) <= size (archived (store w')))%nat
    /\ (size (archived (store w')) <= size (archived (store w)) + n)%nat
    /\ ((forall k, archive_refuses (env w) k = false) ->
        (forall k, is_Some (snapshots (store w) !! k) ->
                   archived (store w) !! k = None) ->
        (size (archived (store w')) = size (archived (store w)) + n)%nat)
    /\ fst (OddsIngestionController.archiveOddsSnapshots (Some daysOld) w)
       = Returned (OddsIngestionController.send
                     (JObj [("archived", JInt (Z.of_nat n))])).
Proof.
  intros run w'. subst w' run.
  pose proof (archiveOldSnapshots_run daysOld w) as Hrun.
  pose proof (archiveOldSnapshots_store daysOld w) as (_ & Hsnap & Harch & _).
  cbv zeta in Hrun, Hsnap, Harch.
  set (cutoff := clock (env w) (clock_reads w)
                 - daysOld * OddsIngestionService.DAY_MS) in *.
  set (old := OddsIngestionService.find_older cutoff (store w)) in *.
  assert (Hret : fst (OddsIngestionService.archiveOldSnapshots daysOld w)
                 = Returned (Z.of_nat (length old))).
  { rewrite Hrun. destruct old; reflexivity. }
  assert (Hlen : length old
                 = size (filter (fun o => snap_fetched_at (snd o) < cutoff)
                                (snapshots (store w)))).
  { unfold old, OddsIngestionService.find_older.
    apply length_map_to_list. }
  exists (length old). split; [exact Hret|].
  split.
  { rewrite Hsnap, Hlen. unfold old. rewrite deleteMany_find_older.
    pose proof (size_filter_complement
                  (fun o : Z * OddsSnapshotRow => snap_fetched_at (snd o) < cutoff)
                  (snapshots (store w))). lia. }
  pose proof (size_insertMany_unordered (archive_refuses (env w))
                (stamp (clock (env w)) (S (clock_reads w)) old)
                (archived (store w))) as Hsize.
  rewrite length_stamp in Hsize. rewrite Harch.
  split; [lia|]. split; [lia|]. split.
  - intros Hnone Hfresh.
    rewrite (insertMany_unordered_union _ _ _ Hnone).
    rewrite map_size_disj_union.
    + rewrite map_size_list_to_map, length_stamp; [reflexivity|].
      rewrite stamp_keys. unfold old, OddsIngestionService.find_older.
      apply NoDup_fst_map_to_list.
    + apply map_disjoint_spec. intros k a b Ha Hb.
      apply elem_of_list_to_map_2 in Hb.
      assert (Hk : k ∈ (stamp (clock (env w)) (S (clock_reads w)) old).*1).
      { apply list_elem_of_fmap. exists (k, b). split; [reflexivity|exact Hb]. }
      rewrite stamp_keys in Hk. apply find_older_keys in Hk as (r & Hr & _).
      rewrite Hfresh in Ha by (exists r; exact Hr). discriminate.
  - clear Hrun Hsnap Harch Hsize.
    assert (Hpair : OddsIngestionService.archiveOldSnapshots daysOld w
                    = (Returned (Z.of_nat (length old)),
                       snd (OddsIngestionService.archiveOldSnapshots daysOld w))).
    { destruct (OddsIngestionService.archiveOldSnapshots daysOld w) as [o w1].
      cbn [fst snd] in *. rewrite Hret. reflexivity. }
    unfold OddsIngestionController.archiveOddsSnapshots, try_catch, bind.
    change (default 7 (Some daysOld)) with daysOld.
    rewrite Hpair. reflexivity.
Qed.

Lemma archive_in_numbers_witness :
  let w' := snd (OddsIngestionService.archiveOldSnapshots 7 Sample.aged_world) in
  exists n : nat,
    fst (OddsIngestionService.archiveOldSnapshots 7 Sample.aged_world)
    = Returned (Z.of_nat n)
    /\ (size (archived (store w')) = size (archived (store Sample.aged_world)) + n)%nat.
Proof.
  destruct (archive_in_numbers 7 Sample.aged_world)
    as (n & Hret & _ & _ & _ & Hexact & _).
  exists n. split; [exact Hret|].
  apply Hexact.
  - intros k. reflexivity.
  - intros k _. reflexivity.
Defined.

(** ** The rows of the cheat sheet *)

Lemma Map_set_Forall (P : CheatSheetService.CheatSheetOutcome -> Prop) k v m :
  P v -> Forall (fun kv => P (snd kv)) m ->
  Forall (fun kv => P (snd kv)) (CheatSheetService.Map_set k v m).
Proof.
  intros Hv. induction 1 as [|[k' v'] m Hkv Hm IH]; simpl.
  - constructor; [exact Hv|constructor].
  - destruct (String.eqb k k'); constructor; simpl; assumption.
Qed.

Lemma choose_Forall (P : CheatSheetService.CheatSheetOutcome -> Prop) k c m :
  P c -> Forall (fun kv => P (snd kv)) m ->
  Forall (fun kv => P (snd kv)) (CheatSheetService.choose k c m).
Proof.
  intros Hc Hm. unfold CheatSheetService.choose.
  destruct (CheatSheetService.Map_get k m) as [e|];
    [|apply Map_set_Forall; assumption].
  destruct (CheatSheetService.bestPrice e), (CheatSheetService.bestPrice c);
    try exact Hm; try (apply Map_set_Forall; assumption).
  destruct (Qlt_bool _ _); [apply Map_set_Forall; assumption|exact Hm].
Qed.

Lemma candidateOf_sheet_row `{JsBuiltins} sport market ev bookmakerKey o :
  Str.nonempty (CheatSheetService.playerOf market o) = true ->
  Str.nonempty (CheatSheetService.sideOf market o) = true ->
  sheet_row sport (CheatSheetService.candidateOf sport market ev bookmakerKey o).
Proof.
  intros Hp Hs. unfold sheet_row, CheatSheetService.candidateOf. cbn.
  split; [reflexivity|]. split; [apply nonempty_ne; exact Hp|].
  split; [apply nonempty_ne; exact Hs|].
  destruct (o_price o) as [[p| | |]|]; reflexivity.
Qed.

Lemma buildBestMap_rows `{JsBuiltins} sport market events :
  Forall (fun kv => sheet_row sport (snd kv))
         (CheatSheetService.buildBestMap sport market events).
Proof.
  unfold CheatSheetService.buildBestMap.
  apply fold_left_invariant; [|constructor].
  intros m ev Hm. unfold CheatSheetService.addEvent.
  apply fold_left_invariant; [|exact Hm].
  clear m Hm. intros m bm Hm. unfold CheatSheetService.addBookmaker.
  destruct (ArbitrageService.find_market _ _) as [marketObj|]; [|exact Hm].
  apply fold_left_invariant; [|exact Hm].
  clear m Hm. intros m o Hm. unfold CheatSheetService.addOutcome.
  destruct (Str.nonempty (CheatSheetService.playerOf market o)) eqn:Hp;
    [|exact Hm].
  destruct (Str.nonempty (CheatSheetService.sideOf market o)) eqn:Hs;
    [|exact Hm].
  cbn [negb orb]. apply choose_Forall; [|exact Hm].
  apply candidateOf_sheet_row; assumption.
Qed.

Lemma clamp_range (lo hi x : Z) : lo <= hi -> lo <= clamp lo hi x <= hi.
Proof. intros Hle. unfold clamp. lia. Qed.

Lemma sheet_rows `{JsBuiltins} sport market top events :
  let rows := slice0 (clamp 1 500 top)
                (stable_sort (CheatSheetService.spicier)
                   (map snd (CheatSheetService.buildBestMap sport market events))) in
  Forall (sheet_row sport) rows /\ (length rows <= 500)%nat
  /\ (forall r, r ∈ rows ->
        exists key, (key, r) ∈ CheatSheetService.buildBestMap sport market events).
Proof.
  intros rows. subst rows. unfold slice0.
  pose proof (buildBestMap_rows sport market events) as Hrows.
  set (m := CheatSheetService.buildBestMap sport market events) in *.
  pose proof (stable_sort_perm CheatSheetService.spicier (map snd m)) as Hperm.
  split; [|split].
  - apply Forall_take. rewrite Hperm. apply Forall_fmap.
    eapply Forall_impl; [exact Hrows|]. intros kv Hkv. exact Hkv.
  - rewrite length_firstn. pose proof (clamp_range 1 500 top ltac:(lia)). lia.
  - intros r Hr. apply subseteq_take in Hr. rewrite Hperm in Hr.
    apply list_elem_of_fmap in Hr as ([k r'] & -> & Hin). exists k. exact Hin.
Qed.

Lemma sheet_row_probability sport r :
  sheet_row sport r ->
  match CheatSheetService.impliedProbability r with
  | Some q => (0 < q)%Q /\ (q < 1)%Q
  | None => True
  end.
Proof.
  intros (_ & _ & _ & Himp). rewrite Himp.
  destruct (CheatSheetService.bestPrice r) as [p|]; [|exact I].
  unfold CheatSheetService.americanToImpliedProb.
  destruct (Qeq_bool p 0) eqn:H0; [exact I|].
  apply Qeq_bool_false_iff in H0.
  destruct (Qlt_bool p 0) eqn:Hneg; simpl.
  - apply implied_negative_price. apply Qabs_pos_of_nonzero. exact H0.
  - apply Qlt_bool_false_iff in Hneg. apply implied_positive_price.
    destruct (Qlt_le_dec 0 p) as [Hp|Hp]; [exact Hp|]. exfalso. apply H0. lra.
Qed.

(** X19. The rows of a cheat sheet.  Whatever the feed answers, every
    row that [getPlayerPropsCheatSheet] returns is for the sport asked,
    names a player and a side that are not empty, and carries the implied
    probability of its own best price, computed by the conversion of the
    cheat sheet: a number strictly between 0 and 1, or [null] when the row
    has no finite price or the price 0.  There are at most 500 rows, and
    none when the result carries a warning. *)
Theorem cheat_sheet_rows `{JsBuiltins}
    (params : CheatSheetService.CheatSheetParams) (w : World) :
  match fst (CheatSheetService.getPlayerPropsCheatSheet params w) with
  | Returned r =>
      Forall (fun row =>
                sheet_row (CheatSheetService.cp_sport params) row
                /\ match CheatSheetService.impliedProbability row with
                   | Some q => (0 < q)%Q /\ (q < 1)%Q
                   | None => True
                   end)
             (CheatSheetService.cs_data r)
      /\ (length (CheatSheetService.cs_data r) <= 500)%nat
      /\ match CheatSheetService.cs_warning r with
         | Some _ => CheatSheetService.cs_data r = []
         | None => True
         end
  | Thrown _ => True
  end.
Proof.
  assert (Hfinish : forall remaining events,
             let r := {| CheatSheetService.cs_data :=
                           slice0 (clamp 1 500
                                     (default 50 (CheatSheetService.cp_top params)))
                             (stable_sort CheatSheetService.spicier
                                (map snd (CheatSheetService.buildBestMap
                                            (CheatSheetService.cp_sport params)
                                            (CheatSheetService.cp_market params)
                                            events)));
                         CheatSheetService.cs_remaining := remaining;
                         CheatSheetService.cs_warning := None |} in
             Forall (fun row =>
                       sheet_row (CheatSheetService.cp_sport params) row
                       /\ match CheatSheetService.impliedProbability row with
                          | Some q => (0 < q)%Q /\ (q < 1)%Q
                          | None => True
                          end)
                    (CheatSheetService.cs_data r)
             /\ (length (CheatSheetService.cs_data r) <= 500)%nat
             /\ match CheatSheetService.cs_warning r with
                | Some _ => CheatSheetService.cs_data r = []
                | None => True
                end).
  { intros remaining events r. subst r. cbn.
    destruct (sheet_rows (CheatSheetService.cp_sport params)
                (CheatSheetService.cp_market params)
                (default 50 (CheatSheetService.cp_top params)) events)
      as (Hrows & Hlen & _).
    split; [|split; [exact Hlen|exact I]].
    eapply Forall_impl; [exact Hrows|]. intros row Hrow.
    split; [exact Hrow|]. eapply sheet_row_probability. exact Hrow. }
  unfold CheatSheetService.getPlayerPropsCheatSheet. cbv zeta.
  destruct (negb _); unfold bind.
  - destruct (OddsApiService.getOdds _ w) as [[res|e] w1]; [|exact I].
    destruct (truthy _).
    + cbn. split; [constructor|]. split; [lia|reflexivity].
    + apply Hfinish.
  - destruct (OddsApiService.getEvents _ w) as [[res|e] w1]; [|exact I].
    destruct (truthy _).
    + cbn. split; [constructor|]. split; [lia|reflexivity].
    + destruct (for_of _ _ _ w1) as [[fetched|e] w2]; [|exact I].
      apply Hfinish.
Qed.

(** ** The best price of the arbitrage *)

Lemma Obj_get_set_eq {V : Type} k (v : V) (o : Obj.t V) :
  Obj.get k (Obj.set k v o) = Some v.
Proof.
  induction o as [|[k' v'] o IH]; simpl.
  - rewrite String.eqb_refl. reflexivity.
  - destruct (String.eqb k k') eqn:E; simpl.
    + rewrite String.eqb_refl. reflexivity.
    + rewrite E. exact IH.
Qed.

Lemma Obj_get_set_ne {V : Type} k k' (v : V) (o : Obj.t V) :
  k <> k' -> Obj.get k' (Obj.set k v o) = Obj.get k' o.
Proof.
  intros Hne. induction o as [|[k0 v0] o IH]; simpl.
  - destruct (String.eqb k' k) eqn:E; [|reflexivity].
    apply String.eqb_eq in E. congruence.
  - destruct (String.eqb k k0) eqn:E; simpl.
    + apply String.eqb_eq in E. subst k0.
      destruct (String.eqb k' k) eqn:E'; [|reflexivity].
      apply String.eqb_eq in E'. congruence.
    + destruct (String.eqb k' k0); [reflexivity|exact IH].
Qed.

Lemma bestPrices_quotes (market : string) (ev : OddsEvent) :
  ArbitrageService.bestPrices market ev
  = fold_left keep_best (quotes market ev) [].
Proof.
  unfold ArbitrageService.bestPrices, quotes.
  generalize (@nil (string * ArbitrageService.BestEntry)) as m.
  generalize (array_or_empty (e_bookmakers ev)) as bms.
  induction bms as [|bm bms IHb]; intros m; simpl; [reflexivity|].
  rewrite fold_left_app. rewrite <- IHb. f_equal.
  unfold ArbitrageService.bestBookmakerStep, quotes_of_bookmaker.
  destruct (ArbitrageService.find_market market (array_or_empty (b_markets bm)))
    as [mo|]; [|reflexivity].
  generalize (array_or_empty (m_outcomes mo)) as outs. clear IHb.
  intros outs. revert m.
  induction outs as [|o outs IHo]; intros m; simpl; [reflexivity|].
  rewrite fold_left_app. rewrite <- IHo. f_equal.
  unfold ArbitrageService.bestOutcome, quote.
  destruct (o_price o) as [[p| | |]|]; try reflexivity.
  cbv zeta. destruct (Str.nonempty _); reflexivity.
Qed.

Lemma keep_best_other (m : Obj.t ArbitrageService.BestEntry) (q : Quote) name :
  fst q <> name -> Obj.get name (keep_best m q) = Obj.get name m.
Proof.
  intros Hne. unfold keep_best.
  destruct (Obj.get (fst q) m) as [e|].
  - destruct (num_ltb _ _); [apply Obj_get_set_ne; exact Hne|reflexivity].
  - apply Obj_get_set_ne. exact Hne.
Qed.

Lemma best_of_quotes (l : list Quote) :
  let m := fold_left keep_best l [] in
  (forall name e, Obj.get name m = Some e ->
     exists before after b p,
       l = before ++ (name, (b, p)) :: after
       /\ e = entry_of (name, (b, p))
       /\ (forall b' q, (name, (b', q)) ∈ before -> (q < p)%Q)
       /\ (forall b' q, (name, (b', q)) ∈ after -> (q <= p)%Q))
  /\ (forall name, Obj.get name m = None -> forall x, (name, x) ∉ l).
Proof.
  induction l as [|[k0 [b0 p0]] l IH] using rev_ind; simpl.
  - split; [intros name e He; discriminate|].
    intros name _ x Hin. inversion Hin.
  - cbv zeta in *. rewrite fold_left_app. simpl.
    set (m := fold_left keep_best l []) in *.
    destruct IH as [IHs IHn].
    split.
    + intros name e He. destruct (string_dec k0 name) as [->|Hne].
      * unfold keep_best in He. cbn [fst snd] in He.
        destruct (Obj.get name m) as [e0|] eqn:Hget.
        -- destruct (IHs name e0 Hget) as (bf & af & b & p & -> & -> & Hb & Ha).
           cbn [entry_of ArbitrageService.price fst snd] in He.
           change (default NegInf (Some (Fin p))) with (Fin p) in He.
           cbn [num_ltb] in He.
           destruct (Qlt_bool p p0) eqn:Hlt.
           ++ apply Qlt_bool_iff in Hlt.
              rewrite Obj_get_set_eq in He. injection He as <-.
              exists (bf ++ (name, (b, p)) :: af), [], b0, p0.
              split; [reflexivity|]. split; [reflexivity|]. split.
              ** intros b' q Hq. apply elem_of_app in Hq as [Hq|Hq].
                 { specialize (Hb b' q Hq). lra. }
                 apply elem_of_cons in Hq as [Hq|Hq].
                 { injection Hq as _ ->. exact Hlt. }
                 specialize (Ha b' q Hq). lra.
              ** intros b' q Hq. inversion Hq.
           ++ apply Qlt_bool_false_iff in Hlt.
              rewrite Hget in He. injection He as <-.
              exists bf, (af ++ [(name, (b0, p0))]), b, p.
              split; [rewrite <- app_assoc; reflexivity|].
              split; [reflexivity|]. split; [exact Hb|].
              intros b' q Hq. apply elem_of_app in Hq as [Hq|Hq];
                [apply (Ha b' q Hq)|].
              apply list_elem_of_singleton in Hq. injection Hq as _ ->.
              exact Hlt.
        -- rewrite Obj_get_set_eq in He. injection He as <-.
           exists l, [], b0, p0. split; [reflexivity|]. split; [reflexivity|].
           split.
           ++ intros b' q Hq. exfalso. exact (IHn name Hget _ Hq).
           ++ intros b' q Hq. inversion Hq.
      * rewrite keep_best_other in He by exact Hne.
        destruct (IHs name e He) as (bf & af & b & p & -> & -> & Hb & Ha).
        exists bf, (af ++ [(k0, (b0, p0))]), b, p.
        split; [rewrite <- app_assoc; reflexivity|].
        split; [reflexivity|]. split; [exact Hb|].
        intros b' q Hq. apply elem_of_app in Hq as [Hq|Hq];
          [apply (Ha b' q Hq)|].
        apply list_elem_of_singleton in Hq. congruence.
    + intros name Hnone x Hx. destruct (string_dec k0 name) as [->|Hne].
      * unfold keep_best in Hnone. cbn [fst snd] in Hnone.
        destruct (Obj.get name m) as [e0|] eqn:Hget.
        -- destruct (num_ltb _ _);
             [rewrite Obj_get_set_eq in Hnone|rewrite Hget in Hnone];
             discriminate.
        -- rewrite Obj_get_set_eq in Hnone. discriminate.
      * rewrite keep_best_other in Hnone by exact Hne.
        apply elem_of_app in Hx as [Hx|Hx]; [exact (IHn name Hnone x Hx)|].
        apply list_elem_of_singleton in Hx. congruence.
Qed.

(** X20. The best price of the arbitrage.  For every outcome name of an
    event the entry that is kept is one of the quotes for that name (an
    outcome with a name that is not blank and a finite price, in the
    market asked): its price is strictly higher than every earlier quote
    for the name and at least as high as every later one.  So the entry
    holds the highest price quoted for the name, attributed to the first
    bookmaker that quotes it, and every name that is quoted has an
    entry. *)
Theorem arbitrage_keeps_highest_quote (market : string) (ev : OddsEvent) :
  let best := ArbitrageService.bestPrices market ev in
  (forall name e, Obj.get name best = Some e ->
     exists before after p,
       quotes market ev
       = before ++ (name, (ArbitrageService.bookmaker e, p)) :: after
       /\ ArbitrageService.price e = Some (Fin p)
       /\ (forall b q, (name, (b, q)) ∈ before -> (q < p)%Q)
       /\ (forall b q, (name, (b, q)) ∈ after -> (q <= p)%Q))
  /\ (forall name b q, (name, (b, q)) ∈ quotes market ev ->
        exists e p, Obj.get name best = Some e
                    /\ ArbitrageService.price e = Some (Fin p) /\ (q <= p)%Q).
Proof.
  intros best. subst best. rewrite bestPrices_quotes.
  destruct (best_of_quotes (quotes market ev)) as [Hs Hn]. cbv zeta in Hs, Hn.
  split.
  - intros name e He.
    destruct (Hs name e He) as (bf & af & b & p & Hl & -> & Hb & Ha).
    exists bf, af, p. split; [exact Hl|]. split; [reflexivity|].
    split; assumption.
  - intros name b q Hq.
    destruct (Obj.get name (fold_left keep_best (quotes market ev) [])) as [e|] eqn:He.
    + destruct (Hs name e He) as (bf & af & b1 & p & Hl & -> & Hb & Ha).
      exists (entry_of (name, (b1, p))), p.
      split; [reflexivity|]. split; [reflexivity|].
      rewrite Hl in Hq. apply elem_of_app in Hq as [Hq|Hq].
      * specialize (Hb b q Hq). lra.
      * apply elem_of_cons in Hq as [Hq|Hq].
        -- injection Hq as _ ->. lra.
        -- exact (Ha b q Hq).
    + exfalso. exact (Hn name He _ Hq).
Qed.

Lemma arbitrage_keeps_highest_quote_witness :
  let ev := Sample.game "g1"
              [Sample.book_of "fanduel" [Sample.outcome_of "Lakers" 130];
               Sample.book_of "draftkings" [Sample.outcome_of "Lakers" 150]] in
  exists e p,
    Obj.get "Lakers" (ArbitrageService.bestPrices "h2h" ev) = Some e
    /\ ArbitrageService.price e = Some (Fin p) /\ (130 <= p)%Q.
Proof.
  intros ev.
  destruct (arbitrage_keeps_highest_quote "h2h" ev) as [_ Hall].
  apply (Hall "Lakers" (Some "fanduel") 130%Q).
  vm_compute. apply elem_of_cons. left. reflexivity.
Defined.

(** ** The legs of an opportunity *)










(** ** The snapshots of a batch *)

#[local] Instance writes_only_preorder (P : StoreOp -> Prop) : PreOrder (writes_only P).
Proof.
  split.
  - intros w. exists []. rewrite app_nil_r. split; [reflexivity|constructor].
  - intros a b c (o1 & H1 & F1) (o2 & H2 & F2). exists (o1 ++ o2).
    rewrite H2, H1, <- app_assoc. split; [reflexivity|].
    apply Forall_app. split; assumption.
Qed.

Lemma store_write_writes_only (P : StoreOp -> Prop) (op : StoreOp) :
  P op -> preserves (writes_only P) (store_write op).
Proof.
  intros Hop w. exists [op]. split; [reflexivity|].
  constructor; [exact Hop|constructor].
Qed.

Lemma no_write_writes_only (P : StoreOp -> Prop) (w w' : World) :
  store_ops w' = store_ops w -> writes_only P w w'.
Proof.
  intros Heq. exists []. rewrite app_nil_r. split; [exact Heq|constructor].
Qed.

Lemma refreshOdds_writes `{JsBuiltins}
    (params : OddsIngestionService.RefreshParams) (w : World) :
  writes_only (batch_write (OddsIngestionService.rp_oddsFormat params)
                           (clock (env w) (clock_reads w)))
              w (snd (OddsIngestionService.refreshOdds params w)).
Proof.
  set (P := batch_write (OddsIngestionService.rp_oddsFormat params)
                        (clock (env w) (clock_reads w))).
  rewrite refreshOdds_run. cbv zeta.
  match goal with
  | |- context [OddsApiService.getOdds ?p ?w0] =>
      assert (H1 : writes_only P w w0)
        by (eexists [_]; split; [reflexivity|constructor; [exact I|constructor]]);
      pose proof (getOdds_store_frame p w0) as (_ & Ho & _);
      destruct (OddsApiService.getOdds p w0) as [[res|e] wg]
  end; cbn [fst snd] in *.
  - assert (H2 : writes_only P w wg).
    { etrans; [exact H1|apply no_write_writes_only; exact Ho]. }
    destruct (truthy _).
    + etrans; [exact H2|]. apply no_write_writes_only. reflexivity.
    + assert (HB : forall i evt,
                 preserves (writes_only P)
                   (OddsIngestionService.ingestEvent
                      (OddsIngestionService.sportKey params)
                      (Ids.makeSportIdFromKey (OddsIngestionService.sportKey params))
                      (OddsIngestionService.rp_oddsFormat params)
                      (clock (env w) (clock_reads w)) i evt)).
      { intros i evt.
        apply (ingestEvent_preserves
                 (OddsIngestionService.rp_oddsFormat params)
                 (clock (env w) (clock_reads w)) (writes_only P)).
        - intros w0. apply no_write_writes_only. reflexivity.
        - intros op Hop _. apply store_write_writes_only. exact Hop. }
      pose proof (preserves_for_of (writes_only P) _ HB
                    (Payload_events (data res)) 0 wg) as H3.
      destruct (for_of _ _ _ wg) as [[n|e] w2]; cbn [snd] in *;
        (etrans; [exact H2|exact H3]).
  - etrans; [exact H1|apply no_write_writes_only; exact Ho].
Qed.

Lemma snapshots_apply_ops refuses fmt t (ops : list StoreOp) :
  Forall (batch_write fmt t) ops ->
  forall s k r,
    snapshots (apply_ops refuses ops s) !! k = Some r ->
    snapshots s !! k = Some r \/ snapshot_of_batch fmt t r.
Proof.
  induction 1 as [|op ops Hop Hops IH]; intros s k r Hr; [left; exact Hr|].
  change (apply_ops refuses (op :: ops) s)
    with (apply_ops refuses ops (apply_op refuses op s)) in Hr.
  destruct (IH _ _ _ Hr) as [Hin|Hgood]; [|right; exact Hgood].
  destruct op; try contradiction; try (left; exact Hin).
  cbn in Hin. destruct (decide (id = k)) as [->|Hne].
  - rewrite lookup_insert_eq in Hin. injection Hin as <-. right. exact Hop.
  - rewrite lookup_insert_ne in Hin by exact Hne. left. exact Hin.
Qed.

(** X22. The snapshots of a run.  Every write of a run of [refreshOdds]
    is a write of its batch: no write of the archiving, and every snapshot
    written is stamped with the time read at the start of the run and
    holds the implied probability that the conversion of the format gives
    for its own odds value, the decimal conversion under the format
    [decimal] and the American one under every other format.  So every
    snapshot of the hot table after the run is one that was there before,
    unchanged, or one of the batch. *)
Theorem refreshOdds_snapshots_of_batch `{JsBuiltins}
    (params : OddsIngestionService.RefreshParams) (w : World) :
  let t := clock (env w) (clock_reads w) in
  let fmt := OddsIngestionService.rp_oddsFormat params in
  let w' := snd (OddsIngestionService.refreshOdds params w) in
  Forall (batch_write fmt t) (written_by w w')
  /\ forall k r, snapshots (store w') !! k = Some r ->
                 snapshots (store w) !! k = Some r \/ snapshot_of_batch fmt t r.
Proof.
  intros t fmt w'. subst t fmt w'.
  destruct (refreshOdds_writes params w) as (ops & Hops & Hall).
  rewrite (written_by_app _ _ _ Hops). split; [exact Hall|].
  destruct refreshOdds_effect as (F & N & Heff).
  destruct (Heff params w) as (ops' & Hops' & Hstore & _).
  assert (Heq : ops' = ops).
  { rewrite Hops in Hops'. apply app_inv_head in Hops'. congruence. }
  subst ops'. rewrite Hstore. intros k r.
  apply snapshots_apply_ops. exact Hall.
Qed.

Lemma refreshOdds_snapshots_of_batch_witness :
  let events :=
    [Sample.game "g1" [Sample.book_of "fanduel" [Sample.outcome_of "Lakers" 150]]] in
  let params := {| OddsIngestionService.sportKey := "basketball_nba";
                   OddsIngestionService.rp_regions := None;
                   OddsIngestionService.rp_markets := None;
                   OddsIngestionService.rp_oddsFormat := Some "hongkong" |} in
  let w := Sample.fresh (Sample.env_serving events 1700000000000 1) in
  let w' := snd (@OddsIngestionService.refreshOdds Sample.builtins params w) in
  exists r, snapshots (store w') !! 1700000000000000 = Some r
            /\ snap_fetched_at r = 1700000000000
            /\ snap_odds_format r = AMERICAN.
Proof.
  intros events params w w'.
  destruct (snapshots (store w') !! 1700000000000000) as [r|] eqn:Hr;
    [|vm_compute in Hr; discriminate].
  exists r. split; [reflexivity|].
  destruct (@refreshOdds_snapshots_of_batch Sample.builtins params w) as [_ Hsnap].
  destruct (Hsnap 1700000000000000 r Hr) as [Hold|[Ht Hfmt]].
  - change (snapshots (store w)) with (∅ : gmap Z OddsSnapshotRow) in Hold.
    rewrite lookup_empty in Hold. discriminate.
  - split; [exact Ht|].
    change (snap_odds_format r = AMERICAN
            /\ snap_implied_prob r
               = Odds.americanToImpliedProb (snap_odds_value r)) in Hfmt.
    exact (proj1 Hfmt).
Defined.
